(** * GATEKEEPER: the proximity state machine, the audio codec and the
      playback scheduler of [src/index.tsx], embedded in Rocq.

    JavaScript numbers are IEEE-754 binary64 values; they are modelled by
    Rocq's primitive [float], whose operations are the same IEEE operations
    (round to nearest, ties to even).  React state cells ([useState]) and
    mutable refs ([useRef]) are modelled by two records; an event handler
    mutates the refs in place and queues state updates, which are applied
    in order once the handler returns.  The geolocation callback reads the
    state of the render whose effect registered it: React's renders and
    the runs of that effect are events of the model, so that a fix can
    arrive before React has caught up with the state. *)

From Stdlib Require Import ZArith List Bool Lia String Ascii Floats.
Import ListNotations.

(** Decimal literals denote the nearest binary64 value, as in JavaScript. *)
Set Warnings "-inexact-float".

(* ================================================================== *)
(** ** JavaScript numbers *)

Module JS.

Definition number := float.

Bind Scope float_scope with number.

Local Open Scope float_scope.

(** [a > b] of JavaScript: false as soon as one side is NaN. *)
Definition gtb (a b : number) : bool := b <? a.

(** [Math.PI], the binary64 value nearest to pi (3.141592653589793). *)
Definition Math_PI : number := 0x1.921fb54442d18p+1.

Definition Math_abs (x : number) : number := abs x.

(** [Math.sqrt]: the IEEE-754 square root. *)
Definition Math_sqrt (x : number) : number := sqrt x.

(** [Math.max] of two numbers: NaN when either is NaN, and [+0] counts
    as larger than [-0]. *)
Definition Math_max (a b : number) : number :=
  if is_nan a || is_nan b then nan
  else if a <? b then b
  else if b <? a then a
  else if is_zero a && get_sign a then b
  else a.

(** The trigonometric functions of [Math] are approximations chosen by
    the JavaScript engine; the program is parameterised by them. *)
Class MathImpl : Type := {
  Math_sin : number -> number;
  Math_cos : number -> number;
  Math_atan2 : number -> number -> number
}.

(** The mathematical integer obtained from a finite number by dropping
    its fractional part (truncate); [0] for NaN and the infinities. *)
Definition truncate (x : number) : Z :=
  match Prim2SF x with
  | S754_finite s m e =>
      let a := match e with
               | Zneg p => Z.shiftr (Zpos m) (Zpos p)
               | _ => Z.shiftl (Zpos m) e
               end in
      if s then (- a)%Z else a
  | _ => 0%Z
  end.

(** [ToInt16], the conversion applied when a number is stored into an
    [Int16Array]: truncate, reduce modulo 2^16, read as two's complement. *)
Definition ToInt16 (x : number) : Z :=
  let int16bit := (truncate x mod 65536)%Z in
  if (32768 <=? int16bit)%Z then (int16bit - 65536)%Z else int16bit.

(** The binary32 number nearest to a number (ties to even; an infinity
    beyond the binary32 range), as a [number]: the conversion of an
    argument declared [float] in an interface of the platform. *)
Definition ToFloat32 (x : number) : number :=
  match Prim2SF x with
  | S754_finite s m e => SF2Prim (binary_round 24 128 s m e)
  | _ => x
  end.

(** The number denoted by an integer (exact below 2^53). *)
Definition of_Z (z : Z) : number :=
  match z with
  | Z0 => 0
  | Zpos p => SF2Prim (binary_normalize prec emax (Zpos p) 0 false)
  | Zneg p => SF2Prim (binary_normalize prec emax (Zneg p) 0 false)
  end.

(** The number [k / 2] of an integer [k] (exact below 2^53). *)
Definition half_integer (k : Z) : number :=
  SF2Prim (binary_normalize prec emax k (-1) false).

(** JavaScript truthiness of [string | undefined]. *)
Definition truthy (s : option string) : bool :=
  match s with
  | Some EmptyString => false
  | Some _ => true
  | None => false
  end.

End JS.

Import JS.

(* ================================================================== *)
(** ** Geo distance utility *)

Module Geo.

Section WithMath.

Context {M : MathImpl}.

Local Open Scope float_scope.

Definition deg2rad (deg : number) : number :=
  deg * (Math_PI / 180).

(** Haversine distance in feet. *)
Definition getDistanceFromLatLonInFeet
    (lat1 lon1 lat2 lon2 : number) : number :=
  let R := 20902231 in
  let dLat := deg2rad (lat2 - lat1) in
  let dLon := deg2rad (lon2 - lon1) in
  let a :=
    Math_sin (dLat / 2) * Math_sin (dLat / 2) +
    Math_cos (deg2rad lat1) * Math_cos (deg2rad lat2) *
    Math_sin (dLon / 2) * Math_sin (dLon / 2) in
  let c := 2 * Math_atan2 (Math_sqrt a) (Math_sqrt (1 - a)) in
  let d := R * c in
  d.

End WithMath.

End Geo.

(* ================================================================== *)
(** ** Audio codec utility *)

Module Audio.

Local Open Scope Z_scope.

(** Typed arrays: a [Float32Array] holds numbers (binary32 values, each
    exactly a binary64 value), an [Int16Array] integers in
    [-32768, 32767], a [Uint8Array] integers in [0, 255]. *)
Definition Float32Array := list number.
Definition Int16Array := list Z.
Definition Uint8Array := list Z.

(** *** The platform's base64 functions

    [btoa] and [atob] work on binary strings, whose characters are
    bytes; [ascii] is exactly that. *)

Definition b64_alphabet : string :=
  "ABCDEFGHIJKLMNOPQRSTUVWXYZabcdefghijklmnopqrstuvwxyz0123456789+/".

Definition b64_char (n : Z) : ascii :=
  match String.get (Z.to_nat n) b64_alphabet with
  | Some c => c
  | None => "="%char
  end.

Definition code (c : ascii) : Z := Z.of_N (N_of_ascii c).

Definition fromCharCode (b : Z) : ascii := ascii_of_N (Z.to_N b).

Fixpoint btoa_list (l : list ascii) : list ascii :=
  match l with
  | [] => []
  | [a] =>
      let n := code a * 65536 in
      [b64_char (n / 262144); b64_char ((n / 4096) mod 64);
       "="%char; "="%char]
  | [a; b] =>
      let n := code a * 65536 + code b * 256 in
      [b64_char (n / 262144); b64_char ((n / 4096) mod 64);
       b64_char ((n / 64) mod 64); "="%char]
  | a :: b :: c :: rest =>
      let n := code a * 65536 + code b * 256 + code c in
      b64_char (n / 262144) :: b64_char ((n / 4096) mod 64) ::
      b64_char ((n / 64) mod 64) :: b64_char (n mod 64) ::
      btoa_list rest
  end.

Definition btoa (binary : string) : string :=
  string_of_list_ascii (btoa_list (list_ascii_of_string binary)).

(** The value of a base64 digit. *)
Definition b64_value (c : ascii) : option Z :=
  let n := code c in
  if (65 <=? n) && (n <=? 90) then Some (n - 65)
  else if (97 <=? n) && (n <=? 122) then Some (n - 71)
  else if (48 <=? n) && (n <=? 57) then Some (n + 4)
  else if n =? 43 then Some 62
  else if n =? 47 then Some 63
  else None.

Definition is_pad (c : ascii) : bool := code c =? 61.

(** ASCII white space: tab, line feed, form feed, carriage return,
    space. *)
Definition is_space (c : ascii) : bool :=
  let n := code c in
  (n =? 9) || (n =? 10) || (n =? 12) || (n =? 13) || (n =? 32).

(** The forgiving base64 decoding of [atob], on input from which the
    white space has been removed: the padding of the last group may be
    left out, and the unused low bits of a short group are dropped.
    [None] stands for the [InvalidCharacterError] exception. *)
Fixpoint base64_decode (l : list ascii) : option (list ascii) :=
  match l with
  | [] => Some []
  | [c0; c1] =>
      match b64_value c0, b64_value c1 with
      | Some v0, Some v1 => Some [fromCharCode ((v0 * 64 + v1) / 16)]
      | _, _ => None
      end
  | [c0; c1; c2] =>
      match b64_value c0, b64_value c1, b64_value c2 with
      | Some v0, Some v1, Some v2 =>
          let n := (v0 * 64 + v1) * 64 + v2 in
          Some [fromCharCode (n / 1024); fromCharCode ((n / 4) mod 256)]
      | _, _, _ => None
      end
  | [c0; c1; c2; c3] =>
      match b64_value c0, b64_value c1 with
      | Some v0, Some v1 =>
          if is_pad c2 && is_pad c3 then
            Some [fromCharCode ((v0 * 64 + v1) / 16)]
          else
            match b64_value c2 with
            | Some v2 =>
                let n := (v0 * 64 + v1) * 64 + v2 in
                if is_pad c3 then
                  Some [fromCharCode (n / 1024);
                        fromCharCode ((n / 4) mod 256)]
                else
                  match b64_value c3 with
                  | Some v3 =>
                      let n := n * 64 + v3 in
                      Some [fromCharCode (n / 65536);
                            fromCharCode ((n / 256) mod 256);
                            fromCharCode (n mod 256)]
                  | None => None
                  end
            | None => None
            end
      | _, _ => None
      end
  | c0 :: c1 :: c2 :: c3 :: rest =>
      match b64_value c0, b64_value c1, b64_value c2, b64_value c3,
            base64_decode rest with
      | Some v0, Some v1, Some v2, Some v3, Some out =>
          let n := ((v0 * 64 + v1) * 64 + v2) * 64 + v3 in
          Some (fromCharCode (n / 65536) ::
                fromCharCode ((n / 256) mod 256) ::
                fromCharCode (n mod 256) :: out)
      | _, _, _, _, _ => None
      end
  | _ => None
  end.

(** [atob]: ASCII white space is removed first, wherever it stands. *)
Definition atob (base64 : string) : option string :=
  option_map string_of_list_ascii
    (base64_decode
       (filter (fun c => negb (is_space c)) (list_ascii_of_string base64))).

(** *** Views of an [ArrayBuffer] (little-endian platform) *)

Definition int16_bytes (v : Z) : list Z :=
  [Z.land v 255; Z.land (Z.shiftr v 8) 255].

Definition bytes_of_int16 (a : Int16Array) : Uint8Array :=
  flat_map int16_bytes a.

Definition int16_of_bytes (lo hi : Z) : Z :=
  let u := lo + 256 * hi in
  if 32768 <=? u then u - 65536 else u.

(** [new Int16Array(buffer)]: [None] stands for the [RangeError] raised
    when the byte length is odd. *)
Fixpoint int16_view (bytes : Uint8Array) : option Int16Array :=
  match bytes with
  | [] => Some []
  | lo :: hi :: rest =>
      option_map (cons (int16_of_bytes lo hi)) (int16_view rest)
  | [_] => None
  end.

(** *** The functions of the program *)

(** [decode]: base64 to bytes. *)
Definition decode (base64 : string) : option Uint8Array :=
  option_map (fun binaryString =>
                map code (list_ascii_of_string binaryString))
             (atob base64).

Record AudioBuffer := mkAudioBuffer {
  numberOfChannels : nat;
  length : nat;
  sampleRate : number;
  channels : list Float32Array
}.

(** [buffer.duration]: the length in frames over the sample rate. *)
Definition duration (b : AudioBuffer) : number :=
  (of_Z (Z.of_nat (length b)) / sampleRate b)%float.

(** The inner loop of [decodeAudioData] for one channel:
    [channelData[i] = dataInt16[i * numChannels + channel] / 32768.0]. *)
Definition channelData (dataInt16 : Int16Array) (numChannels frameCount
                        channel : nat) : Float32Array :=
  map (fun i =>
         match nth_error dataInt16 (i * numChannels + channel) with
         | Some v => (of_Z v / 32768)%float
         | None => nan (* undefined / 32768.0 *)
         end)
      (seq 0 frameCount).

(** The Web Audio platform behind [ctx]: which arguments
    [ctx.createBuffer] accepts.  [supportsSampleRate rate] tells whether
    it accepts the number [rate] as its sample rate.  The sample rates
    and the number of channels a browser supports are its own choice,
    within what the standard fixes: every rate from 8000 to 96000 and up
    to 32 channels are supported, and a rate that is not a finite number
    above 0 never is (the call throws there, as it does outside the
    supported ranges). *)
Class WebAudio := {
  supportsSampleRate : number -> bool;
  maxChannels : nat;
  supports_nominal_rates : forall rate : number,
    (8000 <=? rate)%float = true -> (rate <=? 96000)%float = true ->
    supportsSampleRate rate = true;
  supports_positive_rates_only : forall rate : number,
    supportsSampleRate rate = true ->
    is_finite rate = true /\ (0 <? rate)%float = true;
  supports_32_channels : (32 <= maxChannels)%nat
}.

(** [ctx.createBuffer(numberOfChannels, length, sampleRate)] accepts its
    arguments: at least one channel and one frame, no more channels than
    the platform has, a sample rate it supports. *)
Definition createBuffer_accepts {W : WebAudio}
    (numberOfChannels length : nat) (sampleRate : number) : bool :=
  negb (Nat.eqb numberOfChannels 0) && negb (Nat.eqb length 0)
  && Nat.leb numberOfChannels maxChannels
  && supportsSampleRate sampleRate.

(** [decodeAudioData]; the platform [W] stands for [ctx].  The frame
    count [createBuffer] receives, [dataInt16.length / numChannels], is
    truncated to an integer, and the sample rate, a [float] argument, is
    converted to binary32; [None] stands for the exception of the
    typed-array view or of [createBuffer]; the loop's writes past the
    length of a channel are ignored. *)
Definition decodeAudioData {W : WebAudio} (data : Uint8Array)
    (sampleRate : number) (numChannels : nat) : option AudioBuffer :=
  match int16_view data with
  | None => None
  | Some dataInt16 =>
      let frameCount := Nat.div (List.length dataInt16) numChannels in
      if createBuffer_accepts numChannels frameCount sampleRate then
        Some (mkAudioBuffer numChannels frameCount (ToFloat32 sampleRate)
                (map (channelData dataInt16 numChannels frameCount)
                     (seq 0 numChannels)))
      else None
  end.

Record Blob := mkBlob { data : string; mimeType : string }.

(** [createBlob]: [int16[i] = data[i] * 32768], then the bytes of the
    buffer as a binary string, then [btoa]. *)
Definition createBlob (data : Float32Array) : Blob :=
  let int16 := map (fun x => ToInt16 (x * 32768)%float) data in
  let bytes := bytes_of_int16 int16 in
  let binary := string_of_list_ascii (map fromCharCode bytes) in
  let b64 := btoa binary in
  mkBlob b64 "audio/pcm;rate=16000".

(** Encode a frame, then decode it as the inbound path does. *)
Definition roundtrip {W : WebAudio} (samples : Float32Array)
    (sampleRate : number) : option AudioBuffer :=
  match decode (data (createBlob samples)) with
  | Some bytes => decodeAudioData bytes sampleRate 1
  | None => None
  end.

(** *** The frame grabber's encoder

    [blobToBase64] reads a DOM [Blob] as a data URL,
    [data:<type>;base64,<payload>], and resolves with
    [result.split(',')[1]]. *)

Definition is_comma (c : ascii) : bool := code c =? 44.

(** [s.split(',')]: the pieces of [s] between its commas; a string
    without comma is its only piece. *)
Fixpoint split_comma (s : list ascii) : list (list ascii) :=
  match s with
  | [] => [[]]
  | c :: rest =>
      if is_comma c then [] :: split_comma rest
      else match split_comma rest with
           | piece :: pieces => (c :: piece) :: pieces
           | [] => [[c]]
           end
  end.

(** A DOM [Blob]: its MIME type and its bytes. *)
Record DOM_Blob := mkDOM_Blob { blobType : string; blobBytes : Uint8Array }.

(** [reader.result] once [readAsDataURL] has finished. *)
Definition readAsDataURL (blob : DOM_Blob) : string :=
  String.append "data:"
    (String.append (blobType blob)
       (String.append ";base64,"
          (btoa (string_of_list_ascii (map fromCharCode (blobBytes blob)))))).

(** [blobToBase64]; [None] stands for [undefined], the second element of
    an array that has only one. *)
Definition blobToBase64 (blob : DOM_Blob) : option string :=
  option_map string_of_list_ascii
    (nth_error (split_comma (list_ascii_of_string (readAsDataURL blob))) 1).

(** *** Ranges and character classes *)

Definition byte_range (b : Z) : Prop := 0 <= b < 256.

Definition int16_range (v : Z) : Prop := -32768 <= v < 32768.

(** A base64 digit or the padding character. *)
Definition b64_symbol (c : ascii) : bool :=
  match b64_value c with Some _ => true | None => is_pad c end.

(** [p] holds on the [n] integers from [lo] on. *)
Fixpoint forall_from (n : nat) (lo : Z) (p : Z -> bool) : bool :=
  match n with
  | O => true
  | S n' => p lo && forall_from n' (lo + 1) p
  end.

End Audio.

(* ================================================================== *)
(** ** The application component *)

Module App.

Import Geo Audio.

Inductive Status := STANDBY | SECURE | VIOLATION | TESTING.

Definition Status_eqb (a b : Status) : bool :=
  match a, b with
  | STANDBY, STANDBY | SECURE, SECURE
  | VIOLATION, VIOLATION | TESTING, TESTING => true
  | _, _ => false
  end.

Record Location := mkLocation { lat : number; lon : number }.

Record Gyro := mkGyro { alpha : number; beta : number; gamma : number }.

(** The [useState] cells of [App]. *)
Record State := mkState {
  started : bool;
  testActive : bool;
  status : Status;
  homeLocation : option Location;
  currentDistance : number;
  gyroData : Gyro;
  stabilityScore : number
}.

Definition initialState : State :=
  mkState false false STANDBY None 0%float (mkGyro 0 0 0) 100%float.

(** Handles of platform objects. *)
Definition MediaStream := nat.
Record GoogleGenAI := mkGoogleGenAI { apiKey : string }.
Record AudioContext := mkAudioContext { contextRate : number }.
Record LiveSession := mkLiveSession { model : string }.

(** What lives outside the state cells: the [useRef] cells of [App]
    that the handlers read or write, and what React holds between two
    events: the state of the last render ([rendered]), and the
    geolocation watch registered by the effect of a render ([watch]),
    whose callback is the closure of that render and so sees its
    [homeLocation], [status] and [testActive] until the effect runs
    again; [None] when no watch is registered. *)
Record Refs := mkRefs {
  audioContextRef : option AudioContext;
  streamRef : option MediaStream;
  aiClient : option GoogleGenAI;
  sessionRef : option LiveSession;
  nextStartTimeRef : number;
  frameIntervalRef : option nat;
  rendered : State;
  watch : option State
}.

Definition initialRefs : Refs :=
  mkRefs None None None None 0%float None initialState None.

Definition MODEL_NAME : string :=
  "gemini-2.5-flash-native-audio-preview-09-2025".

(** What a handler does besides writing refs, in program order: the
    state updates it queues and the calls it makes to the platform.
    [invoke_startTest] marks each entry into [startTest]. *)
Inductive Effect :=
| setStarted (b : bool)
| setTestActive (b : bool)
| setStatus (st : Status)
| setHomeLocation (l : Location)
| setCurrentDistance (d : number)
| setGyroData (g : Gyro)
| setStabilityScore (f : number -> number)
| invoke_startTest
| console_log (msg : string)
| console_error (msg : string)
| alert (msg : string)
| new_AudioContext (rate : number)
| live_connect (model : string)
| setInterval (ms : nat)
| sendRealtimeInput (media : Blob)
| source_start (when : number)
| clearInterval (id : nat)
| audioContext_close
| location_reload.

(** One queued state update applied to the state. *)
Definition apply (s : State) (e : Effect) : State :=
  match e with
  | setStarted b =>
      mkState b (testActive s) (status s) (homeLocation s)
              (currentDistance s) (gyroData s) (stabilityScore s)
  | setTestActive b =>
      mkState (started s) b (status s) (homeLocation s)
              (currentDistance s) (gyroData s) (stabilityScore s)
  | setStatus st =>
      mkState (started s) (testActive s) st (homeLocation s)
              (currentDistance s) (gyroData s) (stabilityScore s)
  | setHomeLocation l =>
      mkState (started s) (testActive s) (status s) (Some l)
              (currentDistance s) (gyroData s) (stabilityScore s)
  | setCurrentDistance d =>
      mkState (started s) (testActive s) (status s) (homeLocation s)
              d (gyroData s) (stabilityScore s)
  | setGyroData g =>
      mkState (started s) (testActive s) (status s) (homeLocation s)
              (currentDistance s) g (stabilityScore s)
  | setStabilityScore f =>
      mkState (started s) (testActive s) (status s) (homeLocation s)
              (currentDistance s) (gyroData s) (f (stabilityScore s))
  | _ => s
  end.

(** The state once the updates a handler queued are applied. *)
Definition commit (s : State) (effs : list Effect) : State :=
  fold_left apply effs s.

(** *** Ref writes *)

Definition set_streamRef (r : Refs) (v : option MediaStream) : Refs :=
  mkRefs (audioContextRef r) v (aiClient r) (sessionRef r)
         (nextStartTimeRef r) (frameIntervalRef r) (rendered r) (watch r).

Definition set_aiClient (r : Refs) (v : option GoogleGenAI) : Refs :=
  mkRefs (audioContextRef r) (streamRef r) v (sessionRef r)
         (nextStartTimeRef r) (frameIntervalRef r) (rendered r) (watch r).

Definition set_audioContextRef (r : Refs) (v : option AudioContext) : Refs :=
  mkRefs v (streamRef r) (aiClient r) (sessionRef r)
         (nextStartTimeRef r) (frameIntervalRef r) (rendered r) (watch r).

Definition set_sessionRef (r : Refs) (v : option LiveSession) : Refs :=
  mkRefs (audioContextRef r) (streamRef r) (aiClient r) v
         (nextStartTimeRef r) (frameIntervalRef r) (rendered r) (watch r).

Definition set_nextStartTimeRef (r : Refs) (v : number) : Refs :=
  mkRefs (audioContextRef r) (streamRef r) (aiClient r) (sessionRef r)
         v (frameIntervalRef r) (rendered r) (watch r).

Definition set_frameIntervalRef (r : Refs) (v : option nat) : Refs :=
  mkRefs (audioContextRef r) (streamRef r) (aiClient r) (sessionRef r)
         (nextStartTimeRef r) v (rendered r) (watch r).

(** React renders the state [s]. *)
Definition set_rendered (r : Refs) (s : State) : Refs :=
  mkRefs (audioContextRef r) (streamRef r) (aiClient r) (sessionRef r)
         (nextStartTimeRef r) (frameIntervalRef r) s (watch r).

(** The geolocation effect clears the old watch and registers [w]. *)
Definition set_watch (r : Refs) (w : option State) : Refs :=
  mkRefs (audioContextRef r) (streamRef r) (aiClient r) (sessionRef r)
         (nextStartTimeRef r) (frameIntervalRef r) (rendered r) w.

(** *** The mount effect: the AI client *)

(** [if (API_KEY) aiClient.current = new GoogleGenAI({ apiKey: API_KEY })] *)
Definition mount (API_KEY : option string) (r : Refs) : Refs :=
  match API_KEY with
  | Some key =>
      if truthy API_KEY then set_aiClient r (Some (mkGoogleGenAI key))
      else r
  | None => r
  end.

(** *** The gyroscope listener *)

(** The updater passed to [setStabilityScore]. *)
Definition nextStability (movement prev : number) : number :=
  let diff := Math_abs (prev - (100 - movement / 5))%float in
  if gtb diff 5 then (prev - 1)%float
  else if (prev <? 100)%float then (prev + 0.5)%float
  else 100%float.

Definition handleOrientation (alpha beta gamma : option number)
    : list Effect :=
  match alpha, beta, gamma with
  | Some a, Some b, Some g =>
      let movement := (Math_abs b + Math_abs g)%float in
      [setGyroData (mkGyro a b g);
       setStabilityScore (nextStability movement)]
  | _, _, _ => []
  end.

(** *** The live session controller *)

(** [startTest]: both state updates are queued before the guard. *)
Definition startTest (r : Refs) : Refs * list Effect :=
  let entry := [invoke_startTest; setTestActive true; setStatus TESTING] in
  match aiClient r, streamRef r with
  | Some _, Some _ =>
      let ctx := mkAudioContext 16000 in
      let r1 := set_audioContextRef r (Some ctx) in
      let r2 := set_sessionRef r1 (Some (mkLiveSession MODEL_NAME)) in
      (r2, entry ++ [new_AudioContext 16000; new_AudioContext 24000;
                     live_connect MODEL_NAME])
  | _, _ => (r, entry)
  end.

(** [onopen]: the audio tap is wired and the frame grabber started
    ([timer] is the id [setInterval] returns). *)
Definition onopen (timer : nat) (r : Refs) : Refs * list Effect :=
  (set_frameIntervalRef r (Some timer),
   [console_log "GATEKEEPER ONLINE"; setInterval 500]).

(** [scriptProcessor.onaudioprocess] *)
Definition onaudioprocess (inputData : Float32Array) : list Effect :=
  [sendRealtimeInput (createBlob inputData)].

(** The scheduling step of [onmessage] for a decoded clip:
    [start = Math.max(now, nextStartTimeRef.current)];
    [nextStartTimeRef.current = start + buffer.duration]. *)
Definition schedule (now bufferDuration : number) (r : Refs)
    : number * Refs :=
  let start := Math_max now (nextStartTimeRef r) in
  (start, set_nextStartTimeRef r (start + bufferDuration)%float).

(** [onmessage]; [now] is [outCtx.currentTime] when the clip is decoded.
    A payload that fails to decode throws and schedules nothing. *)
Definition onmessage {W : WebAudio} (audioData : option string)
    (now : number) (r : Refs) : Refs * list Effect :=
  match audioData with
  | Some b64 =>
      if truthy audioData then
        match decode b64 with
        | Some bytes =>
            match decodeAudioData bytes 24000 1 with
            | Some buffer =>
                let (start, r') := schedule now (duration buffer) r in
                (r', [source_start start])
            | None => (r, [])
            end
        | None => (r, [])
        end
      else (r, [])
  | None => (r, [])
  end.

(** [endTest].  Both guards test truthiness: a timer id of 0 is skipped
    like a missing one (browsers hand out ids above 0); a context object
    is always truthy. *)
Definition endTest (r : Refs) : list Effect :=
  match frameIntervalRef r with
  | Some id => if Nat.eqb id 0 then [] else [clearInterval id]
  | None => []
  end
  ++ match audioContextRef r with Some _ => [audioContext_close] | None => [] end
  ++ [setTestActive false; setStatus SECURE;
      alert "TEST CONCLUDED. RESETTING PERIMETER."; location_reload].

(** *** Hardware initialisation *)

(** How the awaited part of [startSystem] ends: the stream is obtained
    and everything after it succeeds; the stream is obtained and a later
    await rejects; or [getUserMedia] rejects. *)
Inductive Hardware :=
| Granted (stream : MediaStream)
| GrantedThenRejected (stream : MediaStream)
| Denied.

Definition hardware_failure : list Effect :=
  [console_error "Hardware access denied";
   alert "SYSTEM FAILURE: HARDWARE PERMISSIONS REQUIRED FOR GATEKEEPER PROTOCOL."].

(** [startSystem], up to its first [await]. *)
Definition startSystem : list Effect := [setStarted true].

(** The continuation of [startSystem] once the awaited hardware requests
    have settled. *)
Definition startSystem_settled (hw : Hardware) (r : Refs)
    : Refs * list Effect :=
  match hw with
  | Granted stream => (set_streamRef r (Some stream), [])
  | GrantedThenRejected stream =>
      (set_streamRef r (Some stream), hardware_failure)
  | Denied => (r, hardware_failure)
  end.

Section WithMath.

Context {M : MathImpl} {W : WebAudio}.

(** *** The geolocation monitor *)

(** The success callback of [watchPosition], closed over the state [s]
    of the render that subscribed it. *)
Definition onPosition (s : State) (r : Refs)
    (latitude longitude : number) : Refs * list Effect :=
  match homeLocation s with
  | None =>
      (r, [setHomeLocation (mkLocation latitude longitude);
           setStatus SECURE])
  | Some home =>
      let dist :=
        getDistanceFromLatLonInFeet (lat home) (lon home)
                                    latitude longitude in
      if gtb dist 15 && Status_eqb (status s) SECURE
         && negb (testActive s)
      then
        (fst (startTest r),
         [setCurrentDistance dist; setStatus VIOLATION]
           ++ snd (startTest r))
      else (r, [setCurrentDistance dist])
  end.

(** *** Events *)

Inductive Event :=
| deviceorientation (alpha beta gamma : option number)
| position (latitude longitude : number)
| position_error (err : string)
| click_initialize
| media_settled (hw : Hardware)
| click_submit_to_test
| click_emergency_termination
| session_open (timer : nat)
| audioprocess (inputData : Float32Array)
| session_message (audioData : option string) (now : number)
| session_close
| session_error (err : string)
| render
| effect.

(** The handler an event reaches, in state [s] (every update queued so
    far applied).

    A fix goes to the callback of the registered watch, which is the
    closure of the render whose effect subscribed it, not of the latest
    state.  React renders the state some time after a handler has queued
    updates ([render]), and runs the geolocation effect of that render
    later still ([effect]): it clears the old watch and, when the render
    was [started], registers a new one closed over the rendered state
    (when none of [started], [homeLocation], [status] and [testActive]
    changed, the effect does not run, and the old closure reads the same
    values).  Fixes that arrive in between reach the old closure.

    The click handlers read refs only, and a click needs its button.
    INITIALIZE SYSTEM is shown until [started] is rendered, which React
    does within the click that sets it.  The other two buttons are shown
    once React has rendered a state that shows them; the guard is taken
    on [s], which admits a click as soon as the state shows the button
    (in a run [s] shows EMERGENCY TERMINATION whenever the page does).
    Session callbacks need a session. *)
Definition handle (ev : Event) (s : State) (r : Refs)
    : Refs * list Effect :=
  match ev with
  | deviceorientation a b g => (r, handleOrientation a b g)
  | position latitude longitude =>
      match watch r with
      | Some w => onPosition w r latitude longitude
      | None => (r, [])
      end
  | position_error err =>
      match watch r with
      | Some _ => (r, [console_error err])
      | None => (r, [])
      end
  | click_initialize =>
      if started s then (r, []) else (r, startSystem)
  | media_settled hw =>
      if started s then startSystem_settled hw r else (r, [])
  | click_submit_to_test =>
      if started s && Status_eqb (status s) VIOLATION
         && negb (testActive s)
      then startTest r else (r, [])
  | click_emergency_termination =>
      if started s && testActive s then (r, endTest r) else (r, [])
  | session_open timer =>
      match sessionRef r with
      | Some _ => onopen timer r
      | None => (r, [])
      end
  | audioprocess inputData =>
      (* the tap is wired by [onopen], which also sets the timer ref *)
      match sessionRef r, frameIntervalRef r with
      | Some _, Some _ => (r, onaudioprocess inputData)
      | _, _ => (r, [])
      end
  | session_message audioData now =>
      match sessionRef r with
      | Some _ => onmessage audioData now r
      | None => (r, [])
      end
  | session_close =>
      match sessionRef r with
      | Some _ => (r, [console_log "GATEKEEPER OFFLINE"])
      | None => (r, [])
      end
  | session_error err =>
      match sessionRef r with
      | Some _ => (r, [console_error err])
      | None => (r, [])
      end
  | render => (set_rendered r s, [])
  | effect =>
      (set_watch r (if started (rendered r) then Some (rendered r)
                    else None),
       [])
  end.

Definition is_reload (e : Effect) : bool :=
  match e with location_reload => true | _ => false end.

(** One event: the refs after the handler, the state with the updates
    the handler queued applied (the updates of one handler are applied
    together, React batching them), and what the handler did.  [None]
    when the handler reloads the page, which ends the run. *)
Definition step (ev : Event) (a : State * Refs)
    : option (State * Refs) * list Effect :=
  let (r', effs) := handle ev (fst a) (snd a) in
  if existsb is_reload effs then (None, effs)
  else (Some (commit (fst a) effs, r'), effs).

(** A run: every state reached, step by step, with the effects of
    the step that led to it. *)
Fixpoint run (evs : list Event) (a : State * Refs)
    : list (list Effect * option (State * Refs)) :=
  match evs with
  | [] => []
  | ev :: evs' =>
      match step ev a with
      | (Some a', effs) => (effs, Some a') :: run evs' a'
      | (None, effs) => [(effs, None)]
      end
  end.

(** The state a run ends in; [None] when it ended in a reload. *)
Fixpoint exec (evs : list Event) (a : State * Refs)
    : option (State * Refs) :=
  match evs with
  | [] => Some a
  | ev :: evs' =>
      match fst (step ev a) with
      | Some a' => exec evs' a'
      | None => None
      end
  end.

(** Every effect of a run, in order. *)
Definition trace (evs : list Event) (a : State * Refs) : list Effect :=
  List.concat (map fst (run evs a)).

(** An event that is not a fix farther than 15 ft from [home]. *)
Definition near (home : Location) (ev : Event) : Prop :=
  match ev with
  | position latitude longitude =>
      (getDistanceFromLatLonInFeet (lat home) (lon home) latitude longitude
       <=? 15)%float = true
  | _ => True
  end.

(** The home location [home] is established: the state holds it, and so
    do the last render and the closure of the registered watch. *)
Definition home_established (home : Location) (a : State * Refs) : Prop :=
  homeLocation (fst a) = Some home /\
  homeLocation (rendered (snd a)) = Some home /\
  forall w, watch (snd a) = Some w -> homeLocation w = Some home.

(** A run in which React has rendered the state and run the geolocation
    effect before each event arrives. *)
Definition settled (evs : list Event) : list Event :=
  flat_map (fun ev => [render; effect; ev]) evs.

(** The application as loaded: the initial state, rendered; the refs
    after the mount effect; no watch, the system not being started. *)
Definition load (API_KEY : option string) : State * Refs :=
  (initialState, mount API_KEY initialRefs).

End WithMath.

(** *** Observations on effect traces *)

Definition count (p : Effect -> bool) (effs : list Effect) : nat :=
  List.length (filter p effs).

Definition is_setViolation (e : Effect) : bool :=
  match e with setStatus VIOLATION => true | _ => false end.

Definition is_invoke_startTest (e : Effect) : bool :=
  match e with invoke_startTest => true | _ => false end.

Definition is_setHomeLocation (e : Effect) : bool :=
  match e with setHomeLocation _ => true | _ => false end.

Definition is_live_connect (e : Effect) : bool :=
  match e with live_connect _ => true | _ => false end.

(** What reaches the user or the console as an error. *)
Definition is_error_report (e : Effect) : bool :=
  match e with alert _ | console_error _ => true | _ => false end.

(** What builds the audio pipeline or the frame grabber. *)
Definition is_pipeline (e : Effect) : bool :=
  match e with
  | new_AudioContext _ | setInterval _ | sendRealtimeInput _ => true
  | _ => false
  end.

(** The statuses a handler writes, in order. *)
Definition statusWrites (effs : list Effect) : list Status :=
  flat_map (fun e => match e with setStatus st => [st] | _ => [] end) effs.

(** *** The playback scheduler over a sequence of clips *)

(** Clips in arrival order, each with the context time [now] at which it
    is scheduled and its duration; the result lists their start times. *)
Fixpoint playback (clips : list (number * number)) (r : Refs)
    : list number :=
  match clips with
  | [] => []
  | (now, bufferDuration) :: rest =>
      let (start, r') := schedule now bufferDuration r in
      start :: playback rest r'
  end.

(** A clip whose scheduling time and duration are not negative (and so
    are numbers, not NaN). *)
Definition clip_ok (c : number * number) : Prop :=
  (0 <=? fst c)%float = true /\ (0 <=? snd c)%float = true.

(** *** What a render shows

    The conditional parts of the started view: the HUD, the STOP panel
    with its SUBMIT TO TEST button, and the EMERGENCY TERMINATION
    button. *)

Definition shows_hud (s : State) : bool :=
  started s && Status_eqb (status s) TESTING.

Definition shows_stop_panel (s : State) : bool :=
  started s && Status_eqb (status s) VIOLATION && negb (testActive s).

Definition shows_termination (s : State) : bool :=
  started s && testActive s.

(** *** Coherence of the state cells and the refs *)

Definition is_some {A : Type} (o : option A) : bool :=
  match o with Some _ => true | None => false end.

(** What holds between the cells after every handler of a run: the
    status is not VIOLATION; a home location exists exactly when the
    status has left STANDBY; a test is active exactly when the status is
    TESTING; nothing happens before the system is started; a session exists
    only during a test and only with a client and a stream; the input
    audio context exists exactly when a session does; the frame-grabber
    timer only with a session. *)
Definition coherent (a : State * Refs) : bool :=
  let s := fst a in
  let r := snd a in
  negb (Status_eqb (status s) VIOLATION)
  && Bool.eqb (is_some (homeLocation s)) (negb (Status_eqb (status s) STANDBY))
  && Bool.eqb (testActive s) (Status_eqb (status s) TESTING)
  && implb (negb (started s)) (Status_eqb (status s) STANDBY)
  && implb (is_some (sessionRef r))
           (Status_eqb (status s) TESTING && is_some (aiClient r)
            && is_some (streamRef r))
  && Bool.eqb (is_some (audioContextRef r)) (is_some (sessionRef r))
  && implb (is_some (frameIntervalRef r)) (is_some (sessionRef r))
  && implb (is_some (streamRef r)) (started s).

(** The order in which a run moves through the statuses. *)
Definition Status_rank (st : Status) : nat :=
  match st with STANDBY => 0 | SECURE => 1 | VIOLATION => 2 | TESTING => 3 end.

(** [w] can be the state of an earlier render of a run now in state
    [s]: its own cells are coherent, its status is not ahead of that of
    [s], and the system is started in [s] if it is in [w]. *)
Definition past_render (w s : State) : Prop :=
  status w <> VIOLATION /\
  (homeLocation w = None <-> status w = STANDBY) /\
  (testActive w = true <-> status w = TESTING) /\
  (Status_rank (status w) <= Status_rank (status s))%nat /\
  (started w = true -> started s = true).

(** What holds of the render and the watch React keeps: the last render
    is an earlier state of the run; the registered watch is the closure
    of a started render no later than the last one; and a test has only
    been entered through a watch that holds a home location, which is
    still registered or has been replaced by a later one. *)
Definition snapshots_ok (a : State * Refs) : Prop :=
  past_render (rendered (snd a)) (fst a) /\
  (forall w, watch (snd a) = Some w ->
             started w = true /\ past_render w (rendered (snd a))) /\
  (status (fst a) = TESTING ->
   exists w, watch (snd a) = Some w /\ status w <> STANDBY).

(** What every state of a run satisfies. *)
Definition consistent (a : State * Refs) : Prop :=
  coherent a = true /\ snapshots_ok a.

(** The refs once React has rendered [s] and run the geolocation effect
    of that render. *)
Definition refresh (s : State) (r : Refs) : Refs :=
  set_watch (set_rendered r s) (if started s then Some s else None).

Definition is_fix (ev : Event) : bool :=
  match ev with position _ _ => true | _ => false end.

(** The tests a run can still enter. *)
Definition tests_left (a : State * Refs) : nat :=
  if Status_eqb (status (fst a)) TESTING then 0 else 1.

(** The home locations a run can still set. *)
Definition homes_left (a : State * Refs) : nat :=
  if is_some (homeLocation (fst a)) then 0 else 1.

(** An event that hands the application a media stream. *)
Definition grants_stream (ev : Event) : bool :=
  match ev with
  | media_settled (Granted _) | media_settled (GrantedThenRejected _) => true
  | _ => false
  end.

Definition is_new_AudioContext (e : Effect) : bool :=
  match e with new_AudioContext _ => true | _ => false end.

(** The start times a handler passes to [source.start]. *)
Definition starts (effs : list Effect) : list number :=
  flat_map (fun e => match e with source_start t => [t] | _ => [] end) effs.

(** A session message whose context time is not negative (and so is a
    number, not NaN). *)
Definition message_time_ok (ev : Event) : Prop :=
  match ev with
  | session_message _ now => (0 <=? now)%float = true
  | _ => True
  end.

(** The indices of the score grid: the score is [k / 2] for
    [-2^53 < k <= 200], and below that an integer down to -2^53, which
    is [k / 2] for an even [k >= -2^54]. *)
Definition score_index (k : Z) : Prop :=
  (-2 ^ 54 <= k <= 200)%Z /\ (k <= -2 ^ 53 -> Z.even k = true)%Z.

(** An orientation sample from a device lying flat: [beta] and [gamma]
    are zero, of either sign. *)
Definition is_flat (ev : Event) : Prop :=
  match ev with
  | deviceorientation (Some _) (Some b) (Some g) =>
      Math_abs b = 0%float /\ Math_abs g = 0%float
  | _ => False
  end.

End App.

(* ================================================================== *)
(** ** Concrete inputs *)

Module Scenario.

Import App.

Local Open Scope float_scope.

(** First-order small-angle stand-ins for the engine's functions
    (sin x ~ x, cos x ~ 1, atan2 y x ~ y / x), used to run the program on
    concrete inputs. *)
Definition SmallAngle : MathImpl :=
  {| Math_sin := fun x => x;
     Math_cos := fun _ => 1;
     Math_atan2 := fun y x => y / x |}.

(** The coordinates of the scenario: Austin, a point about 110 ft north
    of it, and a point about 4 ft north of it. *)
Definition home_lat : number := 30.2672.
Definition home_lon : number := -97.7431.
Definition north_lat : number := 30.2675.
Definition jitter_lat : number := 30.26721.

Definition austin : Location := mkLocation home_lat home_lon.

(** Started, no fix received yet. *)
Definition awaiting_fix : State :=
  mkState true false STANDBY None 0 (mkGyro 0 0 0) 100.

(** Started, home registered at [austin], perimeter secure. *)
Definition secure_at_home : State :=
  mkState true false SECURE (Some austin) 0 (mkGyro 0 0 0) 100.

(** The phone held upright for six orientation samples, then laid flat
    for ninety-five. *)
Definition upright_then_flat : list Event :=
  repeat (deviceorientation (Some 0) (Some 90) (Some 0)) 6
  ++ repeat (deviceorientation (Some 0) (Some 0) (Some 0)) 95.

(** Three clips of 1.0 s, 0.5 s and 2.0 s, each scheduled at time 0. *)
Definition three_clips : list (number * number) :=
  [(0, 1); (0, 0.5); (0, 2)].

(** A stereo payload of two frames, (0.5, -0.5) and (0.25, -1), as
    little-endian 16-bit samples, and the buffer it decodes to. *)
Definition stereo_bytes : Audio.Uint8Array :=
  [0; 64; 0; 192; 0; 32; 0; 128]%Z.

Definition stereo_buffer : Audio.AudioBuffer :=
  Audio.mkAudioBuffer 2 2 24000 [[0.5; 0.25]; [-0.5; -1]].

(** A mono payload of two samples, 0.5 and -0.5, and its buffer. *)
Definition mono_bytes : Audio.Uint8Array := [0; 64; 0; 192]%Z.

Definition mono_buffer : Audio.AudioBuffer :=
  Audio.mkAudioBuffer 1 2 24000 [[0.5; -0.5]].

(** The first bytes of a JPEG frame, as [canvas.toBlob] hands them over. *)
Definition jpeg_frame : Audio.DOM_Blob :=
  Audio.mkDOM_Blob "image/jpeg" [255; 216; 255; 224]%Z.

(** The state after the first fix at [austin] and a fix about 110 ft
    north of it, without an AI client: the test is entered, no session. *)
Definition departed : State :=
  mkState true true TESTING (Some austin)
          (Geo.getDistanceFromLatLonInFeet (M := SmallAngle)
             home_lat home_lon north_lat home_lon)
          (mkGyro 0 0 0) 100.

(** A session that has been connected: test running, refs as [startTest]
    leaves them. *)
Definition testing : State :=
  mkState true true TESTING (Some austin) 0 (mkGyro 0 0 0) 100.

Definition connected : Refs :=
  mkRefs (Some (mkAudioContext 16000)) (Some 7%nat)
         (Some (mkGoogleGenAI "key")) (Some (mkLiveSession MODEL_NAME))
         0 None testing (Some testing).

(** The refs of a page on which React has rendered the state [s] and
    registered the watch of that render. *)
Definition watching (s : State) : Refs :=
  set_watch (set_rendered initialRefs s) (Some s).

(** Two fixes about 110 ft north of home, the second delivered before
    React has rendered the first one's updates: the system is started and
    its stream granted, the first fix at [austin] is rendered and its
    watch registered, then the two far fixes arrive back to back. *)
Definition two_far_fixes : list Event :=
  [click_initialize; render; effect; media_settled (Granted 7%nat);
   position home_lat home_lon; render; effect;
   position north_lat home_lon; position north_lat home_lon].

(** Two first fixes, the second delivered before React has rendered the
    home location the first one set. *)
Definition two_first_fixes : list Event :=
  [click_initialize; render; effect;
   position home_lat home_lon; position jitter_lat home_lon].

(** The point about 110 ft north of [austin]. *)
Definition north : Location := mkLocation north_lat home_lon.

(** A second first fix, at [north], delivered after React has rendered
    the home location [austin] of the first one and before the effect of
    that render has replaced the watch; the effect then registers the
    watch of the render, which holds [austin], while the state holds
    [north]. *)
Definition stale_home_fixes : list Event :=
  [click_initialize; render; effect; media_settled (Granted 7%nat);
   position home_lat home_lon; render;
   position north_lat home_lon; effect].

(** Stand-ins for a first quadrant: as [SmallAngle], with the magnitude
    of the quotient for [atan2], which is never negative. *)
Definition FirstQuadrant : MathImpl :=
  {| Math_sin := fun x => x;
     Math_cos := fun _ => 1;
     Math_atan2 := fun y x => abs (y / x) |}.

(** The state [upright_then_flat] ends in: not started, the last sample
    shown, the score at -1. *)
Definition flat_after_upright : State :=
  mkState false false STANDBY None 0 (mkGyro 0 0 0) (-1).

End Scenario.

(* ================================================================== *)
(** ** Facts of binary64 arithmetic

    Derived from the specification of the primitive operations
    ([FloatAxioms]) and the reference implementation [SpecFloat]. *)

Module IEEE.

Local Open Scope float_scope.

(** Classes of specification floats: zero or finite; NaN; not negative. *)
Definition SFfinite (x : spec_float) : bool :=
  match x with S754_zero _ | S754_finite _ _ _ => true | _ => false end.

Definition SFis_nan (x : spec_float) : bool :=
  match x with S754_nan => true | _ => false end.

Definition SFnonneg (x : spec_float) : bool :=
  match x with
  | S754_zero _ | S754_infinity false | S754_finite false _ _ => true
  | _ => false
  end.

(** The magnitude of a finite number [m * 2^e]: its value lies in
    [2^(mag-1), 2^mag). *)
Definition SFmag (x : spec_float) : Z :=
  match x with
  | S754_finite _ m e => (Zdigits2 (Zpos m) + e)%Z
  | _ => (-1074)%Z
  end.

(** A number whose sign bit is [s]: a zero, an infinity or a finite
    number of that sign. *)
Definition SFsigned (s : bool) (x : spec_float) : Prop :=
  x = S754_zero s \/ x = S754_infinity s \/
  exists m e, x = S754_finite s m e.

(** NaN or a number whose sign bit is clear. *)
Definition SFplus (x : spec_float) : bool :=
  match x with
  | S754_nan | S754_zero false | S754_infinity false
  | S754_finite false _ _ => true
  | _ => false
  end.

(** Not below zero: NaN, a zero of either sign, or a positive number. *)
Definition SFnot_neg (x : spec_float) : bool :=
  match x with
  | S754_infinity true | S754_finite true _ _ => false
  | _ => true
  end.

Definition SFnot_negzero (x : spec_float) : bool :=
  match x with S754_zero true => false | _ => true end.

(** *** Order and sign symmetry *)

Lemma SFcompare_antisym x y :
  SFcompare y x = option_map CompOpp (SFcompare x y).
Proof.
  destruct x as [sx|sx| |sx mx ex], y as [sy|sy| |sy my ey]; simpl;
    try reflexivity;
    try (destruct sx; reflexivity); try (destruct sy; reflexivity);
    try (destruct sx, sy; reflexivity).
  assert (H : forall a b, PosDef.Pos.compare_cont Eq a b
                          = CompOpp (PosDef.Pos.compare_cont Eq b a))
    by (intros a b; symmetry; apply (Pos.compare_cont_antisym b a Eq)).
  destruct sx, sy; simpl; try reflexivity;
    rewrite (Z.compare_antisym ex ey);
    destruct (ex ?= ey)%Z; simpl; try reflexivity;
    rewrite (H my mx); reflexivity.
Qed.


Lemma SFmul_comm x y : SF64mul x y = SF64mul y x.
Proof.
  destruct x as [sx|sx| |sx mx ex], y as [sy|sy| |sy my ey]; simpl;
    try reflexivity; try (rewrite xorb_comm; reflexivity).
  unfold SF64mul; simpl. rewrite xorb_comm, Pos.mul_comm, Z.add_comm. reflexivity.
Qed.

Lemma mul_comm x y : x * y = y * x.
Proof. apply Prim2SF_inj. rewrite !mul_spec. apply SFmul_comm. Qed.

Lemma binary_round_aux_opp s m e l :
  binary_round_aux prec emax (negb s) m e l = SFopp (binary_round_aux prec emax s m e l).
Proof.
  unfold binary_round_aux.
  destruct (shr_fexp prec emax m e l) as [mrs' e'].
  destruct (shr_fexp prec emax _ e' loc_Exact) as [mrs'' e''].
  destruct (shr_m mrs''); try reflexivity.
  destruct (e'' <=? emax - prec)%Z; reflexivity.
Qed.

Lemma SFmul_opp_l x y : SF64mul (SFopp x) y = SFopp (SF64mul x y).
Proof.
  destruct x as [sx|sx| |sx mx ex], y as [sy|sy| |sy my ey]; simpl;
    try reflexivity; try (destruct sx, sy; reflexivity).
  unfold SF64mul; simpl. rewrite <- binary_round_aux_opp. destruct sx, sy; reflexivity.
Qed.

Lemma mul_opp_l x y : (- x) * y = - (x * y).
Proof. apply Prim2SF_inj. rewrite opp_spec, !mul_spec, opp_spec. apply SFmul_opp_l. Qed.

Lemma mul_opp_r x y : x * (- y) = - (x * y).
Proof. rewrite mul_comm, mul_opp_l, mul_comm. reflexivity. Qed.

Lemma SFdiv_opp_l x y : SF64div (SFopp x) y = SFopp (SF64div x y).
Proof.
  destruct x as [sx|sx| |sx mx ex], y as [sy|sy| |sy my ey]; simpl;
    try reflexivity; try (destruct sx, sy; reflexivity).
  unfold SF64div; simpl.
  destruct (SFdiv_core_binary prec emax (Z.pos mx) ex (Z.pos my) ey) as [[mz ez] lz].
  rewrite <- binary_round_aux_opp. destruct sx, sy; reflexivity.
Qed.

Lemma div_opp_l x y : (- x) / y = - (x / y).
Proof. apply Prim2SF_inj. rewrite opp_spec, !div_spec, opp_spec. apply SFdiv_opp_l. Qed.

Lemma opp_involutive x : - - x = x.
Proof. apply Prim2SF_inj. rewrite !opp_spec. destruct (Prim2SF x); simpl; rewrite ?negb_involutive; reflexivity. Qed.

Lemma binary_normalize_opp m e :
  m <> 0%Z ->
  binary_normalize prec emax (- m) e false = SFopp (binary_normalize prec emax m e false).
Proof.
  destruct m; simpl; try congruence; intros _; unfold binary_round;
  destruct (shl_align _ _ _); apply (binary_round_aux_opp false) || (rewrite <- (binary_round_aux_opp true); reflexivity).
Qed.

Lemma SFsub_antisym x y :
  SF64sub y x = SFopp (SF64sub x y) \/
  (SF64sub x y = S754_zero false /\ SF64sub y x = S754_zero false).
Proof.
  destruct x as [sx|sx| |sx mx ex], y as [sy|sy| |sy my ey]; simpl;
    try (left; reflexivity);
    try (destruct sx, sy; simpl; (left; reflexivity) || (right; split; reflexivity)); 
    try (destruct sx; simpl; left; reflexivity).
  unfold SF64sub; simpl.
  rewrite (Z.min_comm ey ex).
  set (ez := Z.min ex ey).
  set (a := cond_Zopp sx _). set (b := cond_Zopp sy _).
  destruct (Z.eq_dec (a - b) 0) as [E|E].
  - right. replace (b - a)%Z with 0%Z by lia. rewrite E. split; reflexivity.
  - left. replace (b - a)%Z with (- (a - b))%Z by lia. apply binary_normalize_opp; assumption.
Qed.

Lemma sub_antisym x y :
  y - x = - (x - y) \/ (x - y = 0 /\ y - x = 0).
Proof.
  destruct (SFsub_antisym (Prim2SF x) (Prim2SF y)) as [H|[H1 H2]].
  - left. apply Prim2SF_inj. rewrite opp_spec, !sub_spec. exact H.
  - right. split; apply Prim2SF_inj; rewrite sub_spec; assumption.
Qed.

(** *** Classification *)

Lemma is_finite_spec x : is_finite x = SFfinite (Prim2SF x).
Proof.
  unfold is_finite, is_nan, is_infinity.
  rewrite !eqb_spec, abs_spec.
  destruct (Prim2SF x) as [s|s| |s m e]; try reflexivity.
  - destruct s; reflexivity.
  - unfold SFeqb; simpl. rewrite Z.compare_refl.
    assert (H : forall p, PosDef.Pos.compare_cont Eq p p = Eq)
      by (intro p; apply (Pos.compare_cont_refl p Eq)).
    rewrite H. change (Prim2SF infinity) with (S754_infinity false). simpl.
    destruct s; reflexivity.
Qed.

(** *** Subtracting a number from itself *)
Lemma SFsub_diag x : SFfinite x = true -> SF64sub x x = S754_zero false.
Proof.
  destruct x as [s|s| |s m e]; simpl; try discriminate; intros _.
  - destruct s; reflexivity.
  - unfold SF64sub; simpl. rewrite Z.sub_diag. reflexivity.
Qed.

Lemma sub_diag x : is_finite x = true -> x - x = 0.
Proof.
  rewrite is_finite_spec. intros H. apply Prim2SF_inj.
  rewrite sub_spec. apply SFsub_diag. assumption.
Qed.

(** *** Multiplication by zero *)
Lemma mul_zero_r x : is_finite x = true -> x * 0 = 0 \/ x * 0 = (-0).
Proof.
  rewrite is_finite_spec. intros H.
  assert (E : exists s, Prim2SF (x * 0) = S754_zero s).
  { rewrite mul_spec. change (Prim2SF 0) with (S754_zero false).
    destruct (Prim2SF x) as [s|s| |s m e]; simpl in *; try discriminate; eauto. }
  destruct E as [s E].
  rewrite <- (SF2Prim_Prim2SF (x * 0)), E. destruct s; [right|left]; reflexivity.
Qed.

(** *** Rounding without overflow *)

Local Open Scope Z_scope.

Lemma Zdigits2_nonneg z : 0 <= Zdigits2 z.
Proof. destruct z; simpl; lia. Qed.

Lemma Zdigits2_log2 p : Zdigits2 (Zpos p) = Z.log2 (Zpos p) + 1.
Proof.
  assert (H : forall q, digits2_pos q = Pos.size q)
    by (induction q; simpl; congruence).
  destruct p; simpl; rewrite ?H; lia.
Qed.

Lemma Zdigits2_le a b : 0 <= a <= b -> Zdigits2 a <= Zdigits2 b.
Proof.
  intros [Ha Hab]. destruct a as [|p|p]; [apply Zdigits2_nonneg| |lia].
  destruct b as [|q|q]; try lia.
  rewrite !Zdigits2_log2. apply Z.add_le_mono_r, Z.log2_le_mono. assumption.
Qed.

Lemma Zdigits2_succ a : 0 <= a -> Zdigits2 (a + 1) <= Zdigits2 a + 1.
Proof.
  intros Ha. destruct a as [|p|p]; [simpl; lia| |lia].
  change (Z.pos p + 1) with (Z.succ (Z.pos p)).
  assert (E : Z.succ (Z.pos p) = Z.pos (Pos.succ p)) by lia.
  rewrite E, !Zdigits2_log2, <- E.
  pose proof (Z.log2_succ_le (Z.pos p)). lia.
Qed.

Lemma Zdigits2_mul p q :
  Zdigits2 (Zpos (p * q)) <= Zdigits2 (Zpos p) + Zdigits2 (Zpos q).
Proof.
  rewrite !Zdigits2_log2, Pos2Z.inj_mul.
  pose proof (Z.log2_mul_above (Zpos p) (Zpos q)). lia.
Qed.

Lemma shr_1_bounds mrs :
  0 <= shr_m mrs ->
  0 <= shr_m (shr_1 mrs) /\
  Zdigits2 (shr_m (shr_1 mrs)) <= Z.max 0 (Zdigits2 (shr_m mrs) - 1).
Proof.
  destruct mrs as [m r s].
  destruct m as [|[p|p|]|p]; cbn [shr_1 shr_m Zdigits2 digits2_pos];
    intros Hm; try lia;
    change (PosDef.Pos.succ (digits2_pos p)) with (Pos.succ (digits2_pos p));
    rewrite Pos2Z.inj_succ; lia.
Qed.

Lemma iter_shr_1_bounds n : forall mrs,
  0 <= shr_m mrs ->
  0 <= shr_m (iter_pos shr_1 n mrs) /\
  Zdigits2 (shr_m (iter_pos shr_1 n mrs))
    <= Z.max 0 (Zdigits2 (shr_m mrs) - Zpos n).
Proof.
  induction n as [n IH|n IH|]; intros mrs Hm; simpl.
  - destruct (shr_1_bounds mrs Hm) as [H1 H1'].
    destruct (IH _ H1) as [H2 H2'].
    destruct (IH _ H2) as [H3 H3']. split; [assumption|lia].
  - destruct (IH _ Hm) as [H2 H2'].
    destruct (IH _ H2) as [H3 H3']. split; [assumption|lia].
  - apply shr_1_bounds; assumption.
Qed.

Lemma shr_bounds mrs e n :
  0 <= shr_m mrs ->
  let '(mrs', e') := shr mrs e n in
  0 <= shr_m mrs' /\
  ((n <= 0 /\ mrs' = mrs /\ e' = e) \/
   (0 < n /\ e' = e + n /\
    Zdigits2 (shr_m mrs') <= Z.max 0 (Zdigits2 (shr_m mrs) - n))).
Proof.
  intros Hm. destruct n as [|p|p]; simpl.
  - split; [assumption|left; repeat split; lia].
  - destruct (iter_shr_1_bounds p mrs Hm). split; [assumption|right].
    repeat split; try lia.
  - split; [assumption|left; repeat split; lia].
Qed.

Lemma round_nearest_even_bounds m l :
  0 <= m -> m <= round_nearest_even m l <= m + 1.
Proof.
  intros Hm. destruct l as [|[]]; simpl; try lia.
  destruct (Z.even m); lia.
Qed.

Lemma shr_m_of_loc m l : shr_m (shr_record_of_loc m l) = m.
Proof. destruct l as [|[]]; reflexivity. Qed.

Lemma binary_round_aux_finite s m e l :
  Zdigits2 (Zpos m) + e <= 1023 -> e <= 971 ->
  SFfinite (binary_round_aux prec emax s (Zpos m) e l) = true.
Proof.
  intros Hd He. unfold binary_round_aux, shr_fexp.
  set (d := Zdigits2 (Zpos m)) in *.
  assert (Hd1 : 1 <= d) by (unfold d; simpl; lia).
  pose proof (shr_bounds (shr_record_of_loc (Zpos m) l) e
                (fexp prec emax (d + e) - e)) as H1.
  rewrite shr_m_of_loc in H1. specialize (H1 ltac:(lia)).
  destruct (shr _ e _) as [mrs' e']. destruct H1 as [H1 H1'].
  set (m2 := round_nearest_even (shr_m mrs') (loc_of_shr_record mrs')).
  pose proof (round_nearest_even_bounds (shr_m mrs') (loc_of_shr_record mrs') H1) as Hr.
  fold m2 in Hr.
  assert (Hm2 : Zdigits2 m2 <= Zdigits2 (shr_m mrs') + 1).
  { etransitivity; [apply Zdigits2_le; split; [|apply Hr]; lia|].
    apply Zdigits2_succ; assumption. }
  pose proof (shr_bounds (shr_record_of_loc m2 loc_Exact) e'
                (fexp prec emax (Zdigits2 m2 + e') - e')) as H2.
  rewrite shr_m_of_loc in H2. specialize (H2 ltac:(lia)).
  destruct (shr _ e' _) as [mrs'' e'']. destruct H2 as [H2 H2'].
  assert (Hfexp : forall k, fexp prec emax k = Z.max (k - 53) (-1074))
    by reflexivity.
  rewrite !Hfexp in *.
  assert (He'' : e'' <= 971).
  { pose proof (Zdigits2_nonneg (shr_m mrs')).
    destruct H1' as [(Hn & -> & ->)|(Hn & -> & Hdig)];
      rewrite ?shr_m_of_loc in *; fold d in Hm2; fold d in Hdig || idtac;
      destruct H2' as [(Hn2 & _ & ->)|(Hn2 & -> & _)]; lia. }
  destruct (shr_m mrs'') as [|p|p]; [reflexivity| |lia].
  change (emax - prec) with 971.
  destruct (Z.leb_spec e'' 971); [reflexivity|lia].
Qed.

(** *** Validity and magnitude *)
Lemma valid_finite s m e :
  valid_binary (S754_finite s m e) = true ->
  e = Z.max (Zdigits2 (Zpos m) + e - 53) (-1074) /\ e <= 971.
Proof.
  unfold SpecFloat.valid_binary, bounded, canonical_mantissa.
  rewrite andb_true_iff, Z.eqb_eq, Z.leb_le.
  change (emax - prec) with 971.
  change (fexp prec emax (Z.pos (digits2_pos m) + e))
    with (Z.max (Zdigits2 (Zpos m) + e - 53) (-1074)).
  intros [H1 H2]. split; [symmetry; exact H1|exact H2].
Qed.

Lemma SFmul_finite x y :
  valid_binary x = true -> valid_binary y = true ->
  SFfinite x = true -> SFfinite y = true ->
  SFmag x + SFmag y <= 1023 ->
  SFfinite (SF64mul x y) = true.
Proof.
  destruct x as [sx|sx| |sx mx ex], y as [sy|sy| |sy my ey];
    try discriminate; try reflexivity.
  intros Vx Vy _ _. unfold SFmag. intros Hmag.
  apply valid_finite in Vx, Vy.
  pose proof (Zdigits2_mul mx my).
  unfold SF64mul; cbn [SFmul].
  apply binary_round_aux_finite; lia.
Qed.

Lemma mul_finite x y :
  is_finite x = true -> is_finite y = true ->
  SFmag (Prim2SF x) + SFmag (Prim2SF y) <= 1023 ->
  is_finite (x * y)%float = true.
Proof.
  rewrite !is_finite_spec, mul_spec.
  intros; apply SFmul_finite; auto using Prim2SF_valid.
Qed.

Lemma Prim2SF_1 : Prim2SF 1 = S754_finite false 4503599627370496 (-52).
Proof. vm_compute. reflexivity. Qed.

(** |x| <= 1 bounds the magnitude by 1. *)
Lemma abs_le_1_mag x :
  (abs x <=? 1)%float = true ->
  is_finite x = true /\ SFmag (Prim2SF x) <= 1.
Proof.
  rewrite leb_spec, abs_spec, is_finite_spec, Prim2SF_1.
  pose proof (Prim2SF_valid x) as V.
  destruct (Prim2SF x) as [s|s| |s m e]; cbn [SFabs SFfinite SFmag];
    unfold SFleb, SFcompare; try discriminate;
    try (intros _; split; [reflexivity|lia]).
  apply valid_finite in V.
  destruct (Z.compare_spec e (-52)); try discriminate;
    intros _; (split; [reflexivity|lia]).
Qed.

(** *** The order: reflexivity, totality, transitivity, [Math.max] *)

Local Close Scope Z_scope.

Lemma SFcompare_refl x : SFis_nan x = false -> SFcompare x x = Some Eq.
Proof.
  destruct x as [s|s| |s m e]; try discriminate; intros _; cbn [SFcompare];
    try (destruct s; reflexivity).
  assert (H : PosDef.Pos.compare_cont Eq m m = Eq)
    by apply (Pos.compare_cont_refl m Eq).
  rewrite Z.compare_refl, H. destruct s; reflexivity.
Qed.

Lemma is_nan_spec x : is_nan x = SFis_nan (Prim2SF x).
Proof.
  unfold is_nan. rewrite eqb_spec. unfold SFeqb.
  destruct (Prim2SF x) as [s|s| |s m e] eqn:E; try reflexivity;
    rewrite SFcompare_refl; reflexivity.
Qed.

Lemma SFcompare_total x y :
  SFis_nan x = false -> SFis_nan y = false ->
  exists c, SFcompare x y = Some c.
Proof.
  destruct x as [sx|sx| |sx mx ex], y as [sy|sy| |sy my ey];
    try discriminate; intros _ _; cbn [SFcompare]; eauto.
Qed.

Lemma leb_refl x : is_nan x = false -> (x <=? x) = true.
Proof.
  rewrite is_nan_spec, leb_spec. unfold SFleb. intros H.
  rewrite SFcompare_refl; trivial.
Qed.

Lemma leb_nan_r x y : (x <=? y) = true -> is_nan y = false.
Proof.
  rewrite is_nan_spec, leb_spec. unfold SFleb.
  destruct (Prim2SF x), (Prim2SF y); trivial; discriminate.
Qed.

Lemma ltb_leb x y : (x <? y) = true -> (x <=? y) = true.
Proof.
  rewrite ltb_spec, leb_spec. unfold SFltb, SFleb.
  destruct (SFcompare _ _) as [[]|]; congruence.
Qed.

Lemma not_ltb_leb x y :
  is_nan x = false -> is_nan y = false ->
  (x <? y) = false -> (y <=? x) = true.
Proof.
  rewrite !is_nan_spec, ltb_spec, leb_spec. unfold SFltb, SFleb.
  intros Hx Hy. rewrite (SFcompare_antisym (Prim2SF x) (Prim2SF y)).
  destruct (SFcompare_total _ _ Hx Hy) as [c ->]. destruct c; cbn; congruence.
Qed.

Lemma Math_max_cases a b :
  is_nan a = false -> is_nan b = false ->
  (Math_max a b = a /\ (b <=? a) = true) \/
  (Math_max a b = b /\ (a <=? b) = true).
Proof.
  intros Ha Hb. unfold Math_max. rewrite Ha, Hb. cbn [orb].
  destruct (a <? b) eqn:Hab.
  - right. split; [reflexivity|apply ltb_leb; assumption].
  - destruct (b <? a) eqn:Hba.
    + left. split; [reflexivity|apply ltb_leb; assumption].
    + destruct (is_zero a && get_sign a).
      * right. split; [reflexivity|apply not_ltb_leb; assumption].
      * left. split; [reflexivity|apply not_ltb_leb; assumption].
Qed.

(* transitivity *)
Lemma SFcompare_trans_le x y z :
  SFleb x y = true -> SFleb y z = true -> SFleb x z = true.
Proof.
  unfold SFleb.
  destruct x as [sx|sx| |sx mx ex], y as [sy|sy| |sy my ey],
           z as [sz|sz| |sz mz ez]; cbn [SFcompare];
    try discriminate; try reflexivity;
    try (destruct sx, sy, sz; (discriminate || reflexivity)).
  all: try (destruct sx, sy; (discriminate || reflexivity)).
  all: try (destruct sx, sz; (discriminate || reflexivity)).
  all: try (destruct sy, sz; (discriminate || reflexivity)).
  all: try (destruct sx; (discriminate || reflexivity)).
  all: try (destruct sy; (discriminate || reflexivity)).
  all: try (destruct sz; (discriminate || reflexivity)).
  destruct sx, sy, sz; try discriminate; try reflexivity;
    repeat match goal with
           | |- context [PosDef.Pos.compare_cont Eq ?p ?q] =>
               change (PosDef.Pos.compare_cont Eq p q) with (Pos.compare p q)
           end;
    destruct (Z.compare_spec ex ey), (Z.compare_spec ey ez),
             (Z.compare_spec ex ez); try discriminate; try reflexivity;
    try lia; subst;
    destruct (Pos.compare_spec mx my), (Pos.compare_spec my mz),
             (Pos.compare_spec mx mz); cbn; try discriminate;
      try reflexivity; try lia.
Qed.

Lemma leb_trans x y z :
  (x <=? y) = true -> (y <=? z) = true -> (x <=? z) = true.
Proof. rewrite !leb_spec. apply SFcompare_trans_le. Qed.

(** *** Addition of non-negative numbers is monotone *)

Local Open Scope Z_scope.

Lemma shr_1_div2 mrs : 0 <= shr_m mrs -> shr_m (shr_1 mrs) = shr_m mrs / 2.
Proof.
  destruct mrs as [m r s]. cbn [shr_m]. intros Hm. rewrite <- Z.div2_div.
  destruct m as [|[p|p|]|p]; try reflexivity; lia.
Qed.

Lemma iter_shr_1_div n : forall mrs,
  0 <= shr_m mrs ->
  shr_m (iter_pos shr_1 n mrs) = shr_m mrs / 2 ^ Zpos n.
Proof.
  induction n as [n IH|n IH|]; intros mrs Hm; cbn [iter_pos].
  - assert (H1 : 0 <= shr_m (shr_1 mrs))
      by (rewrite shr_1_div2 by assumption; apply Z.div_pos; lia).
    assert (H2 : 0 <= shr_m (iter_pos shr_1 n (shr_1 mrs)))
      by (rewrite IH by assumption; apply Z.div_pos; lia).
    rewrite IH, IH, shr_1_div2 by assumption.
    rewrite !Z.div_div by lia. f_equal.
    rewrite (Pos2Z.inj_xI n).
    replace (2 * Z.pos n + 1) with (1 + Z.pos n + Z.pos n) by lia.
    rewrite !Z.pow_add_r by lia. change (2 ^ 1) with 2. lia.
  - assert (H2 : 0 <= shr_m (iter_pos shr_1 n mrs))
      by (rewrite IH by assumption; apply Z.div_pos; lia).
    rewrite IH, IH by assumption.
    rewrite !Z.div_div by lia. f_equal.
    rewrite (Pos2Z.inj_xO n).
    replace (2 * Z.pos n) with (Z.pos n + Z.pos n) by lia.
    rewrite !Z.pow_add_r by lia. lia.
  - rewrite shr_1_div2 by assumption. reflexivity.
Qed.

(** What [shr] returns on a non-negative mantissa: the exponent moves up by
    [max 0 n] and the mantissa is divided by that power of two. *)
Lemma shr_exact mrs e n :
  0 <= shr_m mrs ->
  snd (shr mrs e n) = e + Z.max 0 n /\
  shr_m (fst (shr mrs e n)) = shr_m mrs / 2 ^ Z.max 0 n /\
  (n <= 0 -> fst (shr mrs e n) = mrs).
Proof.
  intros Hm. destruct n as [|p|p]; cbn [shr fst snd].
  - rewrite Z.div_1_r. repeat split; lia.
  - rewrite iter_shr_1_div by assumption. repeat split; lia.
  - rewrite Z.div_1_r. repeat split; lia.
Qed.

Lemma Zdigits2_pos z : 0 < z -> Zdigits2 z = Z.log2 z + 1.
Proof. destruct z; try lia. intros _. apply Zdigits2_log2. Qed.

Lemma Zdigits2_mul_pow2 m k :
  0 <= k -> Zdigits2 (Zpos m * 2 ^ k) = Zdigits2 (Zpos m) + k.
Proof.
  intros Hk. assert (0 < 2 ^ k) by (apply Z.pow_pos_nonneg; lia).
  rewrite !Zdigits2_pos by nia. rewrite Z.log2_mul_pow2 by lia. lia.
Qed.

Lemma div_pow2_pos m n : 0 < m -> 0 <= n <= Z.log2 m -> 0 < m / 2 ^ n.
Proof.
  intros Hm Hn. apply Z.div_str_pos. split.
  - apply Z.pow_pos_nonneg; lia.
  - transitivity (2 ^ Z.log2 m).
    + apply Z.pow_le_mono_r; lia.
    + apply Z.log2_spec. assumption.
Qed.

Lemma fexp_64 k : fexp prec emax k = Z.max (k - 53) (-1074).
Proof. reflexivity. Qed.

(** Rounding a sum that is at least a canonical number [ma * 2^ea] gives
    at least that number. *)
Lemma binary_round_aux_ge ma ea M ez :
  ea = Z.max (Zdigits2 (Zpos ma) + ea - 53) (-1074) ->
  -1074 <= ez <= ea ->
  Zpos ma * 2 ^ (ea - ez) <= Zpos M ->
  SFleb (S754_finite false ma ea)
        (binary_round_aux prec emax false (Zpos M) ez loc_Exact) = true.
Proof.
  intros Hcan Hez HM.
  assert (Hd : Zdigits2 (Zpos ma) + (ea - ez) <= Zdigits2 (Zpos M)).
  { rewrite <- Zdigits2_mul_pow2 by lia. apply Zdigits2_le.
    assert (0 < 2 ^ (ea - ez)) by (apply Z.pow_pos_nonneg; lia). nia. }
  pose proof (Zdigits2_pos (Zpos M) ltac:(lia)) as HdM.
  unfold binary_round_aux, shr_fexp. cbn [shr_record_of_loc].
  rewrite fexp_64.
  remember (Zdigits2 (Zpos M)) as dM eqn:EdM.
  remember (Z.max (dM + ez - 53) (-1074) - ez) as n eqn:En.
  destruct (shr_exact {| shr_m := Zpos M; shr_r := false; shr_s := false |}
              ez n ltac:(cbn; lia)) as (He' & Hm1 & _).
  destruct (shr _ ez n) as [mrs' e']. cbn [fst snd shr_m] in He', Hm1.
  rewrite fexp_64.
  assert (Hm1pos : 0 < shr_m mrs').
  { rewrite Hm1. pose proof (Z.log2_nonneg (Zpos M)).
    apply div_pow2_pos; lia. }
  remember (round_nearest_even (shr_m mrs') (loc_of_shr_record mrs'))
    as m2 eqn:Em2.
  pose proof (round_nearest_even_bounds (shr_m mrs')
                (loc_of_shr_record mrs') ltac:(lia)) as Hm2.
  rewrite <- Em2 in Hm2.
  pose proof (Zdigits2_pos m2 ltac:(lia)) as Hd2.
  remember (Z.max (Zdigits2 m2 + e' - 53) (-1074) - e') as n2 eqn:En2.
  destruct (shr_exact {| shr_m := m2; shr_r := false; shr_s := false |}
              e' n2 ltac:(cbn; lia)) as (He'' & Hm3 & _).
  destruct (shr _ e' n2) as [mrs'' e'']. cbn [fst snd shr_m] in He'', Hm3.
  assert (Hm3pos : 0 < shr_m mrs'').
  { rewrite Hm3. apply div_pow2_pos; [lia|].
    pose proof (Z.log2_nonneg m2). lia. }
  destruct (shr_m mrs'') as [|p|p] eqn:Ep; try lia.
  change (emax - prec) with 971.
  destruct (e'' <=? 971); [|reflexivity].
  unfold SFleb, SFcompare.
  destruct (Z.compare_spec ea e'') as [Heq|Hlt|Hgt]; [|reflexivity|lia].
  assert (Hn2 : Z.max 0 n2 = 0) by lia.
  assert (Hn : Z.max 0 n = ea - ez) by lia.
  rewrite Hn2, Z.div_1_r in Hm3. rewrite Hn in Hm1.
  assert (Zpos ma <= shr_m mrs').
  { rewrite Hm1. apply Z.div_le_lower_bound; [apply Z.pow_pos_nonneg|]; lia. }
  change (PosDef.Pos.compare_cont Eq ma p) with (Pos.compare ma p).
  destruct (Pos.compare_spec ma p); try reflexivity. lia.
Qed.

Lemma iter_xO m d : Zpos (Pos.iter xO m d) = Zpos m * 2 ^ Zpos d.
Proof.
  revert d. apply Pos.peano_ind.
  - cbn [Pos.iter]. rewrite Pos2Z.inj_xO. change (2 ^ 1) with 2. lia.
  - intros d IH. rewrite Pos.iter_succ, Pos2Z.inj_xO, IH, Pos2Z.inj_succ.
    rewrite Z.pow_succ_r by lia. lia.
Qed.

Lemma shl_align_spec m e e' :
  e' <= e -> Zpos (fst (shl_align m e e')) = Zpos m * 2 ^ (e - e').
Proof.
  intros He. unfold shl_align.
  destruct (e' - e) as [|d|d] eqn:Ed; cbn [fst]; try lia.
  - replace (e - e') with 0 by lia. lia.
  - change (PosDef.Pos.iter xO m d) with (Pos.iter xO m d).
    rewrite iter_xO. f_equal. f_equal. lia.
Qed.

Lemma shl_align_ge m e e' : e <= e' -> shl_align m e e' = (m, e).
Proof.
  intros He. unfold shl_align.
  destruct (e' - e) as [|d|d] eqn:Ed; try reflexivity. lia.
Qed.

Lemma SFadd_finite_ge_l ma ea mb eb :
  valid_binary (S754_finite false ma ea) = true ->
  valid_binary (S754_finite false mb eb) = true ->
  SFleb (S754_finite false ma ea)
        (SF64add (S754_finite false ma ea) (S754_finite false mb eb)) = true.
Proof.
  intros Va Vb. apply valid_finite in Va, Vb.
  destruct Va as [Ca _], Vb as [Cb _].
  unfold SF64add, SFadd. cbn [cond_Zopp].
  assert (Hez : -1074 <= Z.min ea eb <= ea) by lia.
  remember (Z.min ea eb) as ez eqn:Eez.
  pose proof (shl_align_spec ma ea ez ltac:(lia)) as HA.
  remember (fst (shl_align ma ea ez)) as MA eqn:EMA.
  remember (fst (shl_align mb eb ez)) as MB eqn:EMB.
  change (Z.pos MA + Z.pos MB) with (Z.pos (MA + MB)).
  cbn [binary_normalize]. unfold binary_round.
  assert (HM : Zpos ma * 2 ^ (ea - ez) <= Zpos (MA + MB)) by lia.
  assert (Hd : Zdigits2 (Zpos ma) + (ea - ez) <= Zdigits2 (Zpos (MA + MB))).
  { rewrite <- Zdigits2_mul_pow2 by lia. apply Zdigits2_le.
    assert (0 < 2 ^ (ea - ez)) by (apply Z.pow_pos_nonneg; lia). nia. }
  rewrite shl_align_ge.
  - apply binary_round_aux_ge; assumption.
  - rewrite fexp_64.
    change (Z.pos (digits2_pos (MA + MB))) with (Zdigits2 (Zpos (MA + MB))).
    lia.
Qed.

Lemma SFleb_zero x : SFleb (S754_zero false) x = SFnonneg x.
Proof. destruct x as [s|[]| |[] m e]; reflexivity. Qed.

Lemma SFadd_ge_l x y :
  valid_binary x = true -> valid_binary y = true ->
  SFnonneg x = true -> SFnonneg y = true ->
  SFleb x (SF64add x y) = true.
Proof.
  intros Vx Vy.
  destruct x as [sx|[]| |[] mx ex]; try discriminate;
    destruct y as [sy|[]| |[] my ey]; try discriminate; intros _ _;
    try reflexivity; try (destruct sx, sy; reflexivity).
  - unfold SF64add, SFadd, SFleb. rewrite SFcompare_refl; reflexivity.
  - apply SFadd_finite_ge_l; assumption.
Qed.

Local Close Scope Z_scope.

Lemma Prim2SF_0 : Prim2SF 0 = S754_zero false.
Proof. reflexivity. Qed.

Lemma nonneg_spec x : (0 <=? x) = SFnonneg (Prim2SF x).
Proof. rewrite leb_spec, Prim2SF_0. apply SFleb_zero. Qed.

(** Adding a non-negative number never decreases a non-negative number. *)
Lemma add_ge_l x y :
  (0 <=? x) = true -> (0 <=? y) = true -> (x <=? x + y) = true.
Proof.
  rewrite !nonneg_spec, leb_spec, add_spec.
  apply SFadd_ge_l; apply Prim2SF_valid.
Qed.

(** *** Rounding keeps the sign and lands in the format *)

Local Open Scope Z_scope.

Lemma binary_round_aux_signed s m e l :
  0 <= m -> SFsigned s (binary_round_aux prec emax s m e l).
Proof.
  intros Hm. unfold binary_round_aux, shr_fexp.
  pose proof (shr_bounds (shr_record_of_loc m l) e
                (fexp prec emax (Zdigits2 m + e) - e)) as H1.
  rewrite shr_m_of_loc in H1. specialize (H1 Hm).
  destruct (shr _ e _) as [mrs' e']. destruct H1 as [H1 _].
  pose proof (round_nearest_even_bounds (shr_m mrs')
                (loc_of_shr_record mrs') H1) as Hr.
  set (m2 := round_nearest_even (shr_m mrs') (loc_of_shr_record mrs')) in *.
  pose proof (shr_bounds (shr_record_of_loc m2 loc_Exact) e'
                (fexp prec emax (Zdigits2 m2 + e') - e')) as H2.
  rewrite shr_m_of_loc in H2. specialize (H2 ltac:(lia)).
  destruct (shr _ e' _) as [mrs'' e'']. destruct H2 as [H2 _].
  destruct (shr_m mrs'') as [|p|p]; [left; reflexivity| |lia].
  destruct (e'' <=? emax - prec); [right; right; eauto|right; left; reflexivity].
Qed.

Lemma Zdigits2_lt_pow2 q k :
  0 <= k -> Zpos q < 2 ^ k -> Zdigits2 (Zpos q) <= k.
Proof.
  intros Hk H. rewrite Zdigits2_log2.
  apply Z.log2_lt_pow2 in H; lia.
Qed.

Lemma Zdigits2_ge_pow2 q k :
  0 <= k -> 2 ^ k <= Zpos q -> k + 1 <= Zdigits2 (Zpos q).
Proof.
  intros Hk H. rewrite Zdigits2_log2.
  apply Z.log2_le_pow2 in H; lia.
Qed.

(** Rounding a magnitude that has at least the digits of the format gives
    a number of the format. *)
Lemma binary_round_aux_valid s m e l :
  e <= fexp prec emax (Zdigits2 (Zpos m) + e) ->
  valid_binary (binary_round_aux prec emax s (Zpos m) e l) = true.
Proof.
  rewrite fexp_64. intros Hn.
  unfold binary_round_aux, shr_fexp. rewrite fexp_64.
  remember (Zdigits2 (Zpos m)) as d eqn:Ed.
  remember (Z.max (d + e - 53) (-1074)) as E eqn:EE.
  destruct (shr_exact (shr_record_of_loc (Zpos m) l) e (E - e))
    as (He' & Hm' & _); [rewrite shr_m_of_loc; lia|].
  rewrite shr_m_of_loc in Hm'.
  destruct (shr (shr_record_of_loc (Zpos m) l) e (E - e)) as [mrs' e'].
  cbn [fst snd] in He', Hm'.
  replace (e + Z.max 0 (E - e)) with E in He' by lia. subst e'.
  rewrite fexp_64.
  replace (Z.max 0 (E - e)) with (E - e) in Hm' by lia.
  assert (Hpow : 0 < 2 ^ (E - e)) by (apply Z.pow_pos_nonneg; lia).
  assert (Hd : 1 <= d) by (subst d; cbn; lia).
  assert (Hlog : 2 ^ (d - 1) <= Zpos m < 2 ^ d).
  { subst d. rewrite Zdigits2_log2.
    pose proof (Z.log2_spec (Zpos m) ltac:(lia)) as [L1 L2].
    replace (Z.log2 (Z.pos m) + 1 - 1) with (Z.log2 (Z.pos m)) by lia.
    replace (Z.log2 (Z.pos m) + 1) with (Z.succ (Z.log2 (Z.pos m))) by lia.
    split; assumption. }
  assert (Hlt : shr_m mrs' < 2 ^ 53).
  { rewrite Hm'. apply Z.div_lt_upper_bound; [lia|].
    rewrite <- Z.pow_add_r by lia.
    eapply Z.lt_le_trans; [apply Hlog|]. apply Z.pow_le_mono_r; lia. }
  assert (Hge : -1074 < E -> 2 ^ 52 <= shr_m mrs').
  { intros HE. rewrite Hm'. apply Z.div_le_lower_bound; [lia|].
    rewrite <- Z.pow_add_r by lia.
    eapply Z.le_trans; [|apply Hlog]. apply Z.pow_le_mono_r; lia. }
  assert (H0 : 0 <= shr_m mrs') by (rewrite Hm'; apply Z.div_pos; lia).
  pose proof (round_nearest_even_bounds (shr_m mrs')
                (loc_of_shr_record mrs') H0) as Hr.
  remember (round_nearest_even (shr_m mrs') (loc_of_shr_record mrs'))
    as m1 eqn:Em1.
  destruct (Z.eq_dec m1 (2 ^ 53)) as [Hbig|Hsmall].
  - (* the mantissa was rounded up to 2^53: one more shift *)
    rewrite Hbig.
    change (Zdigits2 (2 ^ 53)) with 54.
    replace (Z.max (54 + E - 53) (-1074) - E) with 1 by lia.
    cbn [shr shr_record_of_loc iter_pos].
    change (shr_1 {| shr_m := 2 ^ 53; shr_r := false; shr_s := false |})
      with {| shr_m := 2 ^ 52; shr_r := false; shr_s := false |}.
    cbn [shr_m]. change (2 ^ 52) with (Zpos 4503599627370496).
    cbv iota. change (emax - prec) with 971.
    destruct (Z.leb_spec (E + 1) 971); [|reflexivity].
    unfold SpecFloat.valid_binary, bounded, canonical_mantissa.
    change (emax - prec) with 971.
    change (Z.pos (digits2_pos 4503599627370496)) with 53.
    rewrite fexp_64.
    apply andb_true_intro. split; [apply Z.eqb_eq|apply Z.leb_le]; lia.
  - assert (Hm1 : 0 <= m1 < 2 ^ 53) by lia.
    destruct m1 as [|q|q]; [| |lia].
    + change (Zdigits2 0) with 0.
      destruct (Z.max (0 + E - 53) (-1074) - E) as [|p|p] eqn:Ez;
        [reflexivity|lia|reflexivity].
    + assert (Hdq : Zdigits2 (Zpos q) <= 53)
        by (apply Zdigits2_lt_pow2; lia).
      assert (Hdq' : -1074 < E -> 53 <= Zdigits2 (Zpos q)).
      { intros HE. apply (Zdigits2_ge_pow2 q 52); [lia|].
        specialize (Hge HE). lia. }
      replace (Z.max (Zdigits2 (Zpos q) + E - 53) (-1074) - E) with 0 by lia.
      cbn [shr shr_record_of_loc shr_m]. cbv iota.
      change (emax - prec) with 971.
      destruct (Z.leb_spec E 971); [|reflexivity].
      unfold SpecFloat.valid_binary, bounded, canonical_mantissa.
      change (emax - prec) with 971.
      change (Z.pos (digits2_pos q)) with (Zdigits2 (Zpos q)).
      rewrite fexp_64.
      apply andb_true_intro. split; [apply Z.eqb_eq|apply Z.leb_le]; lia.
Qed.

Lemma binary_round_valid s m e :
  valid_binary (binary_round prec emax s m e) = true /\
  SFsigned s (binary_round prec emax s m e).
Proof.
  unfold binary_round. rewrite fexp_64.
  change (Z.pos (digits2_pos m)) with (Zdigits2 (Zpos m)).
  remember (Z.max (Zdigits2 (Zpos m) + e - 53) (-1074)) as E eqn:EE.
  destruct (Z_le_gt_dec e E) as [Hle|Hgt].
  - rewrite shl_align_ge by assumption. split.
    + apply binary_round_aux_valid. rewrite fexp_64. lia.
    + apply binary_round_aux_signed. lia.
  - pose proof (shl_align_spec m e E ltac:(lia)) as Hs.
    assert (He : snd (shl_align m e E) = E).
    { unfold shl_align. destruct (E - e) eqn:D; try lia. reflexivity. }
    destruct (shl_align m e E) as [mz ez]. cbn [fst snd] in Hs, He. subst ez.
    split; [|apply binary_round_aux_signed; lia].
    apply binary_round_aux_valid. rewrite fexp_64, Hs.
    rewrite Zdigits2_mul_pow2 by lia. lia.
Qed.

(** The number of a non-negative integer is not negative. *)
Lemma of_Z_nonneg z : 0 <= z -> (0 <=? of_Z z)%float = true.
Proof.
  intros Hz. rewrite nonneg_spec. destruct z as [|p|p]; [reflexivity| |lia].
  unfold of_Z. destruct (binary_round_valid false p 0) as [V S].
  unfold binary_normalize. rewrite Prim2SF_SF2Prim by exact V.
  destruct S as [-> | [-> | (m & e & ->)]]; reflexivity.
Qed.

Lemma SFdiv_core_nonneg m1 e1 m2 e2 :
  0 <= fst (fst (SFdiv_core_binary prec emax (Zpos m1) e1 (Zpos m2) e2)).
Proof.
  unfold SFdiv_core_binary.
  set (s := _ - _ - Z.min _ _).
  set (m' := match s with Z.pos _ => Z.shiftl (Zpos m1) s | 0 => Zpos m1
                        | Z.neg _ => 0 end).
  assert (Hm' : 0 <= m').
  { unfold m'. destruct s; try lia. apply Z.shiftl_nonneg. lia. }
  pose proof (Z_div_mod m' (Zpos m2) ltac:(lia)) as H.
  destruct (Z.div_eucl m' (Zpos m2)) as [q r]. cbn [fst].
  destruct H as [H1 H2]. nia.
Qed.

(** A non-negative number divided by a positive finite one is not
    negative. *)
Lemma div_nonneg x y :
  (0 <=? x)%float = true -> (0 <? y)%float = true -> is_finite y = true ->
  (0 <=? x / y)%float = true.
Proof.
  rewrite !nonneg_spec, is_finite_spec, ltb_spec, div_spec, Prim2SF_0.
  destruct (Prim2SF x) as [sx|[]| |[] mx ex]; try discriminate;
    destruct (Prim2SF y) as [sy|sy| |[] my ey]; try discriminate;
    intros _ _ _; try reflexivity.
  unfold SF64div, SFdiv.
  pose proof (SFdiv_core_nonneg mx ex my ey) as H.
  destruct (SFdiv_core_binary prec emax (Zpos mx) ex (Zpos my) ey)
    as [[mz ez] lz]. cbn [fst] in H. cbn [xorb].
  destruct (binary_round_aux_signed false mz ez lz H)
    as [-> | [-> | (m & e & ->)]]; reflexivity.
Qed.

(** *** Signs of products, sums and square roots *)

Lemma ltb_zero_spec x : (x <? 0)%float = negb (SFnot_neg (Prim2SF x)).
Proof.
  rewrite ltb_spec, Prim2SF_0.
  destruct (Prim2SF x) as [s|[]| |[] m e]; reflexivity.
Qed.

Lemma get_sign_spec x : get_sign x = negb (SFplus (Prim2SF x)).
Proof.
  unfold get_sign, is_zero. rewrite eqb_spec.
  change (Prim2SF zero) with (S754_zero false).
  destruct (Prim2SF x) as [s|s| |s m e] eqn:E; cbn [SFeqb SFcompare].
  - rewrite ltb_spec, div_spec, E.
    change (Prim2SF one) with (S754_finite false 4503599627370496 (-52)).
    destruct s; reflexivity.
  - destruct s; cbv beta iota zeta; rewrite ltb_spec, E; reflexivity.
  - cbv beta iota zeta. rewrite ltb_spec, E. reflexivity.
  - destruct s; cbv beta iota zeta; rewrite ltb_spec, E; reflexivity.
Qed.

Lemma signed_false_plus x : SFsigned false x -> SFplus x = true.
Proof. intros [-> | [-> | (m & e & ->)]]; reflexivity. Qed.

Lemma SFmul_self_plus x : SFplus (SF64mul x x) = true.
Proof.
  destruct x as [[]|[]| |s m e]; try reflexivity.
  unfold SF64mul, SFmul. rewrite xorb_nilpotent.
  apply signed_false_plus, binary_round_aux_signed. lia.
Qed.

(** A rounded non-zero magnitude of a sum is not zero. *)
Lemma binary_round_aux_nonzero s m e l :
  -1074 <= e -> forall s',
  binary_round_aux prec emax s (Zpos m) e l <> S754_zero s'.
Proof.
  intros He s'. unfold binary_round_aux, shr_fexp. rewrite fexp_64.
  remember (Zdigits2 (Zpos m)) as d eqn:Ed.
  assert (Hd : d = Z.log2 (Zpos m) + 1) by (subst d; apply Zdigits2_log2).
  pose proof (Z.log2_nonneg (Zpos m)) as Hl.
  destruct (shr_exact (shr_record_of_loc (Zpos m) l) e
              (Z.max (d + e - 53) (-1074) - e))
    as (He' & Hm' & _); [rewrite shr_m_of_loc; lia|].
  rewrite shr_m_of_loc in Hm'.
  destruct (shr _ e _) as [mrs' e']. cbn [fst snd] in He', Hm'.
  rewrite fexp_64.
  assert (H1 : 0 < shr_m mrs').
  { rewrite Hm'. apply div_pow2_pos; lia. }
  pose proof (round_nearest_even_bounds (shr_m mrs')
                (loc_of_shr_record mrs') ltac:(lia)) as Hr.
  remember (round_nearest_even (shr_m mrs') (loc_of_shr_record mrs'))
    as m1 eqn:Em1.
  assert (Hm1 : 0 < m1) by lia.
  destruct (shr_exact (shr_record_of_loc m1 loc_Exact) e'
              (Z.max (Zdigits2 m1 + e' - 53) (-1074) - e'))
    as (He'' & Hm'' & _); [cbn; lia|].
  cbn [shr_record_of_loc shr_m] in Hm''.
  destruct (shr _ e' _) as [mrs'' e'']. cbn [fst snd] in He'', Hm''.
  assert (H2 : 0 < shr_m mrs'').
  { rewrite Hm''. rewrite Zdigits2_pos by assumption.
    pose proof (Z.log2_nonneg m1).
    apply div_pow2_pos; lia. }
  destruct (shr_m mrs'') as [|p|p]; try lia.
  destruct (e'' <=? emax - prec); discriminate.
Qed.

Lemma binary_round_nonzero s m e :
  -1074 <= e -> forall s', binary_round prec emax s m e <> S754_zero s'.
Proof.
  intros He s'. unfold binary_round. rewrite fexp_64.
  change (Z.pos (digits2_pos m)) with (Zdigits2 (Zpos m)).
  remember (Z.max (Zdigits2 (Zpos m) + e - 53) (-1074)) as E eqn:EE.
  assert (Hsnd : -1074 <= snd (shl_align m e E)).
  { unfold shl_align. destruct (E - e) eqn:D; cbn [snd]; lia. }
  destruct (shl_align m e E) as [mz ez]. cbn [snd] in Hsnd.
  apply binary_round_aux_nonzero. exact Hsnd.
Qed.

Lemma SFadd_not_negzero x y :
  valid_binary x = true -> valid_binary y = true ->
  SFplus x = true -> SFnot_negzero (SF64add x y) = true.
Proof.
  intros Vx Vy Hx.
  destruct x as [[]|[]| |[] mx ex]; try discriminate;
    destruct y as [[]|[]| |sy my ey]; try reflexivity.
  apply valid_finite in Vx, Vy.
  unfold SF64add, SFadd.
  set (sum := _ + _). 
  assert (Hez : -1074 <= Z.min ex ey) by lia.
  unfold binary_normalize.
  destruct sum as [|p|p]; [reflexivity| |].
  - destruct (binary_round prec emax false p (Z.min ex ey)) as [[]| | |] eqn:E;
      try reflexivity.
    exfalso. exact (binary_round_nonzero _ _ _ Hez _ E).
  - destruct (binary_round prec emax true p (Z.min ex ey)) as [[]| | |] eqn:E;
      try reflexivity.
    exfalso. exact (binary_round_nonzero _ _ _ Hez _ E).
Qed.

Lemma SFsqrt_core_nonneg m e :
  0 <= fst (fst (SFsqrt_core_binary prec emax (Zpos m) e)).
Proof.
  unfold SFsqrt_core_binary.
  set (s := e - 2 * _).
  set (m' := match s with Z.pos _ => Z.shiftl (Zpos m) s | 0 => Zpos m
                        | Z.neg _ => 0 end).
  assert (Hm' : 0 <= m').
  { unfold m'. destruct s; try lia. apply Z.shiftl_nonneg. lia. }
  pose proof (Z.sqrtrem_spec m' Hm') as H.
  destruct (Z.sqrtrem m') as [q r]. cbn [fst]. nia.
Qed.

Lemma SFsqrt_plus x : SFnot_negzero x = true -> SFplus (SF64sqrt x) = true.
Proof.
  intros Hx. destruct x as [[]|[]| |[] m e]; try reflexivity;
    try discriminate.
  unfold SF64sqrt, SFsqrt.
  pose proof (SFsqrt_core_nonneg m e) as H.
  destruct (SFsqrt_core_binary prec emax (Zpos m) e) as [[mz ez] lz].
  cbn [fst] in H. apply signed_false_plus, binary_round_aux_signed. exact H.
Qed.

Lemma SFmul_pos_not_neg mk ek t :
  SFnot_neg t = true ->
  SFnot_neg (SF64mul (S754_finite false mk ek) t) = true.
Proof.
  intros Ht. destruct t as [s|[]| |[] m e]; try reflexivity;
    try discriminate.
  unfold SF64mul, SFmul. cbn [xorb].
  destruct (binary_round_aux_signed false (Zpos (mk * m)) (ek + e) loc_Exact
              ltac:(lia)) as [-> | [-> | (m' & e' & ->)]]; reflexivity.
Qed.

Lemma abs_not_negative z : (abs z <? 0)%float = false.
Proof.
  rewrite ltb_zero_spec, abs_spec.
  destruct (Prim2SF z) as [[]|[]| |[] m e]; reflexivity.
Qed.

Local Close Scope Z_scope.

End IEEE.


(* ================================================================== *)
(** ** A concrete platform *)

Module Platform.

Import Audio IEEE.

Local Open Scope float_scope.

Lemma nominal_rate_positive (rate : number) :
  (8000 <=? rate) && (rate <=? 96000) = true ->
  is_finite rate = true /\ (0 <? rate) = true.
Proof.
  intros H. apply andb_prop in H. destruct H as [Hlo Hhi].
  rewrite is_finite_spec, ltb_spec, Prim2SF_0.
  rewrite leb_spec in Hlo, Hhi.
  replace (Prim2SF 8000)
    with (S754_finite false 8796093022208000 (-40)) in Hlo
    by (vm_compute; reflexivity).
  replace (Prim2SF 96000)
    with (S754_finite false 6597069766656000 (-36)) in Hhi
    by (vm_compute; reflexivity).
  destruct (Prim2SF rate) as [[]|[]| |[] m e];
    try discriminate Hlo; try discriminate Hhi; split; reflexivity.
Qed.

Lemma nominal_rate_supported (rate : number) :
  (8000 <=? rate) = true -> (rate <=? 96000) = true ->
  (8000 <=? rate) && (rate <=? 96000) = true.
Proof. intros -> ->. reflexivity. Qed.

(** A platform that supports exactly what every browser must: sample
    rates from 8000 to 96000 and 32 channels. *)
Definition Nominal : WebAudio :=
  {| supportsSampleRate := fun rate => (8000 <=? rate) && (rate <=? 96000);
     maxChannels := 32;
     supports_nominal_rates := nominal_rate_supported;
     supports_positive_rates_only := nominal_rate_positive;
     supports_32_channels := le_n 32 |}.

End Platform.

(* ================================================================== *)
(** ** The audio codec: base64, byte views and the round trip *)

Module AudioFacts.

Import Audio IEEE.

Local Open Scope Z_scope.

Lemma code_range c : 0 <= code c < 256.
Proof.
  unfold code. pose proof (N_ascii_bounded c). lia.
Qed.

Lemma fromCharCode_code c : fromCharCode (code c) = c.
Proof. unfold fromCharCode, code. rewrite N2Z.id. apply ascii_N_embedding. Qed.

Lemma code_fromCharCode b : 0 <= b < 256 -> code (fromCharCode b) = b.
Proof.
  intros Hb. unfold fromCharCode, code.
  rewrite N_ascii_embedding by lia. lia.
Qed.

Lemma b64_digit n :
  0 <= n < 64 ->
  b64_value (b64_char n) = Some n /\ is_pad (b64_char n) = false.
Proof.
  intros Hn.
  assert (H : forallb (fun k => match b64_value (b64_char (Z.of_nat k)) with
                               | Some v => (v =? Z.of_nat k) && negb (is_pad (b64_char (Z.of_nat k)))
                               | None => false
                               end) (seq 0 64) = true) by (vm_compute; reflexivity).
  rewrite forallb_forall in H.
  specialize (H (Z.to_nat n)). rewrite Z2Nat.id in H by lia.
  specialize (H ltac:(apply in_seq; lia)).
  destruct (b64_value (b64_char n)) as [v|]; [|discriminate].
  apply andb_prop in H. destruct H as [H1 H2].
  apply Z.eqb_eq in H1. subst. split; [reflexivity|].
  destruct (is_pad (b64_char n)); [discriminate|reflexivity].
Qed.

Lemma list_ind3 (A : Type) (P : list A -> Prop) :
  P [] -> (forall a, P [a]) -> (forall a b, P [a; b]) ->
  (forall a b c rest, P rest -> P (a :: b :: c :: rest)) ->
  forall l, P l.
Proof.
  intros H0 H1 H2 H3 l.
  assert (H : P l /\ (forall a, P (a :: l)) /\ (forall a b, P (a :: b :: l))).
  { induction l as [|x l (IH0 & IH1 & IH2)]; [auto|].
    split; [apply IH1|]. split; [intros a; apply IH2|].
    intros a b. apply H3, IH0. }
  apply H.
Qed.

Ltac b64_digits :=
  repeat match goal with
         | |- context [b64_value (b64_char ?n)] =>
             let H := fresh in
             let H' := fresh in
             assert (H : 0 <= n < 64)
               by (try apply Z.mod_pos_bound; Z.div_mod_to_equations; lia);
             destruct (b64_digit n H) as [-> H'];
             try rewrite H'; clear H'
         end.

Lemma btoa_nil l : btoa_list l = [] -> l = [].
Proof. destruct l as [|a [|b [|c rest]]]; [reflexivity|discriminate..]. Qed.

Ltac chars3 a b c :=
  match goal with
  | |- Some (fromCharCode ?x :: fromCharCode ?y :: fromCharCode ?z :: _) = _ =>
      replace x with (code a) by (Z.div_mod_to_equations; lia);
      replace y with (code b) by (Z.div_mod_to_equations; lia);
      replace z with (code c) by (Z.div_mod_to_equations; lia);
      rewrite !fromCharCode_code; reflexivity
  end.

Lemma atob_btoa l : base64_decode (btoa_list l) = Some l.
Proof.
  induction l as [|a|a b|a b c rest IH] using list_ind3.
  - reflexivity.
  - pose proof (code_range a). cbn [btoa_list base64_decode].
    b64_digits. change (is_pad "=") with true. cbn [andb].
    match goal with
    | |- Some [fromCharCode ?x] = _ =>
        replace x with (code a) by (Z.div_mod_to_equations; lia)
    end.
    rewrite fromCharCode_code. reflexivity.
  - pose proof (code_range a). pose proof (code_range b).
    cbn [btoa_list base64_decode]. b64_digits.
    change (is_pad "=") with true. cbn [andb].
    match goal with
    | |- Some [fromCharCode ?x; fromCharCode ?y] = _ =>
        replace x with (code a) by (Z.div_mod_to_equations; lia);
        replace y with (code b) by (Z.div_mod_to_equations; lia)
    end.
    rewrite !fromCharCode_code. reflexivity.
  - pose proof (code_range a). pose proof (code_range b).
    pose proof (code_range c).
    cbn [btoa_list].
    destruct (btoa_list rest) as [|x t] eqn:E.
    + apply btoa_nil in E. subst rest. cbn [base64_decode]. b64_digits.
      cbn [andb]. chars3 a b c.
    + cbn [base64_decode] in IH |- *. b64_digits. rewrite IH. chars3 a b c.
Qed.

Lemma ToInt16_range x : -32768 <= ToInt16 x < 32768.
Proof.
  unfold ToInt16. pose proof (Z.mod_pos_bound (truncate x) 65536 eq_refl).
  destruct (Z.leb_spec 32768 (truncate x mod 65536)); lia.
Qed.

Lemma land_255 v : Z.land v 255 = v mod 256.
Proof. change 255 with (Z.ones 8). rewrite Z.land_ones by lia. reflexivity. Qed.

Lemma int16_bytes_range v : Forall (fun b => 0 <= b < 256) (int16_bytes v).
Proof.
  unfold int16_bytes. rewrite !land_255.
  repeat constructor; apply Z.mod_pos_bound; lia.
Qed.

Lemma int16_of_bytes_int16 v :
  -32768 <= v < 32768 ->
  int16_of_bytes (Z.land v 255) (Z.land (Z.shiftr v 8) 255) = v.
Proof.
  intros Hv. unfold int16_of_bytes.
  rewrite !land_255, Z.shiftr_div_pow2 by lia. change (2 ^ 8) with 256.
  destruct (Z.leb_spec 32768 (v mod 256 + 256 * ((v / 256) mod 256)));
    Z.div_mod_to_equations; lia.
Qed.

Lemma int16_view_bytes l :
  Forall (fun v => -32768 <= v < 32768) l ->
  int16_view (bytes_of_int16 l) = Some l.
Proof.
  induction 1 as [|v l Hv _ IH]; [reflexivity|].
  unfold bytes_of_int16 in *. cbn [flat_map int16_bytes app int16_view].
  rewrite IH, int16_of_bytes_int16 by assumption. reflexivity.
Qed.

Lemma bytes_of_int16_range l :
  Forall (fun b => 0 <= b < 256) (bytes_of_int16 l).
Proof.
  unfold bytes_of_int16. induction l as [|v l IH]; [constructor|].
  cbn [flat_map]. apply Forall_app. split; [apply int16_bytes_range|exact IH].
Qed.

Lemma map_code_fromCharCode bytes :
  Forall (fun b => 0 <= b < 256) bytes ->
  map code (map fromCharCode bytes) = bytes.
Proof.
  induction 1 as [|b l Hb _ IH]; [reflexivity|].
  cbn [map]. rewrite code_fromCharCode, IH by assumption. reflexivity.
Qed.

(** White space and [atob]: nothing to remove from input without it,
    and [btoa] writes none. *)
Lemma filter_no_space l :
  forallb (fun c => negb (is_space c)) l = true ->
  filter (fun c => negb (is_space c)) l = l.
Proof.
  induction l as [|c l IH]; [reflexivity|]. cbn [forallb filter].
  intros H. apply andb_prop in H. destruct H as [Hc Hl].
  rewrite Hc, IH by assumption. reflexivity.
Qed.

Lemma b64_char_no_space n : negb (is_space (b64_char n)) = true.
Proof.
  unfold b64_char.
  assert (H : forall s k,
             forallb (fun c => negb (is_space c)) (list_ascii_of_string s)
             = true ->
             negb (is_space (match String.get k s with
                             | Some c => c
                             | None => "="%char
                             end)) = true).
  { induction s as [|c s IH]; intros k Hs; [reflexivity|].
    cbn [list_ascii_of_string forallb] in Hs. apply andb_prop in Hs.
    destruct Hs as [Hc Hs]. destruct k; cbn [String.get]; auto. }
  apply H. reflexivity.
Qed.

Lemma btoa_list_no_space l :
  forallb (fun c => negb (is_space c)) (btoa_list l) = true.
Proof.
  induction l as [|a|a b|a b c rest IH] using list_ind3;
    cbn [btoa_list forallb]; rewrite ?b64_char_no_space; try reflexivity.
  exact IH.
Qed.

Lemma atob_btoa_string binary :
  atob (btoa binary) = Some binary.
Proof.
  unfold atob, btoa.
  rewrite list_ascii_of_string_of_list_ascii,
    (filter_no_space _ (btoa_list_no_space _)), atob_btoa.
  cbn [option_map]. rewrite string_of_list_ascii_of_string. reflexivity.
Qed.

Lemma decode_btoa bytes :
  Forall (fun b => 0 <= b < 256) bytes ->
  decode (btoa (string_of_list_ascii (map fromCharCode bytes))) = Some bytes.
Proof.
  intros Hb. unfold decode. rewrite atob_btoa_string. cbn [option_map].
  rewrite list_ascii_of_string_of_list_ascii, map_code_fromCharCode
    by assumption.
  reflexivity.
Qed.

Lemma map_nth_error_seq {A B : Type} (g : option A -> B) (l : list A) :
  map (fun i => g (nth_error l i)) (seq 0 (List.length l))
  = map (fun v => g (Some v)) l.
Proof.
  induction l as [|a l IH]; [reflexivity|].
  cbn [List.length seq map nth_error]. f_equal.
  rewrite <- seq_shift, map_map. exact IH.
Qed.

Lemma channelData_mono dataInt16 :
  channelData dataInt16 1 (List.length dataInt16) 0
  = map (fun v => (of_Z v / 32768)%float) dataInt16.
Proof.
  unfold channelData.
  rewrite <- (map_nth_error_seq
                (fun o => match o with
                          | Some v => (of_Z v / 32768)%float
                          | None => nan
                          end)).
  apply map_ext. intros i. rewrite Nat.mul_1_r, Nat.add_0_r. reflexivity.
Qed.

(** *** What every platform supports *)

Lemma supports_16000 {W : WebAudio} : supportsSampleRate 16000 = true.
Proof. apply supports_nominal_rates; vm_compute; reflexivity. Qed.

Lemma supports_24000 {W : WebAudio} : supportsSampleRate 24000 = true.
Proof. apply supports_nominal_rates; vm_compute; reflexivity. Qed.

Lemma supports_mono {W : WebAudio} : Nat.leb 1 maxChannels = true.
Proof. apply Nat.leb_le. pose proof supports_32_channels. lia. Qed.

Lemma supports_stereo {W : WebAudio} : Nat.leb 2 maxChannels = true.
Proof. apply Nat.leb_le. pose proof supports_32_channels. lia. Qed.

(** [createBuffer] for one channel of at least one frame. *)
Lemma createBuffer_accepts_mono {W : WebAudio} n rate :
  createBuffer_accepts 1 (S n) rate = supportsSampleRate rate.
Proof. unfold createBuffer_accepts. rewrite supports_mono. reflexivity. Qed.

(** The codec is exact up to the Int16 conversion: at a sample rate the
    platform supports, a non-empty frame comes back as one channel of the
    same length whose samples are [ToInt16 (x * 32768) / 32768]; at any
    other rate [createBuffer] throws. *)
Lemma roundtrip_ToInt16 {W : WebAudio} (samples : Float32Array)
    (rate : number) :
  samples <> [] ->
  roundtrip samples rate =
  if supportsSampleRate rate then
    Some (mkAudioBuffer 1 (List.length samples) (ToFloat32 rate)
            [map (fun x => (of_Z (ToInt16 (x * 32768)) / 32768)%float)
                 samples])
  else None.
Proof.
  intros Hne. unfold roundtrip, createBlob. cbn [data].
  rewrite decode_btoa by apply bytes_of_int16_range.
  unfold decodeAudioData.
  rewrite int16_view_bytes
    by (apply Forall_map, Forall_forall; intros; apply ToInt16_range).
  rewrite Nat.div_1_r, length_map.
  destruct samples as [|x rest]; [congruence|].
  cbn [List.length]. rewrite createBuffer_accepts_mono.
  destruct (supportsSampleRate rate); [|reflexivity].
  cbn [seq map]. f_equal. f_equal.
  pose proof (channelData_mono
                (map (fun x => ToInt16 (x * 32768)%float) (x :: rest))) as H.
  rewrite length_map in H. cbn [List.length map] in H.
  rewrite H. rewrite map_map. reflexivity.
Qed.

Lemma Prim2SF_32768 :
  Prim2SF 32768 = S754_finite false 4503599627370496 (-37).
Proof. vm_compute. reflexivity. Qed.

Lemma Prim2SF_m32768 :
  Prim2SF (-32768) = S754_finite true 4503599627370496 (-37).
Proof. vm_compute. reflexivity. Qed.

Lemma mantissa_bounds m e :
  e = Z.max (Zdigits2 (Zpos m) + e - 53) (-1074) ->
  Zpos m < 2 ^ 53 /\ (-1074 < e -> 2 ^ 52 <= Zpos m).
Proof.
  intros He. rewrite Zdigits2_log2 in He.
  pose proof (Z.log2_spec (Zpos m) ltac:(lia)) as [Hlo Hhi].
  pose proof (Z.log2_nonneg (Zpos m)).
  split.
  - eapply Z.lt_le_trans; [exact Hhi|]. apply Z.pow_le_mono_r; lia.
  - intros Hn. eapply Z.le_trans; [|exact Hlo]. apply Z.pow_le_mono_r; lia.
Qed.

Lemma shiftr_small m p : 0 <= m < 2 ^ 53 -> 38 <= p -> 0 <= Z.shiftr m p < 32768.
Proof.
  intros Hm Hp. rewrite Z.shiftr_div_pow2 by lia.
  assert (H38 : 2 ^ 38 <= 2 ^ p) by (apply Z.pow_le_mono_r; lia).
  assert (0 < 2 ^ p) by lia.
  split; [apply Z.div_pos; lia|].
  apply Z.div_lt_upper_bound; [lia|].
  change (2 ^ 53) with (2 ^ 38 * 32768) in Hm. nia.
Qed.

Lemma truncate_int16 y :
  (-32768 <=? y)%float = true -> (y <? 32768)%float = true ->
  -32768 <= truncate y < 32768.
Proof.
  rewrite leb_spec, ltb_spec, Prim2SF_32768, Prim2SF_m32768.
  unfold truncate. pose proof (Prim2SF_valid y) as V.
  destruct (Prim2SF y) as [s|s| |s m e]; try lia.
  apply valid_finite in V. destruct V as [Hc _].
  destruct (mantissa_bounds m e Hc) as [Hhi Hlo].
  unfold SFleb, SFltb, SFcompare.
  assert (Hcc : forall p q, PosDef.Pos.compare_cont Eq p q
                            = Z.compare (Zpos p) (Zpos q)) by reflexivity.
  rewrite ?(Hcc 4503599627370496%positive m),
    ?(Hcc m 4503599627370496%positive). clear Hcc.
  change (2 ^ 52) with 4503599627370496 in Hlo.
  destruct s; [intros H _|intros _ H]; revert H.
  - destruct (Z.compare_spec (-37) e) as [He|He|He];
      [|intros; discriminate|intros _].
    + destruct (Z.compare_spec 4503599627370496 (Zpos m)) as [Hm|Hm|Hm];
        try (intros; discriminate); intros _; subst e.
      * injection Hm as <-. vm_compute.
        split; [intro; discriminate|reflexivity].
      * specialize (Hlo ltac:(lia)). lia.
    + destruct e as [|p|p]; try lia.
      pose proof (shiftr_small (Zpos m) (Zpos p) ltac:(lia) ltac:(lia)). lia.
  - destruct (Z.compare_spec e (-37)) as [He|He|He];
      [|intros _|intros; discriminate].
    + destruct (Z.compare_spec (Zpos m) 4503599627370496) as [Hm|Hm|Hm];
        try (intros; discriminate); intros _; subst e.
      specialize (Hlo ltac:(lia)). lia.
    + destruct e as [|p|p]; try lia.
      pose proof (shiftr_small (Zpos m) (Zpos p) ltac:(lia) ltac:(lia)). lia.
Qed.

(** A number in [-32768, 32768) is stored into an [Int16Array] as its
    truncation: the conversion does not wrap. *)
Lemma ToInt16_no_wrap y :
  (-32768 <=? y)%float = true -> (y <? 32768)%float = true ->
  ToInt16 y = truncate y.
Proof.
  intros Hlo Hhi. pose proof (truncate_int16 y Hlo Hhi) as Ht.
  unfold ToInt16.
  destruct (Z.leb_spec 32768 (truncate y mod 65536));
    Z.div_mod_to_equations; lia.
Qed.

(** Shifting out bits that are all zero leaves no remainder. *)
Lemma shr_1_exact k :
  0 <= k ->
  shr_1 {| shr_m := 2 * k; shr_r := false; shr_s := false |}
  = {| shr_m := k; shr_r := false; shr_s := false |}.
Proof. destruct k as [|p|p]; try lia; reflexivity. Qed.

Lemma iter_shr_1_exact n : forall k,
  0 <= k ->
  iter_pos shr_1 n {| shr_m := 2 ^ Zpos n * k; shr_r := false; shr_s := false |}
  = {| shr_m := k; shr_r := false; shr_s := false |}.
Proof.
  induction n as [n IH|n IH|]; intros k Hk; cbn [iter_pos].
  - assert (H0 : 0 < 2 ^ Zpos n) by (apply Z.pow_pos_nonneg; lia).
    replace (2 ^ Zpos n~1 * k) with (2 * (2 ^ Zpos n * (2 ^ Zpos n * k))).
    + rewrite shr_1_exact, IH, IH by nia. reflexivity.
    + rewrite (Pos2Z.inj_xI n).
      replace (2 * Z.pos n + 1) with (1 + Z.pos n + Z.pos n) by lia.
      rewrite !Z.pow_add_r by lia. change (2 ^ 1) with 2. lia.
  - assert (H0 : 0 < 2 ^ Zpos n) by (apply Z.pow_pos_nonneg; lia).
    replace (2 ^ Zpos n~0 * k) with (2 ^ Zpos n * (2 ^ Zpos n * k)).
    + rewrite IH, IH by nia. reflexivity.
    + rewrite (Pos2Z.inj_xO n).
      replace (2 * Z.pos n) with (Z.pos n + Z.pos n) by lia.
      rewrite !Z.pow_add_r by lia. lia.
  - change (2 ^ 1) with 2. apply shr_1_exact; assumption.
Qed.

Lemma shr_exact_record k e n :
  0 <= k -> 0 <= n ->
  shr {| shr_m := 2 ^ n * k; shr_r := false; shr_s := false |} e n
  = ({| shr_m := k; shr_r := false; shr_s := false |}, e + n).
Proof.
  intros Hk Hn. destruct n as [|p|p]; try lia; cbn [shr].
  - change (2 ^ 0) with 1. rewrite Z.mul_1_l, Z.add_0_r. reflexivity.
  - rewrite iter_shr_1_exact by assumption. reflexivity.
Qed.

Lemma Zdigits2_bounds m e :
  e = Z.max (Zdigits2 (Zpos m) + e - 53) (-1074) ->
  1 <= Zdigits2 (Zpos m) <= 53 /\ -1074 <= e.
Proof. intros H. cbn [Zdigits2] in *. lia. Qed.

(** Scaling a number of magnitude below 1 by 2^15 is exact and stays
    below 2^15: the product is finite with an exponent of at most -38. *)
Lemma SFmul_32768_small s m e :
  valid_binary (S754_finite s m e) = true -> e <= -53 ->
  exists m' e',
    SF64mul (S754_finite s m e) (S754_finite false 4503599627370496 (-37))
    = S754_finite s m' e' /\ e' <= -38.
Proof.
  intros V He. apply valid_finite in V. destruct V as [Hc _].
  destruct (Zdigits2_bounds m e Hc) as [Hd Hemin].
  unfold SF64mul, SFmul. rewrite xorb_false_r.
  unfold binary_round_aux, shr_fexp. cbn [shr_record_of_loc].
  rewrite Pos2Z.inj_mul. change (Z.pos 4503599627370496) with (2 ^ 52).
  rewrite Zdigits2_mul_pow2 by lia. rewrite fexp_64.
  remember (Zdigits2 (Zpos m)) as dm eqn:Edm.
  remember (Z.max (dm + 52 + (e + -37) - 53) (-1074)) as E eqn:EE.
  remember (E - (e + -37)) as n eqn:En.
  assert (Hn : 0 <= n <= 52) by lia.
  assert (Hk : Zpos m * 2 ^ 52 = 2 ^ n * (Zpos m * 2 ^ (52 - n))).
  { replace 52 with (n + (52 - n)) at 1 by lia.
    rewrite Z.pow_add_r by lia. lia. }
  rewrite Hk.
  assert (Hkpos : 0 < Zpos m * 2 ^ (52 - n)).
  { assert (0 < 2 ^ (52 - n)) by (apply Z.pow_pos_nonneg; lia). nia. }
  rewrite (shr_exact_record _ _ _ (Z.lt_le_incl _ _ Hkpos) (proj1 Hn)).
  cbn [shr_m loc_of_shr_record round_nearest_even].
  rewrite Zdigits2_mul_pow2 by lia. rewrite <- Edm, fexp_64.
  replace (e + -37 + n) with E by lia.
  destruct (shr_exact {| shr_m := Zpos m * 2 ^ (52 - n);
                         shr_r := false; shr_s := false |} E
              (Z.max (dm + (52 - n) + E - 53) (-1074) - E)
              (Z.lt_le_incl _ _ Hkpos)) as (He'' & Hm'' & Hid).
  rewrite (surjective_pairing (shr _ E _)).
  rewrite Hid by lia. cbn [shr_m]. rewrite He''.
  replace (Z.max 0 (Z.max (dm + (52 - n) + E - 53) (-1074) - E)) with 0 by lia.
  rewrite Z.add_0_r.
  destruct (Zpos m * 2 ^ (52 - n)) as [|p|p] eqn:Ep; try lia.
  change (emax - prec) with 971.
  destruct (Z.leb_spec E 971); [|lia].
  exists p, E. split; [reflexivity|lia].
Qed.

Lemma Prim2SF_m1 :
  Prim2SF (-1) = S754_finite true 4503599627370496 (-52).
Proof. vm_compute. reflexivity. Qed.

(** A sample in [-1, 1) scales into [-32768, 32768). *)
Lemma sample_scaled_in_range x :
  (-1 <=? x)%float = true -> (x <? 1)%float = true ->
  (-32768 <=? x * 32768)%float = true /\ (x * 32768 <? 32768)%float = true.
Proof.
  rewrite !leb_spec, !ltb_spec, mul_spec.
  rewrite Prim2SF_m1, Prim2SF_1, Prim2SF_32768, Prim2SF_m32768.
  pose proof (Prim2SF_valid x) as V.
  destruct (Prim2SF x) as [s|s| |s m e].
  - intros _ _. destruct s; split; reflexivity.
  - destruct s; [intros H _|intros _ H]; discriminate H.
  - intros H _; discriminate H.
  - assert (Hcc : forall p q, PosDef.Pos.compare_cont Eq p q
                              = Z.compare (Zpos p) (Zpos q)) by reflexivity.
    intros Hlo Hhi.
    assert (Hcase : e <= -53 \/
                    (s = true /\ e = -52 /\ m = 4503599627370496%positive)).
    { pose proof (valid_finite _ _ _ V) as [Hc _].
      destruct (mantissa_bounds m e Hc) as [_ Hm].
      change (2 ^ 52)%Z with 4503599627370496%Z in Hm.
      revert Hlo Hhi. unfold SFleb, SFltb, SFcompare.
      rewrite ?(Hcc 4503599627370496%positive m),
        ?(Hcc m 4503599627370496%positive).
      destruct s.
      - intros H _. revert H.
        destruct (Z.compare_spec (-52) e) as [E|E|E];
          [|intros; discriminate|intros _; left; lia].
        destruct (Z.compare_spec 4503599627370496 (Zpos m)) as [Hm'|Hm'|Hm'];
          try (intros; discriminate); intros _.
        + right. injection Hm' as <-. auto.
        + specialize (Hm ltac:(lia)). lia.
      - intros _ H. revert H.
        destruct (Z.compare_spec e (-52)) as [E|E|E];
          [|intros _; left; lia|intros; discriminate].
        destruct (Z.compare_spec (Zpos m) 4503599627370496) as [Hm'|Hm'|Hm'];
          try (intros; discriminate); intros _.
        specialize (Hm ltac:(lia)). lia. }
    destruct Hcase as [He | (-> & -> & ->)].
    + destruct (SFmul_32768_small s m e V He) as (m' & e' & -> & He').
      unfold SFleb, SFltb, SFcompare.
      destruct s; split; try reflexivity.
      * destruct (Z.compare_spec (-37) e'); try reflexivity; lia.
      * destruct (Z.compare_spec e' (-37)); try reflexivity; lia.
    + vm_compute. split; reflexivity.
Qed.

(** X1. Below full scale the round trip only truncates: at a sample
    rate the platform supports, a non-empty frame of samples in [-1, 1)
    comes back with the same length, each sample [x] as
    [truncate (x * 32768) / 32768], the multiple of 1/32768 next to [x]
    towards zero, in a buffer at that rate as binary32 holds it; at any
    other rate decoding throws.  The rates 16000 and 24000 of the program
    are supported everywhere and are binary32 numbers. *)
Theorem roundtrip_below_full_scale {W : WebAudio} (samples : Float32Array)
    (rate : number) :
  samples <> [] ->
  Forall (fun x => (-1 <=? x)%float = true /\ (x <? 1)%float = true) samples ->
  roundtrip samples rate =
  (if supportsSampleRate rate then
     Some (mkAudioBuffer 1 (List.length samples) (ToFloat32 rate)
             [map (fun x => (of_Z (truncate (x * 32768)) / 32768)%float)
                  samples])
   else None) /\
  (supportsSampleRate 16000 = true /\ ToFloat32 16000 = 16000%float) /\
  (supportsSampleRate 24000 = true /\ ToFloat32 24000 = 24000%float).
Proof.
  intros Hne Hr.
  split; [|split; split;
           [apply supports_16000|reflexivity|apply supports_24000|reflexivity]].
  rewrite roundtrip_ToInt16 by assumption.
  destruct (supportsSampleRate rate); [|reflexivity].
  do 3 f_equal. apply map_ext_Forall.
  eapply Forall_impl; [|exact Hr]. intros x [Hlo Hhi]. cbn beta.
  destruct (sample_scaled_in_range x Hlo Hhi) as [H1 H2].
  rewrite ToInt16_no_wrap by assumption. reflexivity.
Qed.

Lemma roundtrip_below_full_scale_witness :
  roundtrip (W := Platform.Nominal) [0.5%float; (-1)%float] 16000 =
  Some (mkAudioBuffer 1 2 16000
          [map (fun x => (of_Z (truncate (x * 32768)) / 32768)%float)
               [0.5%float; (-1)%float]]).
Proof.
  refine (proj1 (roundtrip_below_full_scale (W := Platform.Nominal)
                   [0.5%float; (-1)%float] 16000 _ _)).
  - discriminate.
  - repeat constructor.
Defined.

(** C2, at the full-scale sample: 1.0 * 32768 does not fit an Int16 and
    is stored as -32768 (bytes 00 80, base64 AIA=), which decodes to
    -1.0; the round trip is off by 2.  Samples below full scale come back
    (0.5, -1.0 and 0.25 exactly). *)
Theorem full_scale_sample_wraps {W : WebAudio} :
  ToInt16 (1 * 32768) = -32768 /\
  Audio.data (createBlob [1%float]) = "AIA="%string /\
  option_map Audio.channels (roundtrip [1%float] 16000)
  = Some [[(-1)%float]] /\
  option_map Audio.channels
             (roundtrip [0.5%float; (-1)%float; 0.25%float] 16000)
  = Some [[0.5%float; (-1)%float; 0.25%float]].
Proof.
  rewrite !roundtrip_ToInt16, supports_16000 by discriminate.
  vm_compute. repeat split.
Qed.

End AudioFacts.

(* ================================================================== *)
(** ** The geo distance utility: same point and symmetry *)

Module GeoFacts.

Import Geo IEEE Scenario.

Local Open Scope float_scope.

Lemma square_opp x : (- x) * (- x) = x * x.
Proof. rewrite mul_opp_l, mul_opp_r, opp_involutive. reflexivity. Qed.

Lemma scaled_square_opp p x : p * (- x) * (- x) = p * x * x.
Proof. rewrite !mul_opp_r, mul_opp_l, opp_involutive. reflexivity. Qed.

Lemma SFmag_le_1024 x : (SFmag (Prim2SF x) <= 1024)%Z.
Proof.
  pose proof (Prim2SF_valid x) as V.
  destruct (Prim2SF x) as [s|s| |s m e]; cbn [SFmag]; try lia.
  apply valid_finite in V. lia.
Qed.

Lemma Prim2SF_deg_factor :
  Prim2SF (Math_PI / 180) = S754_finite false 5030569068109113 (-58).
Proof. vm_compute. reflexivity. Qed.

Section WithMath.

Context {M : MathImpl}.

Lemma deg2rad_finite x : is_finite x = true -> is_finite (deg2rad x) = true.
Proof.
  intros Hx. unfold deg2rad. apply mul_finite.
  - assumption.
  - rewrite is_finite_spec, Prim2SF_deg_factor. reflexivity.
  - rewrite Prim2SF_deg_factor. pose proof (SFmag_le_1024 x).
    change (SFmag (S754_finite false 5030569068109113 (-58))) with (-5)%Z.
    lia.
Qed.

Lemma haversine_opp (sin_odd : forall x, Math_sin (- x) = - Math_sin x) d :
  Math_sin (deg2rad (- d) / 2) = - Math_sin (deg2rad d / 2).
Proof. unfold deg2rad. rewrite mul_opp_l, div_opp_l. apply sin_odd. Qed.

(** C10. The distance is symmetric in its two coordinate pairs:
    distance(A, B) = distance(B, A), for every engine whose sine is an odd
    function on binary64 numbers. *)
Theorem distance_symmetric
    (sin_odd : forall x, Math_sin (- x) = - Math_sin x)
    (lat1 lon1 lat2 lon2 : number) :
  getDistanceFromLatLonInFeet lat1 lon1 lat2 lon2 =
  getDistanceFromLatLonInFeet lat2 lon2 lat1 lon1.
Proof.
  unfold getDistanceFromLatLonInFeet.
  rewrite (mul_comm (Math_cos (deg2rad lat2)) (Math_cos (deg2rad lat1))).
  destruct (sub_antisym lat1 lat2) as [-> | [-> ->]];
    destruct (sub_antisym lon1 lon2) as [-> | [-> ->]];
    rewrite ?(haversine_opp sin_odd), ?square_opp, ?scaled_square_opp;
    reflexivity.
Qed.

(** C9. The distance from a coordinate pair to itself is exactly 0, for
    finite coordinates and every engine with sin(+0) = +0,
    atan2(+0, 1) = +0 and |cos x| <= 1. *)
Theorem distance_same_point
    (sin_zero : Math_sin 0 = 0)
    (cos_range : forall x, is_finite x = true ->
                           (abs (Math_cos x) <=? 1) = true)
    (atan2_zero : Math_atan2 0 1 = 0)
    (lat lon : number) :
  is_finite lat = true -> is_finite lon = true ->
  getDistanceFromLatLonInFeet lat lon lat lon = 0.
Proof.
  intros Hlat Hlon. unfold getDistanceFromLatLonInFeet.
  rewrite !sub_diag by assumption.
  replace (deg2rad 0 / 2) with 0 by reflexivity.
  rewrite sin_zero.
  destruct (abs_le_1_mag _ (cos_range _ (deg2rad_finite _ Hlat)))
    as [Hc Hm].
  assert (Hcc : is_finite (Math_cos (deg2rad lat) * Math_cos (deg2rad lat))
                = true) by (apply mul_finite; trivial; lia).
  unfold Math_sqrt.
  destruct (mul_zero_r _ Hcc) as [-> | ->];
    (replace (0 * 0 + 0 * 0) with 0 by reflexivity)
    || (replace (0 * 0 + - 0 * 0) with 0 by reflexivity);
    replace (sqrt (1 - 0)) with 1 by reflexivity;
    replace (sqrt 0) with 0 by reflexivity;
    rewrite atan2_zero; reflexivity.
Qed.

End WithMath.

Lemma distance_symmetric_witness :
  getDistanceFromLatLonInFeet (M := SmallAngle)
    home_lat home_lon north_lat home_lon =
  getDistanceFromLatLonInFeet (M := SmallAngle)
    north_lat home_lon home_lat home_lon.
Proof.
  apply (distance_symmetric (M := SmallAngle)).
  intros x; reflexivity.
Defined.

Lemma distance_same_point_witness :
  getDistanceFromLatLonInFeet (M := SmallAngle)
    home_lat home_lon home_lat home_lon = 0.
Proof.
  apply (distance_same_point (M := SmallAngle)).
  - reflexivity.
  - intros x _. reflexivity.
  - reflexivity.
  - reflexivity.
  - reflexivity.
Defined.

End GeoFacts.

(* ================================================================== *)
(** ** The application: test start, proximity monitor, home location *)

Module AppFacts.

Import Geo Audio App IEEE Scenario.

Local Open Scope float_scope.

(** *** Commit and the observers *)

Lemma commit_cons s e effs :
  commit s (e :: effs) = commit (apply s e) effs.
Proof. reflexivity. Qed.

Lemma count_cons p e effs :
  count p (e :: effs) = ((if p e then 1 else 0) + count p effs)%nat.
Proof. unfold count; cbn [filter]. destruct (p e); reflexivity. Qed.

Lemma count_app p effs1 effs2 :
  count p (effs1 ++ effs2) = (count p effs1 + count p effs2)%nat.
Proof. unfold count. rewrite filter_app, length_app. reflexivity. Qed.

Lemma commit_homeLocation effs : forall s,
  count is_setHomeLocation effs = 0%nat ->
  homeLocation (commit s effs) = homeLocation s.
Proof.
  induction effs as [|e effs IH]; intros s H; [reflexivity|].
  rewrite count_cons in H. rewrite commit_cons, IH by lia.
  destruct e; try reflexivity. discriminate H.
Qed.

Lemma commit_not_violation effs : forall s,
  count is_setViolation effs = 0%nat ->
  status s <> VIOLATION -> status (commit s effs) <> VIOLATION.
Proof.
  induction effs as [|e effs IH]; intros s H Hs; [assumption|].
  rewrite count_cons in H. rewrite commit_cons. apply IH; [lia|].
  destruct e as [| |st| | | | | | | | | | | | | | | |]; try assumption.
  destruct st; try discriminate H; cbn; discriminate.
Qed.

(** *** [startTest] *)

Lemma startTest_entry r :
  exists rest,
    snd (startTest r) =
    [invoke_startTest; setTestActive true; setStatus TESTING] ++ rest
    /\ count is_setViolation rest = 0%nat
    /\ count is_invoke_startTest rest = 0%nat
    /\ count is_setHomeLocation rest = 0%nat
    /\ statusWrites rest = [].
Proof.
  unfold startTest.
  destruct (aiClient r), (streamRef r); eexists; repeat split; reflexivity.
Qed.

(** C7. [startTest] queues testActive = true and status = TESTING before
    it looks at its preconditions; when the AI client or the media stream
    is missing it then returns, having written no ref and called nothing:
    the next render is TESTING with testActive true, no session, no audio
    context and no frame-grabber timer exist, and no session callback can
    start them. *)
Theorem startTest_without_client_or_stream (s : State) (r : Refs) :
  aiClient r = None \/ streamRef r = None ->
  sessionRef r = None -> audioContextRef r = None ->
  frameIntervalRef r = None ->
  (forall r0, exists rest,
      snd (startTest r0) =
      [invoke_startTest; setTestActive true; setStatus TESTING] ++ rest) /\
  startTest r = (r, [invoke_startTest; setTestActive true; setStatus TESTING]) /\
  status (commit s (snd (startTest r))) = TESTING /\
  testActive (commit s (snd (startTest r))) = true /\
  sessionRef (fst (startTest r)) = None /\
  audioContextRef (fst (startTest r)) = None /\
  frameIntervalRef (fst (startTest r)) = None /\
  count is_live_connect (snd (startTest r)) = 0%nat /\
  count is_pipeline (snd (startTest r)) = 0%nat /\
  (forall (M : MathImpl) (W : WebAudio) timer inputData,
      let s' := commit s (snd (startTest r)) in
      let r' := fst (startTest r) in
      handle (session_open timer) s' r' = (r', []) /\
      handle (audioprocess inputData) s' r' = (r', [])).
Proof.
  intros Hpre Hsess Hctx Htimer.
  assert (E : startTest r
              = (r, [invoke_startTest; setTestActive true; setStatus TESTING])).
  { unfold startTest. destruct Hpre as [-> | H]; [reflexivity|].
    rewrite H. destruct (aiClient r); reflexivity. }
  split.
  { intros r0. destruct (startTest_entry r0) as (rest & H & _). eauto. }
  rewrite E. cbn [fst snd].
  repeat split; trivial; cbn [handle]; rewrite Hsess; reflexivity.
Qed.

Lemma startTest_without_client_or_stream_witness :
  startTest initialRefs
  = (initialRefs, [invoke_startTest; setTestActive true; setStatus TESTING]).
Proof.
  refine (proj1 (proj2 (startTest_without_client_or_stream
                          initialState initialRefs _ _ _ _)));
    [left|..]; reflexivity.
Defined.

Section WithMath.

Context {M : MathImpl} {W : WebAudio}.

(** *** Case analysis of the handlers *)

Ltac split_match :=
  match goal with
  | |- context [match ?x with _ => _ end] =>
      first [is_var x; destruct x | destruct x eqn:?]
  | |- context [if ?x then _ else _] => destruct x eqn:?
  end.

Ltac handlers :=
  cbn [handle]; unfold onPosition, startSystem, startSystem_settled, onopen,
    onmessage,
    onaudioprocess, endTest, handleOrientation, startTest, schedule,
    hardware_failure;
  cbv beta iota zeta; repeat split_match; cbn [fst snd app].

(** No handler writes the AI client or, without one, opens a session. *)
Lemma handle_without_client ev s r :
  aiClient r = None -> sessionRef r = None ->
  aiClient (fst (handle ev s r)) = None /\
  sessionRef (fst (handle ev s r)) = None /\
  count is_live_connect (snd (handle ev s r)) = 0%nat.
Proof.
  intros Hc Hs. destruct ev; handlers;
    repeat split; trivial; try discriminate; congruence.
Qed.

(** Only [render] and [effect] change what React holds. *)
Lemma handle_rendered ev s r :
  rendered (fst (handle ev s r))
  = match ev with render => s | _ => rendered r end.
Proof.
  destruct ev; handlers;
    unfold set_streamRef, set_audioContextRef, set_sessionRef,
      set_nextStartTimeRef, set_frameIntervalRef, set_rendered, set_watch;
    cbn [rendered]; congruence.
Qed.

Lemma handle_watch ev s r :
  watch (fst (handle ev s r))
  = match ev with
    | effect => if started (rendered r) then Some (rendered r) else None
    | _ => watch r
    end.
Proof.
  destruct ev; handlers;
    unfold set_streamRef, set_audioContextRef, set_sessionRef,
      set_nextStartTimeRef, set_frameIntervalRef, set_rendered, set_watch;
    cbn [watch]; congruence.
Qed.

(** A watch whose closure holds a home location leaves it alone, and no
    other handler writes it. *)
Lemma handle_keeps_home ev s r :
  (forall w, watch r = Some w -> homeLocation w <> None) ->
  count is_setHomeLocation (snd (handle ev s r)) = 0%nat.
Proof.
  intros Hh. destruct ev; handlers; try reflexivity.
  exfalso. eapply Hh; eauto.
Qed.


(** *** Runs *)

Lemma step_inv ev a :
  exists r' effs,
    handle ev (fst a) (snd a) = (r', effs) /\
    step ev a =
    (if existsb is_reload effs then None
     else Some (commit (fst a) effs, r'), effs).
Proof.
  unfold step. destruct (handle ev (fst a) (snd a)) as [r' effs].
  exists r', effs. split; [reflexivity|].
  destruct (existsb is_reload effs); reflexivity.
Qed.

Lemma run_cons ev evs a :
  run (ev :: evs) a =
  match step ev a with
  | (Some a', effs) => (effs, Some a') :: run evs a'
  | (None, effs) => [(effs, None)]
  end.
Proof. reflexivity. Qed.

(** An invariant of the application holds after every step of a run,
    together with what it implies for the effects of that step. *)
Lemma run_invariant (Inv : State * Refs -> Prop)
    (Ok : Event -> Prop) (Q : list Effect -> Prop) :
  (forall ev a, Inv a -> Ok ev ->
     Q (snd (handle ev (fst a) (snd a))) /\
     Inv (commit (fst a) (snd (handle ev (fst a) (snd a))),
          fst (handle ev (fst a) (snd a)))) ->
  forall evs a, Inv a -> Forall Ok evs ->
    Forall (fun se => Q (fst se) /\ forall a', snd se = Some a' -> Inv a')
           (run evs a).
Proof.
  intros Hstep evs. induction evs as [|ev evs IH]; intros a Ha Hok.
  - constructor.
  - inversion Hok as [|? ? Hev Hevs]; subst.
    destruct (Hstep ev a Ha Hev) as [HQ HI].
    rewrite run_cons. destruct (step_inv ev a) as (r' & effs & Hh & ->).
    rewrite Hh in HQ, HI. cbn [fst snd] in HQ, HI.
    destruct (existsb is_reload effs).
    + constructor; [|constructor]. split; [assumption|discriminate].
    + constructor; [|apply IH; assumption].
      split; [assumption|]. intros a' [= <-]. assumption.
Qed.

Lemma trace_count p evs a :
  Forall (fun se => count p (fst se) = 0%nat) (run evs a) ->
  count p (trace evs a) = 0%nat.
Proof.
  unfold trace. induction (run evs a) as [|se l IH]; intros H.
  - reflexivity.
  - inversion H as [|? ? H1 H2]; subst. cbn [map List.concat].
    rewrite count_app, H1, IH by assumption. reflexivity.
Qed.

Lemma trace_cons ev evs a :
  trace (ev :: evs) a =
  match step ev a with
  | (Some a', effs) => effs ++ trace evs a'
  | (None, effs) => effs
  end.
Proof.
  unfold trace. rewrite run_cons.
  destruct (step ev a) as [[a'|] effs]; cbn [map List.concat fst].
  - reflexivity.
  - apply app_nil_r.
Qed.

(** *** The AI client *)

(** C8. When the API key is absent (or empty) at startup, the mount effect
    constructs no AI client; in every run that follows no handler creates
    one, no session is opened and the session ref stays null; and
    [startTest] itself reports nothing: it raises no alert and logs no
    error. *)
Theorem no_api_key_no_session (API_KEY : option string) (evs : list Event) :
  truthy API_KEY = false ->
  aiClient (snd (load API_KEY)) = None /\
  Forall (fun se =>
            count is_live_connect (fst se) = 0%nat /\
            forall a', snd se = Some a' ->
                       aiClient (snd a') = None /\ sessionRef (snd a') = None)
         (run evs (load API_KEY)) /\
  (forall r, aiClient r = None ->
             fst (startTest r) = r /\
             count is_live_connect (snd (startTest r)) = 0%nat /\
             count is_error_report (snd (startTest r)) = 0%nat).
Proof.
  intros Hkey.
  assert (Hload : aiClient (snd (load API_KEY)) = None
                  /\ sessionRef (snd (load API_KEY)) = None).
  { unfold load, mount. destruct API_KEY as [key|]; [|split; reflexivity].
    rewrite Hkey. split; reflexivity. }
  split; [apply Hload|]. split.
  - apply (run_invariant
             (fun a => aiClient (snd a) = None /\ sessionRef (snd a) = None)
             (fun _ => True)
             (fun effs => count is_live_connect effs = 0%nat)).
    + intros ev a [Hc Hs] _.
      destruct (handle_without_client ev (fst a) (snd a) Hc Hs)
        as (H1 & H2 & H3).
      auto.
    + assumption.
    + apply Forall_forall. trivial.
  - intros r Hr. unfold startTest. rewrite Hr. repeat split.
Qed.

(** *** The proximity monitor *)

(** An established home location stays established: no handler writes
    it, and every later render and watch holds it. *)
Lemma step_home_established ev a home :
  home_established home a ->
  count is_setHomeLocation (snd (handle ev (fst a) (snd a))) = 0%nat /\
  home_established home
    (commit (fst a) (snd (handle ev (fst a) (snd a))),
     fst (handle ev (fst a) (snd a))).
Proof.
  intros (Hs & Hr & Hw).
  assert (Hc : count is_setHomeLocation
                 (snd (handle ev (fst a) (snd a))) = 0%nat).
  { apply handle_keeps_home. intros w E. rewrite (Hw w E). discriminate. }
  split; [exact Hc|]. unfold home_established. cbn [fst snd].
  split; [|split].
  - rewrite commit_homeLocation; assumption.
  - rewrite handle_rendered.
    destruct ev; try exact Hr. exact Hs.
  - intros w. rewrite handle_watch. destruct ev; try apply Hw.
    destruct (started (rendered (snd a))); [|discriminate].
    intros [= <-]. exact Hr.
Qed.



(** X26. The departure trigger reads the closure of the watch, not the
    state.  A fix farther than 15 ft from the home location of the
    closure, when the closure reads SECURE and no active test, queues
    VIOLATION once and enters [startTest] once, which queues TESTING in
    the same callback: the status writes are VIOLATION, TESTING, and the
    next state is TESTING with the test active, never VIOLATION.  When
    the closure reads another status or an active test, the fix records
    the distance and does nothing else. *)
Theorem far_fix_reads_closure (s : State) (r : Refs) (w : State)
    (home : Location) (latitude longitude : number) :
  watch r = Some w -> homeLocation w = Some home ->
  gtb (getDistanceFromLatLonInFeet (lat home) (lon home) latitude longitude)
      15 = true ->
  let effs := snd (handle (position latitude longitude) s r) in
  (status w = SECURE /\ testActive w = false ->
   count is_setViolation effs = 1%nat /\
   count is_invoke_startTest effs = 1%nat /\
   statusWrites effs = [VIOLATION; TESTING] /\
   status (commit s effs) = TESTING /\
   testActive (commit s effs) = true) /\
  (status w <> SECURE \/ testActive w = true ->
   handle (position latitude longitude) s r
   = (r, [setCurrentDistance
            (getDistanceFromLatLonInFeet (lat home) (lon home)
                                         latitude longitude)])).
Proof.
  intros Hw Hh Hd. cbn zeta. cbn [handle]. rewrite Hw. unfold onPosition.
  rewrite Hh, Hd. split.
  - intros [Hs Ht]. rewrite Hs, Ht. cbn [Status_eqb negb andb snd].
    split; [|split; [|split; [|split]]].
    4, 5: unfold startTest; destruct (aiClient r), (streamRef r);
      reflexivity.
    all: destruct (startTest_entry r) as (rest & -> & H1 & H2 & H3 & H4);
      cbn [app].
    + rewrite !count_cons, H1. reflexivity.
    + rewrite !count_cons, H2. reflexivity.
    + cbn [statusWrites flat_map app]. fold (statusWrites rest).
      rewrite H4. reflexivity.
  - intros [Hs | Ht].
    + replace (Status_eqb (status w) SECURE) with false
        by (destruct (status w); first [reflexivity|congruence]).
      reflexivity.
    + rewrite Ht. cbn [negb]. rewrite andb_false_r. reflexivity.
Qed.

(** X27. The first fix sets the home location, as the closure of the
    watch sees it.  Without a registered watch a fix reaches no callback.
    Through a watch whose closure reads no home location, a fix writes
    its coordinates as the home location and SECURE as the status,
    whatever the state holds by then.  Once the state, the last render
    and the watch hold a home location, no event of a run writes the
    home location again. *)
Theorem first_fix_sets_home (s : State) (r : Refs)
    (latitude longitude : number) :
  (watch r = None -> handle (position latitude longitude) s r = (r, [])) /\
  (forall w, watch r = Some w -> homeLocation w = None ->
     let effs := snd (handle (position latitude longitude) s r) in
     handle (position latitude longitude) s r
     = (r, [setHomeLocation (mkLocation latitude longitude);
            setStatus SECURE]) /\
     homeLocation (commit s effs) = Some (mkLocation latitude longitude) /\
     status (commit s effs) = SECURE) /\
  (forall home evs,
     home_established home (s, r) ->
     Forall (fun se =>
               count is_setHomeLocation (fst se) = 0%nat /\
               forall a', snd se = Some a' ->
                          homeLocation (fst a') = Some home)
            (run evs (s, r))).
Proof.
  split; [|split].
  - intros Hw. cbn [handle]. rewrite Hw. reflexivity.
  - intros w Hw Hh. cbn zeta. cbn [handle]. rewrite Hw. unfold onPosition.
    rewrite Hh. repeat split.
  - intros home evs Hh.
    assert (H : Forall
                  (fun se =>
                     count is_setHomeLocation (fst se) = 0%nat /\
                     forall a', snd se = Some a' -> home_established home a')
                  (run evs (s, r))).
    { apply (run_invariant (home_established home) (fun _ => True)
               (fun effs => count is_setHomeLocation effs = 0%nat)); auto.
      - intros ev a' Hh' _. apply step_home_established. exact Hh'.
      - apply Forall_forall. trivial. }
    eapply Forall_impl; [|exact H]. intros se [K1 K2].
    split; [exact K1|]. intros a' Ha'. exact (proj1 (K2 a' Ha')).
Qed.

End WithMath.

(** *** The playback scheduler *)

Lemma Math_max_nonneg a b :
  (0 <=? a) = true -> (0 <=? b) = true -> (0 <=? Math_max a b) = true.
Proof.
  intros Ha Hb.
  destruct (Math_max_cases a b (leb_nan_r _ _ Ha) (leb_nan_r _ _ Hb))
    as [[-> _] | [-> _]]; assumption.
Qed.

Lemma schedule_step now d r :
  (0 <=? now) = true -> (0 <=? d) = true ->
  (0 <=? nextStartTimeRef r) = true ->
  fst (schedule now d r) = Math_max now (nextStartTimeRef r) /\
  nextStartTimeRef (snd (schedule now d r)) = fst (schedule now d r) + d /\
  (nextStartTimeRef r <=? fst (schedule now d r)) = true /\
  (fst (schedule now d r) <=? fst (schedule now d r) + d) = true /\
  (0 <=? nextStartTimeRef (snd (schedule now d r))) = true.
Proof.
  intros Hn Hd Hr. cbn [schedule fst snd set_nextStartTimeRef nextStartTimeRef].
  pose proof (Math_max_nonneg _ _ Hn Hr) as Hs.
  pose proof (add_ge_l _ _ Hs Hd) as Hle.
  repeat split; trivial.
  - destruct (Math_max_cases now (nextStartTimeRef r)
                (leb_nan_r _ _ Hn) (leb_nan_r _ _ Hr)) as [[-> H] | [-> H]];
      [assumption|apply leb_refl, (leb_nan_r _ _ Hr)].
  - exact (leb_trans _ _ _ Hs Hle).
Qed.

Lemma playback_cons now d rest r :
  playback ((now, d) :: rest) r =
  fst (schedule now d r) :: playback rest (snd (schedule now d r)).
Proof. reflexivity. Qed.

Lemma playback_head clips : forall r now d start,
  Forall clip_ok clips -> (0 <=? nextStartTimeRef r) = true ->
  hd_error clips = Some (now, d) ->
  hd_error (playback clips r) = Some start ->
  start = Math_max now (nextStartTimeRef r).
Proof.
  intros r now d start Hok Hr Hc Hs.
  destruct clips as [|[now0 d0] rest]; [discriminate|].
  rewrite playback_cons in Hs. cbn in Hc, Hs. congruence.
Qed.

Lemma playback_consecutive clips : forall r i now d now' d' start,
  Forall clip_ok clips -> (0 <=? nextStartTimeRef r) = true ->
  nth_error clips i = Some (now, d) ->
  nth_error clips (S i) = Some (now', d') ->
  nth_error (playback clips r) i = Some start ->
  nth_error (playback clips r) (S i) = Some (Math_max now' (start + d)) /\
  (start + d <=? Math_max now' (start + d)) = true /\
  (start <=? Math_max now' (start + d)) = true.
Proof.
  induction clips as [|[now0 d0] rest IH];
    intros r i now d now' d' start Hok Hr Hi Hi' Hs; [destruct i; discriminate|].
  inversion Hok as [|? ? [Hn0 Hd0] Hrest]; subst. cbn [fst snd] in Hn0, Hd0.
  destruct (schedule_step now0 d0 r Hn0 Hd0 Hr) as (E1 & E2 & L1 & L2 & L3).
  rewrite playback_cons in *.
  destruct i as [|i].
  - cbn [nth_error] in Hi, Hs. injection Hi as -> ->. injection Hs as <-.
    destruct rest as [|[now1 d1] rest']; [discriminate|].
    cbn [nth_error] in Hi'. injection Hi' as -> ->.
    inversion Hrest as [|? ? [Hn1 Hd1] _]; subst. cbn [fst snd] in Hn1, Hd1.
    destruct (schedule_step now' d' _ Hn1 Hd1 L3) as (F1 & _ & F3 & _ & _).
    rewrite playback_cons. cbn [nth_error]. rewrite F1, E2 in F3 |- *.
    split; [reflexivity|].
    split; [exact F3 | exact (leb_trans _ _ _ L2 F3)].
  - cbn [nth_error] in Hi, Hs, Hi' |- *.
    apply (IH _ i now d now' d' start Hrest L3 Hi Hi' Hs).
Qed.

Lemma playback_length clips : forall r,
  List.length (playback clips r) = List.length clips.
Proof.
  induction clips as [|[now d] rest IH]; intros r; [reflexivity|].
  rewrite playback_cons. cbn [List.length]. rewrite IH. reflexivity.
Qed.

(** C5. Clips are given start times in arrival order, one each.  The
    first starts at max(now, nextStartTime); every later clip starts at
    the maximum of its scheduling time and the end (start + duration) of
    the clip before it, which is not before that end (no overlap) and not
    before that clip's start (no reordering).  Three clips of 1.0 s,
    0.5 s and 2.0 s scheduled at time 0 start at 0.0, 1.0 and 1.5. *)
Theorem playback_in_order (clips : list (number * number)) (r : Refs) :
  Forall clip_ok clips ->
  (0 <=? nextStartTimeRef r) = true ->
  List.length (playback clips r) = List.length clips /\
  (forall now d start,
      hd_error clips = Some (now, d) ->
      hd_error (playback clips r) = Some start ->
      start = Math_max now (nextStartTimeRef r)) /\
  (forall i now d now' d' start,
      nth_error clips i = Some (now, d) ->
      nth_error clips (S i) = Some (now', d') ->
      nth_error (playback clips r) i = Some start ->
      nth_error (playback clips r) (S i) = Some (Math_max now' (start + d)) /\
      (start + d <=? Math_max now' (start + d)) = true /\
      (start <=? Math_max now' (start + d)) = true) /\
  playback three_clips initialRefs = [0; 1; 1.5].
Proof.
  intros Hok Hr. split; [apply playback_length|]. split; [|split].
  - intros now d start. apply playback_head; assumption.
  - intros i now d now' d' start. apply playback_consecutive; assumption.
  - reflexivity.
Qed.

Lemma playback_in_order_witness :
  playback three_clips initialRefs = [0; 1; 1.5].
Proof.
  refine (proj2 (proj2 (proj2 (playback_in_order
            three_clips initialRefs _ _)))).
  - repeat constructor.
  - reflexivity.
Defined.

(** *** Concrete runs *)

Lemma no_api_key_no_session_witness :
  aiClient (snd (load None)) = None.
Proof.
  exact (proj1 (no_api_key_no_session (M := SmallAngle)
                  (W := Platform.Nominal) None
                  [click_initialize; media_settled (Granted 1%nat)]
                  eq_refl)).
Defined.


Lemma far_fix_reads_closure_witness :
  statusWrites
    (snd (handle (M := SmallAngle) (W := Platform.Nominal)
            (position north_lat home_lon) testing
            (watching secure_at_home)))
  = [VIOLATION; TESTING].
Proof.
  refine (proj1 (proj2 (proj2
            (proj1 (far_fix_reads_closure (M := SmallAngle)
                      (W := Platform.Nominal) testing
                      (watching secure_at_home) secure_at_home austin
                      north_lat home_lon _ _ _) _)))).
  - reflexivity.
  - reflexivity.
  - vm_compute. reflexivity.
  - split; reflexivity.
Defined.

Lemma first_fix_sets_home_witness :
  handle (M := SmallAngle) (W := Platform.Nominal)
         (position home_lat home_lon) awaiting_fix (watching awaiting_fix)
  = (watching awaiting_fix, [setHomeLocation austin; setStatus SECURE]).
Proof.
  refine (proj1 (proj1 (proj2
            (first_fix_sets_home (M := SmallAngle) (W := Platform.Nominal)
               awaiting_fix (watching awaiting_fix) home_lat home_lon))
            awaiting_fix _ _)).
  - reflexivity.
  - reflexivity.
Defined.

(** The scenario of the specification, React rendering and
    re-subscribing between the fixes: the first fix registers home and
    secures the perimeter; a fix about 110 ft north triggers the test; a
    second such fix, reaching the watch of the TESTING render, triggers
    nothing. *)
Example departure_scenario :
  map (fun se => (statusWrites (fst se),
                  count is_invoke_startTest (fst se),
                  option_map (fun a => status (fst a)) (snd se)))
      (run (M := SmallAngle) (W := Platform.Nominal)
           (settled
              [click_initialize; media_settled (Granted 7%nat);
               position home_lat home_lon; position north_lat home_lon;
               position north_lat home_lon])
           (load (Some "key"%string)))
  = [([], 0%nat, Some STANDBY); ([], 0%nat, Some STANDBY);
     ([], 0%nat, Some STANDBY);
     ([], 0%nat, Some STANDBY); ([], 0%nat, Some STANDBY);
     ([], 0%nat, Some STANDBY);
     ([], 0%nat, Some STANDBY); ([], 0%nat, Some STANDBY);
     ([SECURE], 0%nat, Some SECURE);
     ([], 0%nat, Some SECURE); ([], 0%nat, Some SECURE);
     ([VIOLATION; TESTING], 1%nat, Some TESTING);
     ([], 0%nat, Some TESTING); ([], 0%nat, Some TESTING);
     ([], 0%nat, Some TESTING)].
Proof. vm_compute. reflexivity. Qed.

(** C3, where it fails: two fixes about 110 ft from home delivered back
    to back, before React has rendered the updates of the first.  The
    first writes VIOLATION and then, in [startTest], TESTING: the state
    it leaves is TESTING, and VIOLATION is never the mode.  The second
    reaches the same watch, whose closure still reads SECURE and no
    active test, so with the mode already TESTING it writes VIOLATION
    again and enters [startTest] a second time: two sessions are
    connected and four audio contexts created. *)
Theorem second_far_fix_restarts_test :
  map (fun se => (statusWrites (fst se),
                  count is_invoke_startTest (fst se),
                  option_map (fun a => status (fst a)) (snd se)))
      (run (M := SmallAngle) (W := Platform.Nominal)
           two_far_fixes (load (Some "key"%string)))
  = [([], 0%nat, Some STANDBY); ([], 0%nat, Some STANDBY);
     ([], 0%nat, Some STANDBY); ([], 0%nat, Some STANDBY);
     ([SECURE], 0%nat, Some SECURE);
     ([], 0%nat, Some SECURE); ([], 0%nat, Some SECURE);
     ([VIOLATION; TESTING], 1%nat, Some TESTING);
     ([VIOLATION; TESTING], 1%nat, Some TESTING)] /\
  (let effs := trace (M := SmallAngle) (W := Platform.Nominal)
                     two_far_fixes (load (Some "key"%string)) in
   count is_setViolation effs = 2%nat /\
   count is_invoke_startTest effs = 2%nat /\
   count is_live_connect effs = 2%nat /\
   count is_new_AudioContext effs = 4%nat).
Proof. vm_compute. repeat split. Qed.

(** C6, where it fails: two fixes delivered back to back once the system
    is started, before React has rendered the home location the first
    one set.  Both reach the watch whose closure reads no home location;
    each writes it, and the home location ends as the second fix. *)
Theorem second_fix_overwrites_home :
  map (fun se => (count is_setHomeLocation (fst se),
                  option_map (fun a => homeLocation (fst a)) (snd se)))
      (run (M := SmallAngle) (W := Platform.Nominal)
           two_first_fixes (load None))
  = [(0%nat, Some None); (0%nat, Some None); (0%nat, Some None);
     (1%nat, Some (Some austin));
     (1%nat, Some (Some (mkLocation jitter_lat home_lon)))] /\
  count is_setHomeLocation
    (trace (M := SmallAngle) (W := Platform.Nominal)
           two_first_fixes (load None)) = 2%nat.
Proof. vm_compute. repeat split. Qed.

(** The closure matters for C4: after [stale_home_fixes] the state holds
    the home location [north] and the registered watch [austin]; a fix at
    [north], at distance 0 from the home location of the state, is
    measured from [austin], queues VIOLATION and starts the test. *)
Example stale_home_starts_test :
  option_map (fun a => (homeLocation (fst a), status (fst a),
                        option_map homeLocation (watch (snd a))))
    (exec (M := SmallAngle) (W := Platform.Nominal)
          stale_home_fixes (load (Some "key"%string)))
  = Some (Some north, SECURE, Some (Some austin)) /\
  near (M := SmallAngle) north (position north_lat home_lon) /\
  map (fun se => (statusWrites (fst se),
                  count is_invoke_startTest (fst se),
                  option_map (fun a => status (fst a)) (snd se)))
      (run (M := SmallAngle) (W := Platform.Nominal)
           (stale_home_fixes ++ [position north_lat home_lon])
           (load (Some "key"%string)))
  = [([], 0%nat, Some STANDBY); ([], 0%nat, Some STANDBY);
     ([], 0%nat, Some STANDBY); ([], 0%nat, Some STANDBY);
     ([SECURE], 0%nat, Some SECURE); ([], 0%nat, Some SECURE);
     ([SECURE], 0%nat, Some SECURE); ([], 0%nat, Some SECURE);
     ([VIOLATION; TESTING], 1%nat, Some TESTING)].
Proof. vm_compute. repeat split. Qed.

(** C1, at a run the device can produce: six samples with the phone
    upright (beta = 90) bring the score from 100 to 94; laid flat again,
    the target is 100, the score is more than 5 away from it, and every
    further sample subtracts 1; after 95 of them the score is -1, outside
    [0, 100]. *)
Theorem stability_score_leaves_range :
  option_map (fun a => stabilityScore (fst a))
             (exec (M := SmallAngle) (W := Platform.Nominal)
                   upright_then_flat (load None))
  = Some (-1).
Proof. vm_compute. reflexivity. Qed.

End AppFacts.

(* ================================================================== *)
(** ** The audio codec beyond the round trip: wire format, failure
       cases, de-interleaving *)

Module CodecFacts.

Import Audio IEEE AudioFacts Scenario.

Local Open Scope Z_scope.

(** *** Every 16-bit sample, by evaluation *)

Lemma forall_from_spec n : forall lo p,
  forall_from n lo p = true ->
  forall v, lo <= v < lo + Z.of_nat n -> p v = true.
Proof.
  induction n as [|n IH]; intros lo p H v Hv; [lia|].
  cbn [forall_from] in H. apply andb_prop in H. destruct H as [H0 H1].
  destruct (Z.eq_dec v lo) as [->|Hne]; [exact H0|].
  apply (IH (lo + 1) p H1). lia.
Qed.

Lemma int16_sample_check :
  forall_from (Z.to_nat 65536) (-32768)
    (fun v => (ToInt16 (of_Z v / 32768 * 32768)%float =? v)
              && (-1 <=? of_Z v / 32768)%float
              && (of_Z v / 32768 <? 1)%float) = true.
Proof. vm_compute. reflexivity. Qed.

(** A 16-bit sample [v] decodes to [v / 32768], a number in [-1, 1) that
    encodes back to [v]. *)
Lemma int16_sample v :
  int16_range v ->
  ToInt16 (of_Z v / 32768 * 32768)%float = v /\
  (-1 <=? of_Z v / 32768)%float = true /\
  (of_Z v / 32768 <? 1)%float = true.
Proof.
  unfold int16_range. intros Hv.
  pose proof (forall_from_spec _ _ _ int16_sample_check v) as H.
  cbv beta in H. rewrite Z2Nat.id in H by lia. specialize (H ltac:(lia)).
  apply andb_prop in H. destruct H as [H H3].
  apply andb_prop in H. destruct H as [H1 H2].
  apply Z.eqb_eq in H1. auto.
Qed.

(** *** Bytes and 16-bit views *)

Lemma list_ind2 (A : Type) (P : list A -> Prop) :
  P [] -> (forall a, P [a]) -> (forall a b l, P l -> P (a :: b :: l)) ->
  forall l, P l.
Proof.
  intros H0 H1 H2 l.
  assert (H : P l /\ forall a, P (a :: l)).
  { induction l as [|x l [IH0 IH1]]; [auto|].
    split; [apply IH1|]. intros a. apply H2, IH0. }
  apply H.
Qed.

Lemma byte_range_Forall bytes :
  Forall byte_range bytes -> Forall (fun b => 0 <= b < 256) bytes.
Proof. intros H. eapply Forall_impl; [|exact H]. intros b Hb. exact Hb. Qed.

Lemma int16_of_bytes_range lo hi :
  byte_range lo -> byte_range hi -> int16_range (int16_of_bytes lo hi).
Proof.
  unfold byte_range, int16_range, int16_of_bytes. intros Hlo Hhi.
  destruct (Z.leb_spec 32768 (lo + 256 * hi)); lia.
Qed.

Lemma int16_bytes_of_bytes lo hi :
  byte_range lo -> byte_range hi ->
  int16_bytes (int16_of_bytes lo hi) = [lo; hi].
Proof.
  unfold byte_range, int16_bytes, int16_of_bytes. intros Hlo Hhi.
  rewrite !land_255, Z.shiftr_div_pow2 by lia. change (2 ^ 8) with 256.
  destruct (Z.leb_spec 32768 (lo + 256 * hi));
    f_equal; [| f_equal | | f_equal]; Z.div_mod_to_equations; lia.
Qed.

Lemma int16_view_odd bytes :
  int16_view bytes = None <-> Nat.odd (List.length bytes) = true.
Proof.
  induction bytes as [|a|a b l IH] using list_ind2.
  - split; discriminate.
  - split; reflexivity.
  - cbn [int16_view List.length]. rewrite Nat.odd_succ_succ.
    rewrite <- IH. destruct (int16_view l); split; discriminate || auto.
Qed.

Lemma int16_view_length bytes : forall l,
  int16_view bytes = Some l ->
  List.length bytes = (2 * List.length l)%nat.
Proof.
  induction bytes as [|a|a b t IH] using list_ind2; intros l H.
  - injection H as <-. reflexivity.
  - discriminate.
  - cbn [int16_view] in H. destruct (int16_view t) as [l'|]; [|discriminate].
    injection H as <-. cbn [List.length]. rewrite (IH l' eq_refl). lia.
Qed.

Lemma int16_view_nth bytes : forall l k v,
  int16_view bytes = Some l -> nth_error l k = Some v ->
  exists lo hi,
    nth_error bytes (2 * k) = Some lo /\
    nth_error bytes (2 * k + 1) = Some hi /\
    v = int16_of_bytes lo hi.
Proof.
  induction bytes as [|a|a b t IH] using list_ind2; intros l k v H Hk.
  - injection H as <-. destruct k; discriminate.
  - discriminate.
  - cbn [int16_view] in H. destruct (int16_view t) as [l'|]; [|discriminate].
    injection H as <-. destruct k as [|k].
    + injection Hk as <-. exists a, b. auto.
    + cbn [nth_error] in Hk.
      destruct (IH l' k v eq_refl Hk) as (lo & hi & H1 & H2 & H3).
      exists lo, hi. replace (2 * S k)%nat with (S (S (2 * k))) by lia.
      cbn [nth_error Nat.add]. auto.
Qed.

Lemma int16_view_range bytes : forall l,
  Forall byte_range bytes -> int16_view bytes = Some l ->
  Forall int16_range l /\ bytes_of_int16 l = bytes.
Proof.
  induction bytes as [|a|a b t IH] using list_ind2; intros l Hb H.
  - injection H as <-. split; [constructor|reflexivity].
  - discriminate.
  - cbn [int16_view] in H. destruct (int16_view t) as [l'|]; [|discriminate].
    injection H as <-.
    inversion Hb as [|? ? Ha Hb']; subst. inversion Hb' as [|? ? Hb0 Ht]; subst.
    destruct (IH l' Ht eq_refl) as [IH1 IH2]. split.
    + constructor; [apply int16_of_bytes_range; assumption|assumption].
    + unfold bytes_of_int16 in *. cbn [flat_map].
      rewrite IH2, int16_bytes_of_bytes by assumption. reflexivity.
Qed.

Lemma bytes_of_int16_length l :
  List.length (bytes_of_int16 l) = (2 * List.length l)%nat.
Proof.
  unfold bytes_of_int16. induction l as [|v l IH]; [reflexivity|].
  cbn [flat_map int16_bytes app List.length]. rewrite IH. lia.
Qed.

(** *** Strings *)

Lemma string_length_of_list l :
  String.length (string_of_list_ascii l) = List.length l.
Proof.
  induction l as [|c l IH]; [reflexivity|]. cbn. rewrite IH. reflexivity.
Qed.

Lemma string_length_list s :
  String.length s = List.length (list_ascii_of_string s).
Proof.
  induction s as [|c s IH]; [reflexivity|]. cbn. rewrite IH. reflexivity.
Qed.

Lemma list_ascii_of_string_app s t :
  list_ascii_of_string (String.append s t) =
  (list_ascii_of_string s ++ list_ascii_of_string t)%list.
Proof.
  induction s as [|c s IH]; [reflexivity|]. cbn. rewrite IH. reflexivity.
Qed.

Lemma btoa_list_length l :
  Z.of_nat (List.length (btoa_list l))
  = 4 * ((Z.of_nat (List.length l) + 2) / 3).
Proof.
  induction l as [|a|a b|a b c rest IH] using list_ind3;
    try reflexivity.
  cbn [btoa_list List.length]. rewrite !Nat2Z.inj_succ, IH.
  Z.div_mod_to_equations; lia.
Qed.

(** *** [createBlob] *)

Lemma truncate_non_finite x : is_finite x = false -> truncate x = 0.
Proof.
  rewrite is_finite_spec. unfold truncate.
  destruct (Prim2SF x); cbn; congruence.
Qed.

Lemma mul_non_finite x y :
  is_finite x = false -> is_finite (x * y)%float = false.
Proof.
  rewrite !is_finite_spec, mul_spec.
  destruct (Prim2SF x) as [| | |]; cbn; try congruence;
    destruct (Prim2SF y); reflexivity.
Qed.

(** X2. [createBlob] never fails and always produces a well-formed
    payload: tagged audio/pcm;rate=16000; of 4 * ceil(2n / 3) characters
    for a frame of n samples; decoding to exactly 2n bytes, the
    little-endian 16-bit conversions of the scaled samples; a NaN or
    infinite sample is sent as 0. *)
Theorem createBlob_payload (samples : Float32Array) :
  let bytes :=
    bytes_of_int16 (map (fun x => ToInt16 (x * 32768)%float) samples) in
  mimeType (createBlob samples) = "audio/pcm;rate=16000"%string /\
  decode (Audio.data (createBlob samples)) = Some bytes /\
  List.length bytes = (2 * List.length samples)%nat /\
  Z.of_nat (String.length (Audio.data (createBlob samples)))
  = 4 * ((2 * Z.of_nat (List.length samples) + 2) / 3) /\
  Forall (fun x => is_finite x = false -> ToInt16 (x * 32768)%float = 0)
         samples.
Proof.
  cbv zeta. split; [reflexivity|]. split; [|split; [|split]].
  - unfold createBlob. cbn [Audio.data]. apply decode_btoa.
    apply bytes_of_int16_range.
  - rewrite bytes_of_int16_length, length_map. reflexivity.
  - unfold createBlob, btoa. cbn [Audio.data].
    rewrite string_length_of_list, btoa_list_length.
    rewrite list_ascii_of_string_of_list_ascii, length_map,
      bytes_of_int16_length, length_map.
    rewrite Nat2Z.inj_mul. reflexivity.
  - apply Forall_forall. intros x _ Hx. unfold ToInt16.
    rewrite truncate_non_finite by (apply mul_non_finite; exact Hx).
    reflexivity.
Qed.

(** *** [decode] *)

Lemma list_ind4 (A : Type) (P : list A -> Prop) :
  P [] -> (forall a, P [a]) -> (forall a b, P [a; b]) ->
  (forall a b c, P [a; b; c]) ->
  (forall a b c d rest, P rest -> P (a :: b :: c :: d :: rest)) ->
  forall l, P l.
Proof.
  intros H0 H1 H2 H3 H4 l.
  assert (H : P l /\ (forall a, P (a :: l)) /\ (forall a b, P (a :: b :: l))
              /\ (forall a b c, P (a :: b :: c :: l))).
  { induction l as [|x l (IH0 & IH1 & IH2 & IH3)]; [auto|].
    split; [apply IH1|]. split; [intros a; apply IH2|].
    split; [intros a b; apply IH3|].
    intros a b c. apply H4, IH0. }
  apply H.
Qed.

Lemma pad_no_value c : is_pad c = true -> b64_value c = None.
Proof.
  unfold is_pad, b64_value. intros H. apply Z.eqb_eq in H. rewrite H.
  reflexivity.
Qed.

Lemma base64_decode_cons4 a b c d e rest :
  base64_decode (a :: b :: c :: d :: e :: rest) =
  match b64_value a, b64_value b, b64_value c, b64_value d,
        base64_decode (e :: rest) with
  | Some v0, Some v1, Some v2, Some v3, Some out =>
      let n := ((v0 * 64 + v1) * 64 + v2) * 64 + v3 in
      Some (fromCharCode (n / 65536) ::
            fromCharCode ((n / 256) mod 256) ::
            fromCharCode (n mod 256) :: out)
  | _, _, _, _, _ => None
  end.
Proof. reflexivity. Qed.

Lemma base64_decode_symbols l : forall out,
  base64_decode l = Some out -> forallb b64_symbol l = true.
Proof.
  induction l as [|a|a b|a b c|a b c d rest IH] using list_ind4; intros out H.
  - reflexivity.
  - discriminate.
  - cbn [base64_decode] in H. cbn [forallb]. unfold b64_symbol.
    destruct (b64_value a), (b64_value b); try discriminate. reflexivity.
  - cbn [base64_decode] in H. cbn [forallb]. unfold b64_symbol.
    destruct (b64_value a), (b64_value b), (b64_value c); try discriminate.
    reflexivity.
  - destruct rest as [|e rest'].
    + cbn [base64_decode] in H. cbn [forallb]. unfold b64_symbol.
      destruct (b64_value a); [|discriminate].
      destruct (b64_value b); [|discriminate].
      destruct (is_pad c) eqn:Pc, (is_pad d) eqn:Pd; cbn [andb] in H.
      * rewrite (pad_no_value c Pc), (pad_no_value d Pd). reflexivity.
      * destruct (b64_value c); [|discriminate].
        destruct (b64_value d); [|discriminate]. reflexivity.
      * destruct (b64_value c); [|discriminate].
        rewrite (pad_no_value d Pd). reflexivity.
      * destruct (b64_value c); [|discriminate].
        destruct (b64_value d); [|discriminate]. reflexivity.
    + rewrite base64_decode_cons4 in H.
      change (forallb b64_symbol (a :: b :: c :: d :: e :: rest'))
        with (b64_symbol a && (b64_symbol b && (b64_symbol c &&
              (b64_symbol d && forallb b64_symbol (e :: rest'))))).
      unfold b64_symbol at 1 2 3 4.
      destruct (b64_value a); [|discriminate].
      destruct (b64_value b); [|discriminate].
      destruct (b64_value c); [|discriminate].
      destruct (b64_value d); [|discriminate].
      destruct (base64_decode (e :: rest')) as [o|]; [|discriminate].
      cbn [andb]. apply (IH o eq_refl).
Qed.

Lemma base64_decode_length l : forall out,
  base64_decode l = Some out -> (List.length l mod 4 <> 1)%nat.
Proof.
  induction l as [|a|a b|a b c|a b c d rest IH] using list_ind4; intros out H;
    try (cbn; lia); try discriminate.
  destruct rest as [|e rest']; [cbn; lia|].
  assert (E : exists o, base64_decode (e :: rest') = Some o).
  { rewrite base64_decode_cons4 in H.
    destruct (b64_value a), (b64_value b), (b64_value c), (b64_value d),
      (base64_decode (e :: rest')); try discriminate. eauto. }
  destruct E as [o Ho]. specialize (IH o Ho).
  change (List.length (a :: b :: c :: d :: e :: rest'))
    with (4 + List.length (e :: rest'))%nat.
  rewrite Nat.add_comm, <- (Nat.mul_1_l 4) at 1.
  rewrite Nat.Div0.mod_add. exact IH.
Qed.

(** X3. [decode] inverts [btoa]: whatever binary string is encoded, its
    base64 form decodes to exactly the bytes of the string, each in
    [0, 255]. *)
Theorem decode_inverts_btoa (binary : string) :
  decode (btoa binary) = Some (map code (list_ascii_of_string binary)) /\
  Forall byte_range (map code (list_ascii_of_string binary)).
Proof.
  split.
  - unfold decode. rewrite atob_btoa_string. reflexivity.
  - apply Forall_map, Forall_forall. intros c _. apply code_range.
Qed.

(** X4. [decode] does not guard against a malformed payload: for a
    payload without white space, a character that is neither a base64
    digit nor the padding sign, or a length of 1 modulo 4, makes [atob]
    throw, and [decode] with it. *)
Theorem decode_rejects_malformed (base64 : string) :
  forallb (fun c => negb (is_space c)) (list_ascii_of_string base64) = true ->
  forallb b64_symbol (list_ascii_of_string base64) = false \/
  (String.length base64 mod 4 = 1)%nat ->
  decode base64 = None.
Proof.
  intros Hs H. unfold decode, atob. rewrite (filter_no_space _ Hs).
  destruct (base64_decode (list_ascii_of_string base64)) as [out|] eqn:E;
    [|reflexivity].
  exfalso. destruct H as [H|H].
  - rewrite (base64_decode_symbols _ out E) in H. discriminate.
  - apply base64_decode_length in E. apply E.
    rewrite <- string_length_list. exact H.
Qed.

Lemma decode_rejects_malformed_witness :
  decode "AB!D" = None.
Proof.
  apply (decode_rejects_malformed "AB!D").
  - reflexivity.
  - left. reflexivity.
Defined.

(** White space is skipped and the padding may be left out: the three
    payloads decode to the same two bytes. *)
Example decode_forgiving :
  decode "AIA=" = Some [0; 128]%Z /\
  decode "AI A=" = Some [0; 128]%Z /\
  decode " AIA" = Some [0; 128]%Z.
Proof. vm_compute. repeat split. Qed.

(** *** [decodeAudioData] *)

Lemma channelData_length d c f ch : List.length (channelData d c f ch) = f.
Proof. unfold channelData. rewrite length_map, length_seq. reflexivity. Qed.

Lemma channelData_nth d c f ch i :
  (i < f)%nat -> (i * c + ch < List.length d)%nat ->
  exists v, nth_error d (i * c + ch) = Some v /\
            nth_error (channelData d c f ch) i = Some (of_Z v / 32768)%float.
Proof.
  intros Hi Hd. unfold channelData.
  destruct (nth_error d (i * c + ch)) as [v|] eqn:E.
  - exists v. split; [reflexivity|].
    rewrite nth_error_map, nth_error_seq.
    destruct (Nat.ltb_spec i f); [|lia]. cbn. rewrite E. reflexivity.
  - apply nth_error_None in E. lia.
Qed.

Lemma createBuffer_accepts_iff {W : WebAudio} c f rate :
  createBuffer_accepts c f rate = true <->
  c <> 0%nat /\ f <> 0%nat /\ (c <= maxChannels)%nat /\
  supportsSampleRate rate = true.
Proof.
  unfold createBuffer_accepts.
  rewrite !andb_true_iff, !negb_true_iff, !Nat.eqb_neq, Nat.leb_le.
  tauto.
Qed.

Lemma decodeAudioData_eq {W : WebAudio} data rate c :
  decodeAudioData data rate c =
  match int16_view data with
  | None => None
  | Some dataInt16 =>
      if createBuffer_accepts c (List.length dataInt16 / c) rate then
        Some (mkAudioBuffer c (List.length dataInt16 / c) (ToFloat32 rate)
                (map (channelData dataInt16 c (List.length dataInt16 / c))
                     (seq 0 c)))
      else None
  end.
Proof. reflexivity. Qed.

Lemma decodeAudioData_rate {W : WebAudio} data rate c b :
  decodeAudioData data rate c = Some b -> sampleRate b = ToFloat32 rate.
Proof.
  rewrite decodeAudioData_eq. destruct (int16_view data); [|discriminate].
  destruct (createBuffer_accepts _ _ _); [|discriminate].
  intros [= <-]. reflexivity.
Qed.

(** X5. [decodeAudioData] fails (the typed-array view or [createBuffer]
    throws) exactly when the byte count is odd, the channel count is 0,
    there are fewer 16-bit samples than channels (an empty payload is
    that case), the platform has fewer channels than asked for, or it
    does not support the sample rate.  A rate that is not a finite number
    above 0 fails on every platform; at a rate from 8000 to 96000 and
    with at most 32 channels only the first three cases are left. *)
Theorem decodeAudioData_fails_iff {W : WebAudio} (data : Uint8Array)
    (rate : number) (numChannels : nat) :
  (decodeAudioData data rate numChannels = None <->
   Nat.odd (List.length data) = true \/ numChannels = 0%nat \/
   (List.length data / 2 < numChannels)%nat \/
   (maxChannels < numChannels)%nat \/ supportsSampleRate rate = false) /\
  (is_finite rate = false \/ (0 <? rate)%float = false ->
   decodeAudioData data rate numChannels = None) /\
  ((8000 <=? rate)%float = true -> (rate <=? 96000)%float = true ->
   (numChannels <= 32)%nat ->
   (decodeAudioData data rate numChannels = None <->
    Nat.odd (List.length data) = true \/ numChannels = 0%nat \/
    (List.length data / 2 < numChannels)%nat)).
Proof.
  assert (Main : decodeAudioData data rate numChannels = None <->
            Nat.odd (List.length data) = true \/ numChannels = 0%nat \/
            (List.length data / 2 < numChannels)%nat \/
            (maxChannels < numChannels)%nat \/
            supportsSampleRate rate = false).
  { rewrite decodeAudioData_eq.
    destruct (int16_view data) as [l|] eqn:E.
    - pose proof (int16_view_length data l E) as Hlen.
      assert (Hodd : Nat.odd (List.length data) = false).
      { destruct (Nat.odd (List.length data)) eqn:O; [|reflexivity].
        apply int16_view_odd in O. congruence. }
      assert (Hhalf : (List.length data / 2 = List.length l)%nat).
      { rewrite Hlen, Nat.mul_comm. apply Nat.div_mul. lia. }
      rewrite Hodd, Hhalf.
      destruct (createBuffer_accepts numChannels
                  (List.length l / numChannels) rate) eqn:G.
      + apply createBuffer_accepts_iff in G.
        destruct G as (Gc & Gf & Gm & Gr).
        split; [discriminate|].
        intros [H|[H|[H|[H|H]]]]; try discriminate; try contradiction;
          try lia; try congruence.
        apply Nat.div_small_iff in H; [contradiction|assumption].
      + split; [intros _|reflexivity].
        destruct (Nat.eq_dec numChannels 0) as [Hc|Hc]; [auto|].
        destruct (Nat.eq_dec (List.length l / numChannels) 0) as [Hf|Hf].
        { right; right; left. apply Nat.div_small_iff in Hf; assumption. }
        destruct (le_lt_dec numChannels maxChannels) as [Hm|Hm]; [|auto].
        destruct (supportsSampleRate rate) eqn:Hr; [|auto 6].
        exfalso. assert (createBuffer_accepts numChannels
                           (List.length l / numChannels) rate = true)
          by (apply createBuffer_accepts_iff; auto).
        congruence.
    - split; [intros _|reflexivity]. left. apply int16_view_odd. exact E. }
  split; [exact Main|]. split.
  - intros Hr. apply Main. right; right; right; right.
    destruct (supportsSampleRate rate) eqn:S; [|reflexivity].
    destruct (supports_positive_rates_only rate S) as [H1 H2].
    destruct Hr; congruence.
  - intros Hlo Hhi Hc. rewrite Main.
    pose proof (supports_nominal_rates rate Hlo Hhi) as Hr.
    pose proof supports_32_channels.
    split; [|tauto].
    intros [H0|[H0|[H0|[H0|H0]]]]; auto; [lia|congruence].
Qed.

(** X6. A decoded buffer has the requested channel count and sample
    rate (the rate as binary32 holds it, which 16000 and 24000 are) and
    floor(bytes / 2 / channels) frames; sample [i] of channel
    [channel] is the little-endian 16-bit integer at bytes
    [2 (i * channels + channel)] and the next one, divided by 32768: the
    interleaved samples are dealt out to the channels, and no read falls
    outside the data. *)
Theorem decodeAudioData_deinterleaves {W : WebAudio} (data : Uint8Array)
    (rate : number) (numChannels : nat) (buffer : AudioBuffer) :
  decodeAudioData data rate numChannels = Some buffer ->
  numberOfChannels buffer = numChannels /\
  Audio.length buffer = (List.length data / 2 / numChannels)%nat /\
  sampleRate buffer = ToFloat32 rate /\
  List.length (channels buffer) = numChannels /\
  forall channel i,
    (channel < numChannels)%nat -> (i < Audio.length buffer)%nat ->
    exists lo hi,
      nth_error data (2 * (i * numChannels + channel)) = Some lo /\
      nth_error data (2 * (i * numChannels + channel) + 1) = Some hi /\
      option_map (fun samples => nth_error samples i)
                 (nth_error (channels buffer) channel)
      = Some (Some (of_Z (int16_of_bytes lo hi) / 32768)%float).
Proof.
  rewrite decodeAudioData_eq.
  destruct (int16_view data) as [l|] eqn:E; [|discriminate].
  pose proof (int16_view_length data l E) as Hlen.
  assert (Hhalf : (List.length data / 2 = List.length l)%nat).
  { rewrite Hlen, Nat.mul_comm. apply Nat.div_mul. lia. }
  destruct (createBuffer_accepts numChannels (List.length l / numChannels)
              rate) eqn:G; [|discriminate].
  apply createBuffer_accepts_iff in G. destruct G as (Gc & Gf & _).
  intros [= <-]. cbn [numberOfChannels Audio.length sampleRate channels].
  rewrite Hhalf, length_map, length_seq.
  repeat split; trivial.
  intros ch i Hch Hi.
  assert (Hin : (i * numChannels + ch < List.length l)%nat).
  { pose proof (Nat.Div0.mul_div_le (List.length l) numChannels). nia. }
  destruct (channelData_nth l numChannels (List.length l / numChannels)
              ch i Hi Hin) as (v & Hv & Hs).
  destruct (int16_view_nth data l _ v E Hv) as (lo & hi & H1 & H2 & ->).
  exists lo, hi. split; [exact H1|]. split; [exact H2|].
  rewrite nth_error_map, nth_error_seq.
  destruct (Nat.ltb_spec ch numChannels); [|lia]. cbn [option_map Nat.add].
  rewrite Hs. reflexivity.
Qed.

Lemma decodeAudioData_deinterleaves_witness :
  numberOfChannels stereo_buffer = 2%nat /\
  Audio.length stereo_buffer = (List.length stereo_bytes / 2 / 2)%nat.
Proof.
  pose proof (decodeAudioData_deinterleaves (W := Platform.Nominal)
                stereo_bytes 24000 2 stereo_buffer eq_refl) as H.
  split; [exact (proj1 H)|exact (proj1 (proj2 H))].
Defined.

(** X7. Every sample of a decoded buffer lies in [-1, 1): at least -1,
    below 1 and never NaN, whatever bytes arrive and for any channel
    count; each channel has as many samples as the buffer has frames. *)
Theorem decoded_samples_in_range {W : WebAudio} (data : Uint8Array)
    (rate : number) (numChannels : nat) (buffer : AudioBuffer) :
  Forall byte_range data ->
  decodeAudioData data rate numChannels = Some buffer ->
  Forall (fun samples =>
            List.length samples = Audio.length buffer /\
            Forall (fun x => (-1 <=? x)%float = true /\ (x <? 1)%float = true)
                   samples)
         (channels buffer).
Proof.
  intros Hb. rewrite decodeAudioData_eq.
  destruct (int16_view data) as [l|] eqn:E; [|discriminate].
  destruct (int16_view_range data l Hb E) as [Hr _].
  destruct (createBuffer_accepts numChannels (List.length l / numChannels)
              rate); [|discriminate].
  intros [= <-]. cbn [channels Audio.length].
  apply Forall_map, Forall_forall. intros ch Hch. apply in_seq in Hch.
  split; [apply channelData_length|].
  unfold channelData. apply Forall_map, Forall_forall. intros i Hi.
  apply in_seq in Hi.
  destruct (nth_error l (i * numChannels + ch)) as [v|] eqn:Ev.
  - apply nth_error_In in Ev. rewrite Forall_forall in Hr.
    destruct (int16_sample v (Hr v Ev)) as (_ & H1 & H2). auto.
  - apply nth_error_None in Ev.
    pose proof (Nat.Div0.mul_div_le (List.length l) numChannels). nia.
Qed.

Lemma decoded_samples_in_range_witness :
  Forall (fun samples =>
            List.length samples = Audio.length stereo_buffer /\
            Forall (fun x => (-1 <=? x)%float = true /\ (x <? 1)%float = true)
                   samples)
         (channels stereo_buffer).
Proof.
  apply (decoded_samples_in_range (W := Platform.Nominal)
           stereo_bytes 24000 2 stereo_buffer).
  - repeat constructor; discriminate.
  - reflexivity.
Defined.

(** X8. Decoding then encoding is the identity on mono payloads: the
    samples [decodeAudioData] produces from an even, non-zero number of
    bytes are encoded by [createBlob] to the base64 form of those very
    bytes. *)
Theorem decode_then_encode {W : WebAudio} (data : Uint8Array)
    (rate : number) (buffer : AudioBuffer) :
  Forall byte_range data ->
  decodeAudioData data rate 1 = Some buffer ->
  exists samples,
    channels buffer = [samples] /\
    List.length data = (2 * List.length samples)%nat /\
    Audio.data (createBlob samples)
    = btoa (string_of_list_ascii (map fromCharCode data)) /\
    decode (Audio.data (createBlob samples)) = Some data.
Proof.
  intros Hb. rewrite decodeAudioData_eq.
  destruct (int16_view data) as [l|] eqn:E; [|discriminate].
  destruct (int16_view_range data l Hb E) as [Hr Hbytes].
  pose proof (int16_view_length data l E) as Hlen.
  rewrite Nat.div_1_r.
  destruct (createBuffer_accepts 1 (List.length l) rate); [|discriminate].
  intros [= <-]. cbn [channels seq map].
  rewrite channelData_mono.
  eexists. split; [reflexivity|]. rewrite length_map.
  split; [exact Hlen|].
  assert (Hblob : Audio.data
                    (createBlob (map (fun v => (of_Z v / 32768)%float) l))
                  = btoa (string_of_list_ascii (map fromCharCode data))).
  { unfold createBlob. cbn [Audio.data]. rewrite map_map.
    replace (map (fun x => ToInt16 (of_Z x / 32768 * 32768)%float) l) with l.
    - rewrite Hbytes. reflexivity.
    - symmetry. rewrite <- (map_id l) at 2. apply map_ext_Forall.
      eapply Forall_impl; [|exact Hr]. intros v Hv. cbv beta.
      apply (int16_sample v Hv). }
  split; [exact Hblob|]. rewrite Hblob. apply decode_btoa.
  apply byte_range_Forall. exact Hb.
Qed.

Lemma decode_then_encode_witness :
  exists samples,
    channels mono_buffer = [samples] /\
    List.length mono_bytes = (2 * List.length samples)%nat /\
    Audio.data (createBlob samples)
    = btoa (string_of_list_ascii (map fromCharCode mono_bytes)) /\
    decode (Audio.data (createBlob samples)) = Some mono_bytes.
Proof.
  apply (decode_then_encode (W := Platform.Nominal)
           mono_bytes 24000 mono_buffer).
  - repeat constructor; discriminate.
  - reflexivity.
Defined.

(** X9. Encoding a frame and decoding it again fails exactly for the
    empty frame, whose payload is the empty string and has no frame to
    build a buffer from, and at a sample rate the platform does not
    support; at the rates of the program, 16000 and 24000, exactly for
    the empty frame. *)
Theorem roundtrip_fails_iff_empty {W : WebAudio} (samples : Float32Array)
    (rate : number) :
  (roundtrip samples rate = None <->
   samples = [] \/ supportsSampleRate rate = false) /\
  (roundtrip samples 16000 = None <-> samples = []) /\
  (roundtrip samples 24000 = None <-> samples = []).
Proof.
  assert (Main : forall r,
            roundtrip samples r = None <->
            samples = [] \/ supportsSampleRate r = false).
  { intros r. destruct samples as [|x rest].
    - split; [auto|reflexivity].
    - rewrite roundtrip_ToInt16 by discriminate.
      destruct (supportsSampleRate r); split; auto; try discriminate.
      intros [H|H]; discriminate. }
  split; [apply Main|].
  split; rewrite Main; [rewrite supports_16000|rewrite supports_24000];
    split; auto; intros [H|H]; first [assumption|discriminate].
Qed.

(** *** [blobToBase64] *)

Lemma split_comma_cons_other c rest :
  is_comma c = false ->
  split_comma (c :: rest) =
  (c :: hd [] (split_comma rest)) :: tl (split_comma rest).
Proof.
  intros H. cbn [split_comma]. rewrite H.
  destruct rest as [|d rest]; [reflexivity|].
  destruct (split_comma (d :: rest)) eqn:E; [|reflexivity].
  cbn [split_comma] in E. destruct (is_comma d); [discriminate|].
  destruct (split_comma rest); discriminate.
Qed.

Lemma split_comma_plain l :
  Forall (fun c => is_comma c = false) l -> split_comma l = [l].
Proof.
  induction 1 as [|c l Hc _ IH]; [reflexivity|].
  rewrite split_comma_cons_other, IH by assumption. reflexivity.
Qed.

Lemma split_comma_app p q :
  Forall (fun c => is_comma c = false) p ->
  split_comma (p ++ ","%char :: q) = p :: split_comma q.
Proof.
  induction 1 as [|c l Hc _ IH]; [reflexivity|].
  cbn [app]. rewrite split_comma_cons_other, IH by assumption. reflexivity.
Qed.

Lemma b64_char_no_comma n : is_comma (b64_char n) = false.
Proof.
  unfold b64_char.
  assert (H : forall s k,
             Forall (fun c => is_comma c = false) (list_ascii_of_string s) ->
             is_comma (match String.get k s with
                       | Some c => c
                       | None => "="%char
                       end) = false).
  { induction s as [|c s IH]; intros k Hs; [reflexivity|].
    cbn [list_ascii_of_string] in Hs. inversion Hs; subst.
    destruct k; cbn [String.get]; auto. }
  apply H. unfold b64_alphabet. cbn [list_ascii_of_string].
  repeat constructor.
Qed.

Lemma btoa_list_no_comma l :
  Forall (fun c => is_comma c = false) (btoa_list l).
Proof.
  induction l as [|a|a b|a b c rest IH] using list_ind3;
    cbn [btoa_list]; repeat constructor; try apply b64_char_no_comma.
  exact IH.
Qed.

(** X10. For a blob that is not empty (browsers differ on the data URL
    of an empty one) and whose MIME type has no comma, [blobToBase64]
    returns exactly the base64 form of the blob's bytes, the data-URL
    header stripped, and [decode] gives the bytes back. *)
Theorem blobToBase64_payload (blob : DOM_Blob) :
  blobBytes blob <> [] ->
  Forall (fun c => is_comma c = false)
         (list_ascii_of_string (blobType blob)) ->
  Forall byte_range (blobBytes blob) ->
  blobToBase64 blob
  = Some (btoa (string_of_list_ascii (map fromCharCode (blobBytes blob)))) /\
  option_map decode (blobToBase64 blob) = Some (Some (blobBytes blob)).
Proof.
  intros _ Ht Hb.
  assert (E : blobToBase64 blob
              = Some (btoa (string_of_list_ascii
                              (map fromCharCode (blobBytes blob))))).
  { unfold blobToBase64, readAsDataURL.
    rewrite !list_ascii_of_string_app.
    set (payload := btoa (string_of_list_ascii
                            (map fromCharCode (blobBytes blob)))).
    replace (list_ascii_of_string "data:" ++
             list_ascii_of_string (blobType blob) ++
             list_ascii_of_string ";base64," ++
             list_ascii_of_string payload)%list
      with ((list_ascii_of_string "data:" ++
             list_ascii_of_string (blobType blob) ++
             list_ascii_of_string ";base64") ++
            ","%char :: list_ascii_of_string payload)%list
      by (rewrite <- !app_assoc; reflexivity).
    rewrite split_comma_app.
    - unfold payload, btoa. rewrite list_ascii_of_string_of_list_ascii.
      rewrite split_comma_plain by apply btoa_list_no_comma.
      reflexivity.
    - apply Forall_app. split; [repeat constructor|].
      apply Forall_app. split; [exact Ht|repeat constructor]. }
  split; [exact E|]. rewrite E. cbn [option_map]. f_equal.
  apply decode_btoa. apply byte_range_Forall. exact Hb.
Qed.

Lemma blobToBase64_payload_witness :
  blobToBase64 jpeg_frame = Some "/9j/4A=="%string.
Proof.
  refine (proj1 (blobToBase64_payload jpeg_frame _ _ _)).
  - discriminate.
  - repeat constructor.
  - repeat constructor; discriminate.
Defined.

End CodecFacts.

(* ================================================================== *)
(** ** Inbound messages: what is scheduled, and the playback clock *)

Module SessionFacts.

Import Geo Audio App IEEE Scenario AudioFacts CodecFacts AppFacts.

Local Open Scope float_scope.

Lemma truthy_btoa bytes :
  bytes <> [] ->
  truthy (Some (btoa (string_of_list_ascii (map fromCharCode bytes)))) = true.
Proof.
  intros H. unfold btoa. rewrite list_ascii_of_string_of_list_ascii.
  destruct bytes as [|a [|b [|c rest]]]; [congruence|reflexivity..].
Qed.

(** X11. A message carrying the base64 form of n > 0 16-bit samples is
    scheduled as one clip: it starts at the later of the context time and
    the end of the clips scheduled before, and moves that end on by
    n / 24000 seconds; no other ref changes. *)
Theorem onmessage_schedules_payload {W : WebAudio} (bytes : Uint8Array)
    (now : number) (r : Refs) (n : nat) :
  Forall byte_range bytes ->
  List.length bytes = (2 * n)%nat -> (0 < n)%nat ->
  let start := Math_max now (nextStartTimeRef r) in
  onmessage (Some (btoa (string_of_list_ascii (map fromCharCode bytes))))
            now r
  = (set_nextStartTimeRef r (start + of_Z (Z.of_nat n) / 24000),
     [source_start start]).
Proof.
  intros Hb Hlen Hn. cbv zeta. unfold onmessage.
  rewrite truthy_btoa by (destruct bytes; [cbn in Hlen; lia|discriminate]).
  rewrite decode_btoa by (apply byte_range_Forall; exact Hb).
  rewrite decodeAudioData_eq.
  destruct (int16_view bytes) as [l|] eqn:E.
  - pose proof (int16_view_length bytes l E) as Hl.
    assert (List.length l = n) by lia. subst n.
    rewrite Nat.div_1_r.
    destruct (List.length l) as [|k] eqn:El; [lia|].
    rewrite createBuffer_accepts_mono, supports_24000.
    unfold schedule, duration.
    cbn [Audio.length sampleRate]. reflexivity.
  - apply int16_view_odd in E. rewrite Hlen in E.
    rewrite Nat.odd_mul in E. discriminate E.
Qed.

Lemma onmessage_schedules_payload_witness :
  onmessage (W := Platform.Nominal)
            (Some (btoa (string_of_list_ascii (map fromCharCode mono_bytes))))
            0 connected
  = (set_nextStartTimeRef connected
       (Math_max 0 (nextStartTimeRef connected) + of_Z (Z.of_nat 2) / 24000),
     [source_start (Math_max 0 (nextStartTimeRef connected))]).
Proof.
  apply (onmessage_schedules_payload (W := Platform.Nominal)
           mono_bytes 0 connected 2).
  - repeat constructor; discriminate.
  - reflexivity.
  - lia.
Defined.

(** X12. A message that carries no audio, an empty payload, a payload
    [atob] rejects, or one that decodes to an odd or zero number of bytes
    schedules nothing and leaves every ref, the playback clock included,
    as it was. *)
Theorem onmessage_ignores_unusable {W : WebAudio}
    (audioData : option string) (now : number) (r : Refs) :
  audioData = None \/ audioData = Some ""%string \/
  (exists base64,
      audioData = Some base64 /\
      (decode base64 = None \/
       exists bytes, decode base64 = Some bytes /\
                     (Nat.odd (List.length bytes) = true \/ bytes = []))) ->
  onmessage audioData now r = (r, []).
Proof.
  intros [-> | [-> | (b64 & -> & [H | (bytes & H & Hb)])]];
    unfold onmessage; try reflexivity.
  - rewrite H. destruct (truthy (Some b64)); reflexivity.
  - rewrite H. destruct (truthy (Some b64)); [|reflexivity].
    assert (E : decodeAudioData bytes 24000 1 = None).
    { destruct Hb as [Hb | ->]; [|reflexivity].
      rewrite decodeAudioData_eq. apply int16_view_odd in Hb.
      rewrite Hb. reflexivity. }
    rewrite E. reflexivity.
Qed.

Lemma onmessage_ignores_unusable_witness :
  onmessage (W := Platform.Nominal) (Some "AA=="%string) 0 connected
  = (connected, []).
Proof.
  apply (onmessage_ignores_unusable (W := Platform.Nominal)
           (Some "AA=="%string) 0 connected).
  right; right. exists "AA=="%string. split; [reflexivity|].
  right. exists [0%Z]. split; [reflexivity|left; reflexivity].
Defined.

(** *** The playback clock *)

(** The duration of a buffer with a positive, finite sample rate is not
    negative. *)
Lemma duration_nonneg b :
  (0 <? sampleRate b) = true -> is_finite (sampleRate b) = true ->
  (0 <=? duration b) = true.
Proof.
  intros H1 H2. unfold duration. apply div_nonneg; trivial.
  apply of_Z_nonneg. lia.
Qed.

Lemma onmessage_clock {W : WebAudio} audioData now r :
  (0 <=? now) = true -> (0 <=? nextStartTimeRef r) = true ->
  (nextStartTimeRef r <=? nextStartTimeRef (fst (onmessage audioData now r)))
  = true /\
  Forall (fun start =>
            (now <=? start) = true /\
            (nextStartTimeRef r <=? start) = true /\
            (start <=? nextStartTimeRef (fst (onmessage audioData now r)))
            = true)
         (starts (snd (onmessage audioData now r))).
Proof.
  intros Hn Hr.
  assert (Hsame : (nextStartTimeRef r <=? nextStartTimeRef r) = true)
    by (apply leb_refl, (leb_nan_r _ _ Hr)).
  unfold onmessage.
  destruct audioData as [b64|]; [|split; [exact Hsame|constructor]].
  destruct (truthy (Some b64)); [|split; [exact Hsame|constructor]].
  destruct (decode b64) as [bytes|]; [|split; [exact Hsame|constructor]].
  destruct (decodeAudioData bytes 24000 1) as [buffer|] eqn:E;
    [|split; [exact Hsame|constructor]].
  assert (Hd : (0 <=? duration buffer) = true).
  { apply duration_nonneg; rewrite (decodeAudioData_rate _ _ _ _ E);
      reflexivity. }
  destruct (schedule_step now (duration buffer) r Hn Hd Hr)
    as (E1 & E2 & L1 & L2 & L3).
  rewrite (surjective_pairing (schedule now (duration buffer) r)).
  cbn [fst snd starts flat_map app]. rewrite E2. split.
  - exact (leb_trans _ _ _ L1 L2).
  - constructor; [|constructor]. split; [|split; assumption].
    rewrite E1.
    destruct (Math_max_cases now (nextStartTimeRef r)
                (leb_nan_r _ _ Hn) (leb_nan_r _ _ Hr)) as [[-> H] | [-> H]];
      [apply leb_refl, (leb_nan_r _ _ Hn)|assumption].
Qed.

Section WithMath.

Context {M : MathImpl} {W : WebAudio}.

Ltac split_match :=
  match goal with
  | |- context [match ?x with _ => _ end] =>
      first [is_var x; destruct x | destruct x eqn:?]
  | |- context [if ?x then _ else _] => destruct x eqn:?
  end.

(** Only an inbound message touches the playback clock or starts a
    clip. *)
Lemma handle_clock ev s r :
  match ev with session_message _ _ => False | _ => True end ->
  nextStartTimeRef (fst (handle ev s r)) = nextStartTimeRef r /\
  starts (snd (handle ev s r)) = [].
Proof.
  intros Hev. destruct ev; try contradiction;
    cbn [handle]; unfold onPosition, startSystem, startSystem_settled, onopen,
      onaudioprocess, endTest, handleOrientation, startTest, hardware_failure;
    cbv beta iota zeta; repeat split_match; cbn [fst snd app];
    split; reflexivity.
Qed.

(** X13. The playback clock never rewinds: in a run whose messages
    arrive at context times that are not negative, whatever their payloads
    and whatever other events are interleaved, [nextStartTimeRef] stays a
    number, never falls below the value the run began with, and no clip is
    started before that value. *)
Theorem playback_clock_never_rewinds (a : State * Refs) (evs : list Event) :
  (0 <=? nextStartTimeRef (snd a)) = true ->
  Forall message_time_ok evs ->
  Forall (fun se =>
            Forall (fun start =>
                      (nextStartTimeRef (snd a) <=? start) = true)
                   (starts (fst se)) /\
            forall a', snd se = Some a' ->
              (nextStartTimeRef (snd a) <=? nextStartTimeRef (snd a')) = true /\
              (0 <=? nextStartTimeRef (snd a')) = true)
         (run evs a).
Proof.
  intros H0 Hev.
  apply (run_invariant
           (fun a' =>
              (nextStartTimeRef (snd a) <=? nextStartTimeRef (snd a')) = true /\
              (0 <=? nextStartTimeRef (snd a')) = true)
           message_time_ok
           (fun effs =>
              Forall (fun start =>
                        (nextStartTimeRef (snd a) <=? start) = true)
                     (starts effs))).
  - intros ev [s r] [H1 H2] Hok. cbn [fst snd] in *.
    assert (Hother :
              match ev with session_message _ _ => False | _ => True end ->
              Forall (fun start =>
                        (nextStartTimeRef (snd a) <=? start) = true)
                     (starts (snd (handle ev s r))) /\
              (nextStartTimeRef (snd a)
               <=? nextStartTimeRef (fst (handle ev s r))) = true /\
              (0 <=? nextStartTimeRef (fst (handle ev s r))) = true).
    { intros Hne. destruct (handle_clock ev s r Hne) as [-> ->].
      split; [constructor|split; assumption]. }
    destruct ev; try (apply Hother; exact I).
    clear Hother. cbn [handle].
    destruct (sessionRef r); [|split; [constructor|split; assumption]].
    cbn [message_time_ok] in Hok.
    destruct (onmessage_clock audioData now r Hok H2) as [K1 K2].
    split; [|split].
    + eapply Forall_impl; [|exact K2]. intros start (_ & K & _).
      exact (leb_trans _ _ _ H1 K).
    + exact (leb_trans _ _ _ H1 K1).
    + exact (leb_trans _ _ _ H2 K1).
  - split; [apply leb_refl, (leb_nan_r _ _ H0)|exact H0].
  - exact Hev.
Qed.

End WithMath.

Lemma playback_clock_never_rewinds_witness :
  Forall (fun se =>
            Forall (fun start =>
                      (nextStartTimeRef connected <=? start) = true)
                   (starts (fst se)) /\
            forall a', snd se = Some a' ->
              (nextStartTimeRef connected <=? nextStartTimeRef (snd a')) = true /\
              (0 <=? nextStartTimeRef (snd a')) = true)
         (run (M := SmallAngle) (W := Platform.Nominal)
              [session_message (Some "AEAAwA=="%string) 0.25;
               session_message None 0.5;
               session_message (Some "AEAAwA=="%string) 0]
              (testing, connected)).
Proof.
  apply (playback_clock_never_rewinds (M := SmallAngle)
           (W := Platform.Nominal) (testing, connected)).
  - reflexivity.
  - repeat constructor.
Defined.

End SessionFacts.

(* ================================================================== *)
(** ** Whole runs: coherence, the path through the statuses, the one
       test, the end of a run *)

Module RunFacts.

Import Geo Audio App IEEE Scenario AppFacts.

Local Open Scope float_scope.

Section WithMath.

Context {M : MathImpl} {W : WebAudio}.

Ltac split_match :=
  match goal with
  | |- context [match ?x with _ => _ end] =>
      first [is_var x; destruct x | destruct x eqn:?]
  | |- context [if ?x then _ else _] => destruct x eqn:?
  end.

Ltac handlers :=
  cbn [handle]; unfold onPosition, startSystem, startSystem_settled, onopen,
    onmessage, onaudioprocess, endTest, handleOrientation, startTest, schedule,
    hardware_failure;
  cbv beta iota zeta; repeat split_match; cbn [fst snd app].

Ltac projections :=
  cbn [started status testActive homeLocation currentDistance gyroData
       stabilityScore audioContextRef streamRef aiClient sessionRef
       nextStartTimeRef frameIntervalRef rendered watch fst snd] in *.

Ltac cases :=
  repeat match goal with
         | x : bool |- _ => destruct x
         | x : Status |- _ => destruct x
         | x : option _ |- _ => destruct x
         | H : context [gtb ?a ?b] |- _ => destruct (gtb a b)
         end.

Ltac state_cases :=
  repeat match goal with
         | x : bool |- _ => destruct x
         | x : Status |- _ => destruct x
         | x : option Location |- _ => destruct x
         | H : context [gtb ?a ?b] |- _ => destruct (gtb a b)
         end.

Ltac observe :=
  cbn [count filter List.length is_invoke_startTest is_live_connect
       is_new_AudioContext is_setHomeLocation Status_rank Status_eqb andb
       negb orb Bool.eqb
       is_some fst snd commit fold_left apply Nat.add Nat.mul
       existsb is_reload tests_left homes_left app] in *;
  projections.

(** *** Steps *)

Lemma step_eq ev a :
  step ev a =
  (if existsb is_reload (snd (handle ev (fst a) (snd a))) then None
   else Some (commit (fst a) (snd (handle ev (fst a) (snd a))),
              fst (handle ev (fst a) (snd a))),
   snd (handle ev (fst a) (snd a))).
Proof.
  unfold step. destruct (handle ev (fst a) (snd a)) as [r' effs].
  cbn [fst snd]. destruct (existsb is_reload effs); reflexivity.
Qed.

Lemma exec_cons ev evs a :
  exec (ev :: evs) a =
  match fst (step ev a) with Some a' => exec evs a' | None => None end.
Proof. reflexivity. Qed.

Lemma trace_step ev evs a :
  trace (ev :: evs) a =
  snd (step ev a) ++
  match fst (step ev a) with Some a' => trace evs a' | None => [] end.
Proof.
  rewrite trace_cons. destruct (step ev a) as [[a'|] effs]; cbn [fst snd].
  - reflexivity.
  - symmetry. apply app_nil_r.
Qed.

Lemma count_nil p : count p [] = 0%nat.
Proof. reflexivity. Qed.

(** *** The three outcomes of a fix *)

(** The callback of a watch closed over [w]: the first fix of that
    render; a departure seen from it; or a distance update only. *)
Lemma onPosition_cases w r latitude longitude :
  (homeLocation w = None /\
   onPosition w r latitude longitude
   = (r, [setHomeLocation (mkLocation latitude longitude);
          setStatus SECURE])) \/
  (exists d,
      homeLocation w <> None /\ status w = SECURE /\ testActive w = false /\
      onPosition w r latitude longitude
      = (fst (startTest r),
         [setCurrentDistance d; setStatus VIOLATION] ++ snd (startTest r))) \/
  (exists d,
      homeLocation w <> None /\
      onPosition w r latitude longitude = (r, [setCurrentDistance d])).
Proof.
  unfold onPosition. destruct (homeLocation w) as [home|]; [|left; auto].
  right.
  destruct (gtb _ 15 && Status_eqb (status w) SECURE && negb (testActive w))
    eqn:G.
  - left. eexists. apply andb_prop in G. destruct G as [G G3].
    apply andb_prop in G. destruct G as [G1 G2].
    split; [discriminate|]. split; [|split; [|reflexivity]].
    + destruct (status w); first [reflexivity|discriminate].
    + destruct (testActive w); first [reflexivity|discriminate].
  - right. eexists. split; [discriminate|reflexivity].
Qed.

(** *** Coherence of the cells *)

Lemma load_coherent k : coherent (load k) = true.
Proof. destruct k as [[|c k]|]; reflexivity. Qed.

Lemma coherent_props s r :
  coherent (s, r) = true ->
  status s <> VIOLATION /\
  (homeLocation s = None <-> status s = STANDBY) /\
  (testActive s = true <-> status s = TESTING) /\
  (started s = false -> status s = STANDBY /\ streamRef r = None) /\
  (sessionRef r <> None ->
   status s = TESTING /\ aiClient r <> None /\ streamRef r <> None) /\
  (audioContextRef r = None <-> sessionRef r = None) /\
  (frameIntervalRef r <> None -> sessionRef r <> None).
Proof.
  destruct s as [st ta stat home cd g sc],
    r as [ctx stream ai sess nxt timer rend wt].
  unfold coherent. projections.
  destruct st, ta, stat, home, ctx, stream, ai, sess, timer; cbn;
    intros H; try discriminate H; clear H;
    repeat split; intros; try congruence.
Qed.

(** What a handler other than the watch callback does to the cells, in a
    coherent state and unless it reloads: they stay coherent, the status,
    the home location and [testActive] stay, [started] is not taken
    back. *)
Lemma handle_other_coherent ev s r :
  is_fix ev = false -> coherent (s, r) = true ->
  existsb is_reload (snd (handle ev s r)) = false ->
  coherent (commit s (snd (handle ev s r)), fst (handle ev s r)) = true.
Proof.
  destruct s as [st ta stat home cd g sc],
    r as [ctx stream ai sess nxt timer rend wt].
  intros Hev H.
  destruct ev; try discriminate Hev; clear Hev; handlers; projections;
    cbn [existsb is_reload orb commit fold_left apply];
    rewrite ?existsb_app; cbn [existsb is_reload orb];
    rewrite ?orb_true_r;
    try discriminate; intros _; projections; try exact H.
  all: revert H;
    unfold coherent, set_streamRef, set_frameIntervalRef,
      set_nextStartTimeRef, set_rendered, set_watch; projections;
    repeat match goal with
           | x : bool |- _ => destruct x
           | x : Status |- _ => destruct x
           | x : option Location |- _ => destruct x
           | x : option AudioContext |- _ => destruct x
           | x : option MediaStream |- _ => destruct x
           | x : option GoogleGenAI |- _ => destruct x
           | x : option LiveSession |- _ => destruct x
           | x : option nat |- _ => destruct x
           end;
    intros H; first [reflexivity|discriminate].
Qed.

Lemma handle_other_cells ev s r :
  is_fix ev = false -> coherent (s, r) = true ->
  existsb is_reload (snd (handle ev s r)) = false ->
  status (commit s (snd (handle ev s r))) = status s /\
  homeLocation (commit s (snd (handle ev s r))) = homeLocation s /\
  testActive (commit s (snd (handle ev s r))) = testActive s /\
  (started s = true -> started (commit s (snd (handle ev s r))) = true).
Proof.
  intros Hev H.
  assert (Hv : Status_eqb (status s) VIOLATION = false).
  { destruct (coherent_props s r H) as (Hv & _).
    destruct (status s); first [reflexivity|congruence]. }
  destruct s as [st ta stat home cd g sc]. projections.
  destruct ev; try discriminate Hev; clear Hev H; cbn [handle];
    cbn [started status testActive];
    rewrite ?Hv, ?andb_false_r, ?andb_false_l;
    unfold startSystem, startSystem_settled, onopen, onmessage,
      onaudioprocess, endTest, handleOrientation, schedule,
      hardware_failure;
    cbv beta iota zeta; repeat split_match; cbn [fst snd app];
    cbn [existsb is_reload orb commit fold_left apply];
    rewrite ?existsb_app; cbn [existsb is_reload orb];
    rewrite ?orb_true_r;
    try discriminate; intros _; projections;
    repeat split; intros; congruence.
Qed.

(** The first fix of a render, in a state that has not entered a test. *)
Lemma first_fix_coherent s r l :
  coherent (s, r) = true -> started s = true -> status s <> TESTING ->
  coherent (commit s [setHomeLocation l; setStatus SECURE], r) = true.
Proof.
  destruct s as [st ta stat home cd g sc],
    r as [ctx stream ai sess nxt timer rend wt].
  unfold coherent. cbn [commit fold_left apply]. projections.
  intros H Hs Ht. subst st.
  destruct stat; try congruence;
    revert H; cases; cbn; intros; congruence.
Qed.

(** A departure, in a state that has a home location. *)
Lemma far_fix_coherent s r d :
  coherent (s, r) = true -> started s = true -> status s <> STANDBY ->
  coherent (commit s ([setCurrentDistance d; setStatus VIOLATION]
                        ++ snd (startTest r)),
            fst (startTest r)) = true.
Proof.
  destruct s as [st ta stat home cd g sc],
    r as [ctx stream ai sess nxt timer rend wt].
  unfold coherent, startTest. projections.
  intros H Hs Ht. subst st.
  destruct ai, stream; cbn [fst snd app commit fold_left apply];
    unfold set_sessionRef, set_audioContextRef; projections;
    destruct stat; try congruence;
    revert H; cases; cbn; intros; congruence.
Qed.

Lemma distance_coherent s r d :
  coherent (s, r) = true ->
  coherent (commit s [setCurrentDistance d], r) = true.
Proof.
  destruct s as [st ta stat home cd g sc]. intros H. exact H.
Qed.

(** *** The invariant of a run *)

Lemma load_consistent k : consistent (load k).
Proof.
  split; [apply load_coherent|].
  unfold snapshots_ok, load, mount.
  destruct k as [[|c k]|]; cbn;
    (split; [|split]);
    try (intros w Hw; discriminate Hw);
    try (intros Hs; discriminate Hs);
    repeat split; intros; try discriminate; try reflexivity; auto.
Qed.

Lemma rank_le_3 st : (Status_rank st <= 3)%nat.
Proof. destruct st; cbn; lia. Qed.

Lemma rank_STANDBY st : (Status_rank st <= 0)%nat -> st = STANDBY.
Proof. destruct st; cbn; intros; first [reflexivity|lia]. Qed.

(** The fix handler from a consistent state: what the new state and refs
    are like. *)
Lemma position_facts s r w latitude longitude :
  consistent (s, r) -> watch r = Some w ->
  let effs := snd (onPosition w r latitude longitude) in
  let r' := fst (onPosition w r latitude longitude) in
  coherent (commit s effs, r') = true /\
  rendered r' = rendered r /\ watch r' = watch r /\
  existsb is_reload effs = false /\
  (Status_rank (status s) <= Status_rank (status (commit s effs)))%nat /\
  started (commit s effs) = started s /\
  (testActive s = true -> testActive (commit s effs) = true) /\
  (status (commit s effs) = TESTING ->
   status s = TESTING \/ status w <> STANDBY).
Proof.
  intros [Hc (Hr & Hw & Ht)] Ew. cbn [fst snd] in *.
  destruct (Hw w Ew) as (Hws & Hwv & Hwh & Hwt & Hwr & Hwst).
  destruct Hr as (_ & _ & _ & Hrr & Hrst).
  assert (Hst : started s = true) by auto.
  destruct (coherent_props s r Hc) as (Hv & Hh & Hta & _).
  cbn zeta.
  destruct (onPosition_cases w r latitude longitude)
    as [[Hn ->] | [(d & Hn & Hsec & Hnt & ->) | (d & Hn & ->)]];
    cbn [fst snd].
  - (* the first fix of the render *)
    assert (Hsw : status w = STANDBY) by (apply Hwh; exact Hn).
    assert (Hnt : status s <> TESTING).
    { intros E. destruct (Ht E) as (w' & Ew' & Hw').
      rewrite Ew in Ew'. injection Ew' as <-. contradiction. }
    split; [apply first_fix_coherent; assumption|].
    destruct s as [st ta stat home cd g sc].
    cbn [commit fold_left apply]. projections.
    repeat split; trivial; try discriminate.
    destruct stat; cbn; try lia; congruence.
  - (* a departure *)
    assert (Hns : status s <> STANDBY).
    { intros E. rewrite Hsec, E in *. cbn in *. lia. }
    split; [apply far_fix_coherent; assumption|].
    destruct s as [st ta stat home cd g sc]. unfold startTest.
    destruct (aiClient r), (streamRef r);
      cbn [fst snd app commit fold_left apply existsb is_reload orb];
      unfold set_sessionRef, set_audioContextRef; projections;
      repeat split; trivial; try apply rank_le_3;
      intros _; right; rewrite Hsec; discriminate.
  - (* a distance update *)
    split; [apply distance_coherent; assumption|].
    destruct s as [st ta stat home cd g sc].
    cbn [commit fold_left apply]. projections.
    repeat split; trivial. auto.
Qed.

Lemma step_consistent ev a a' :
  consistent a -> fst (step ev a) = Some a' -> consistent a'.
Proof.
  destruct a as [s r]. intros Ha. rewrite step_eq. cbn [fst snd].
  destruct (existsb is_reload (snd (handle ev s r))) eqn:Hre;
    [discriminate|].
  intros [= <-].
  destruct (is_fix ev) eqn:Hfix.
  - (* a fix *)
    destruct ev; try discriminate Hfix. cbn [handle] in *.
    destruct (watch r) as [w|] eqn:Ew; [|exact Ha].
    destruct (position_facts s r w latitude longitude Ha Ew)
      as (K1 & K2 & K3 & _ & K5 & K6 & _ & K8).
    cbn zeta in *.
    destruct Ha as [Hc (Hr & Hw & Ht)]. cbn [fst snd] in *.
    split; [exact K1|]. unfold snapshots_ok. cbn [fst snd].
    rewrite K2, K3. split; [|split].
    + destruct Hr as (R1 & R2 & R3 & R4 & R5).
      repeat split; try apply R2; try apply R3; trivial; try lia.
      rewrite K6. exact R5.
    + exact Hw.
    + intros E. destruct (K8 E) as [E'|E'].
      * apply Ht. exact E'.
      * exists w. auto.
  - (* any other event *)
    destruct Ha as [Hc (Hr & Hw & Ht)]. cbn [fst snd] in *.
    pose proof (handle_other_coherent ev s r Hfix Hc Hre) as K1.
    destruct (handle_other_cells ev s r Hfix Hc Hre) as (K2 & K3 & K4 & K5).
    split; [exact K1|]. unfold snapshots_ok. cbn [fst snd].
    rewrite handle_rendered, handle_watch.
    destruct (coherent_props _ _ K1) as (Cv & Ch & Cta & _).
    destruct Hr as (R1 & R2 & R3 & R4 & R5).
    destruct ev; try discriminate Hfix; rewrite ?K2;
      try solve [split; [|split; [exact Hw|exact Ht]];
                 unfold past_render; rewrite ?K2;
                 repeat split; try apply R2; try apply R3; auto].
    + (* render *)
      cbn [handle snd commit fold_left] in *.
      split; [|split].
      * repeat split; try apply Ch; try apply Cta; trivial.
      * intros w Ew. destruct (Hw w Ew) as (W1 & W2 & W3 & W4 & W5 & W6).
        split; [exact W1|].
        repeat split; try apply W3; try apply W4; trivial; [lia|auto].
      * exact Ht.
    + (* effect *)
      cbn [handle snd commit fold_left] in *.
      split; [|split].
      * repeat split; try apply R2; try apply R3; trivial.
      * intros w. destruct (started (rendered r)) eqn:Es; [|discriminate].
        intros [= <-]. split; [exact Es|].
        repeat split; try apply R2; try apply R3; trivial.
      * intros E. destruct (Ht E) as (w & Ew & Hwn).
        destruct (Hw w Ew) as (W1 & W2 & W3 & W4 & W5 & W6).
        rewrite (W6 W1). exists (rendered r). split; [reflexivity|].
        intros E'. rewrite E' in W5. cbn in W5.
        apply Hwn, rank_STANDBY. exact W5.
Qed.

Lemma exec_consistent evs : forall a a',
  consistent a -> exec evs a = Some a' -> consistent a'.
Proof.
  induction evs as [|ev evs IH]; intros a a' Ha; cbn [exec].
  - intros [= <-]. exact Ha.
  - destruct (fst (step ev a)) as [a1|] eqn:E; [|discriminate].
    apply IH. exact (step_consistent ev a a1 Ha E).
Qed.


(** X14. In every state a run reaches from page load, whenever React
    renders and re-subscribes: a home location is set exactly when the
    status has left STANDBY; a test is active exactly when the status is
    TESTING, so the HUD and the EMERGENCY TERMINATION button are shown
    together; before the system is started the status is STANDBY and no
    stream is held; a session exists only in TESTING and only with an AI
    client and a stream; the input audio context exists exactly when a
    session does; and the frame-grabber timer exists only with a
    session. *)
Theorem reachable_states_coherent (API_KEY : option string)
    (evs : list Event) (s : State) (r : Refs) :
  exec evs (load API_KEY) = Some (s, r) ->
  (homeLocation s = None <-> status s = STANDBY) /\
  (testActive s = true <-> status s = TESTING) /\
  shows_hud s = shows_termination s /\
  (started s = false -> status s = STANDBY /\ streamRef r = None) /\
  (sessionRef r <> None ->
   status s = TESTING /\ aiClient r <> None /\ streamRef r <> None) /\
  (audioContextRef r = None <-> sessionRef r = None) /\
  (frameIntervalRef r <> None -> sessionRef r <> None).
Proof.
  intros H.
  apply (exec_consistent evs _ _ (load_consistent API_KEY)) in H.
  destruct H as [H _].
  apply coherent_props in H.
  destruct H as (_ & H1 & H2 & H3 & H4 & H5 & H6).
  split; [exact H1|]. split; [exact H2|]. split; [|auto].
  unfold shows_hud, shows_termination. destruct H2 as [H2a H2b].
  destruct (testActive s).
  - rewrite (H2a eq_refl). reflexivity.
  - destruct (status s); try reflexivity. discriminate (H2b eq_refl).
Qed.

(** X15. VIOLATION is never rendered.  The fix that detects a departure
    queues VIOLATION, but [startTest], called in the same callback, queues
    TESTING after it, and the updates of one callback are applied
    together; so no state a run reaches has status VIOLATION, the STOP
    panel with its SUBMIT TO TEST button is never shown, and a click on
    that button never finds a handler. *)
Theorem stop_panel_never_shown (API_KEY : option string)
    (evs : list Event) (s : State) (r : Refs) :
  exec evs (load API_KEY) = Some (s, r) ->
  status s <> VIOLATION /\
  shows_stop_panel s = false /\
  handle click_submit_to_test s r = (r, []).
Proof.
  intros H.
  apply (exec_consistent evs _ _ (load_consistent API_KEY)) in H.
  destruct H as [H _].
  apply coherent_props in H. destruct H as [H _].
  assert (E : Status_eqb (status s) VIOLATION = false)
    by (revert H; destruct (status s); intros;
        first [reflexivity|congruence]).
  split; [exact H|]. cbn [handle]. unfold shows_stop_panel.
  rewrite E, andb_false_r. split; reflexivity.
Qed.

(** *** Progress of the cells *)

Lemma step_forward ev a a' :
  consistent a -> fst (step ev a) = Some a' ->
  (Status_rank (status (fst a)) <= Status_rank (status (fst a')))%nat /\
  (started (fst a) = true -> started (fst a') = true) /\
  (testActive (fst a) = true -> testActive (fst a') = true).
Proof.
  destruct a as [s r]. intros Ha. rewrite step_eq. cbn [fst snd].
  destruct (existsb is_reload (snd (handle ev s r))) eqn:Hre;
    [discriminate|].
  intros [= <-]. cbn [fst].
  destruct (is_fix ev) eqn:Hfix.
  - destruct ev; try discriminate Hfix. cbn [handle] in *.
    destruct (watch r) as [w|] eqn:Ew; [|repeat split; auto].
    destruct (position_facts s r w latitude longitude Ha Ew)
      as (_ & _ & _ & _ & K5 & K6 & K7 & _).
    cbn zeta in *. rewrite K6. auto.
  - destruct Ha as [Hc _].
    destruct (handle_other_cells ev s r Hfix Hc Hre) as (K2 & K3 & K4 & K5).
    rewrite K2, K4. auto.
Qed.

Lemma exec_forward evs : forall a a',
  consistent a -> exec evs a = Some a' ->
  (Status_rank (status (fst a)) <= Status_rank (status (fst a')))%nat /\
  (started (fst a) = true -> started (fst a') = true) /\
  (testActive (fst a) = true -> testActive (fst a') = true).
Proof.
  induction evs as [|ev evs IH]; intros a a' Ha; cbn [exec].
  - intros [= <-]. repeat split; trivial.
  - destruct (fst (step ev a)) as [a1|] eqn:E1; [|discriminate].
    intros H. destruct (step_forward ev a a1 Ha E1) as (H1 & H2 & H3).
    destruct (IH a1 a' (step_consistent ev a a1 Ha E1) H)
      as (K1 & K2 & K3).
    repeat split; [lia|auto..].
Qed.

(** X16. Within a run no cell goes back: between any two states of a run
    from page load the status only moves forward along STANDBY, SECURE,
    TESTING, and [started] and [testActive], once true, stay true.  (The
    SECURE that [endTest] queues belongs to the page that is being
    reloaded: the run ends there.) *)
Theorem status_only_advances (API_KEY : option string)
    (evs1 evs2 : list Event) (a1 a2 : State * Refs) :
  exec evs1 (load API_KEY) = Some a1 ->
  exec evs2 a1 = Some a2 ->
  (Status_rank (status (fst a1)) <= Status_rank (status (fst a2)))%nat /\
  (started (fst a1) = true -> started (fst a2) = true) /\
  (testActive (fst a1) = true -> testActive (fst a2) = true).
Proof.
  intros H1 H2. apply (exec_forward evs2); [|exact H2].
  exact (exec_consistent evs1 _ _ (load_consistent API_KEY) H1).
Qed.

(** *** Runs in which React keeps up *)

Lemma refresh_consistent s r :
  coherent (s, r) = true -> consistent (s, refresh s r).
Proof.
  intros H. destruct (coherent_props s r H) as (Hv & Hh & Hta & Hst & _).
  split.
  - destruct r. exact H.
  - unfold snapshots_ok, refresh, set_watch, set_rendered. projections.
    assert (P : past_render s s)
      by (repeat split; try apply Hh; try apply Hta; auto).
    split; [exact P|]. split.
    + intros w. destruct (started s) eqn:Es; [|discriminate].
      intros [= <-]. auto.
    + intros E. destruct (started s) eqn:Es.
      * exists s. split; [reflexivity|]. rewrite E. discriminate.
      * destruct (Hst eq_refl) as [E' _]. congruence.
Qed.

(** One event of a settled run: React renders and re-subscribes, then
    the handler runs. *)
Lemma settled_cons ev evs a :
  trace (settled (ev :: evs)) a
  = snd (step ev (fst a, refresh (fst a) (snd a))) ++
    match fst (step ev (fst a, refresh (fst a) (snd a))) with
    | Some a' => trace (settled evs) a'
    | None => []
    end.
Proof.
  destruct a as [s r]. unfold settled. cbn [flat_map app fst snd].
  fold (settled evs).
  rewrite (trace_step render), step_eq. cbn [handle fst snd].
  cbn [existsb commit fold_left app].
  rewrite (trace_step effect), step_eq. cbn [handle fst snd].
  cbn [existsb commit fold_left app].
  unfold set_rendered at 2. cbn [rendered]. fold (refresh s r).
  apply trace_step.
Qed.

(** A session is connected and audio contexts are created by
    [startTest] only. *)
Lemma handle_connects ev s r :
  (count is_live_connect (snd (handle ev s r))
   <= count is_invoke_startTest (snd (handle ev s r)))%nat /\
  (count is_new_AudioContext (snd (handle ev s r))
   <= 2 * count is_invoke_startTest (snd (handle ev s r)))%nat.
Proof. destruct ev; handlers; observe; lia. Qed.

(** No handler but the watch callback enters [startTest] or writes the
    home location. *)
Lemma handle_other_counts ev s r :
  is_fix ev = false -> coherent (s, r) = true ->
  count is_invoke_startTest (snd (handle ev s r)) = 0%nat /\
  count is_setHomeLocation (snd (handle ev s r)) = 0%nat.
Proof.
  intros Hev H.
  assert (Hv : Status_eqb (status s) VIOLATION = false).
  { destruct (coherent_props s r H) as (Hv & _).
    destruct (status s); first [reflexivity|congruence]. }
  destruct ev; try discriminate Hev; clear Hev H; cbn [handle];
    rewrite ?Hv, ?andb_false_r, ?andb_false_l;
    unfold startSystem, startSystem_settled, onopen, onmessage,
      onaudioprocess, endTest, handleOrientation, schedule,
      hardware_failure;
    cbv beta iota zeta; repeat split_match; cbn [fst snd app];
    unfold count; rewrite ?filter_app, ?length_app;
    split; reflexivity.
Qed.

(** The watch callback of the render of the state itself. *)
Lemma settled_fix latitude longitude s r :
  coherent (s, r) = true ->
  let h := handle (position latitude longitude) s (refresh s r) in
  (count is_invoke_startTest (snd h)
   + tests_left (commit s (snd h), fst h) <= tests_left (s, r))%nat /\
  (count is_setHomeLocation (snd h)
   + homes_left (commit s (snd h), fst h) <= homes_left (s, r))%nat.
Proof.
  destruct s as [st ta stat home cd g sc].
  intros H.
  assert (H' : negb (Status_eqb stat VIOLATION)
               && Bool.eqb (is_some home) (negb (Status_eqb stat STANDBY))
               && Bool.eqb ta (Status_eqb stat TESTING) = true).
  { revert H. unfold coherent. projections.
    destruct (negb (Status_eqb stat VIOLATION)
              && Bool.eqb (is_some home) (negb (Status_eqb stat STANDBY))
              && Bool.eqb ta (Status_eqb stat TESTING)); [reflexivity|].
    cbn. intros; discriminate. }
  clear H. cbn zeta. unfold tests_left, homes_left.
  destruct st; cbn [handle];
    unfold refresh, set_watch, set_rendered; projections;
    handlers; observe.
  all: revert H'; state_cases; observe; intros; split;
    first [lia|discriminate].
Qed.

(** One handler of a settled run, from coherent cells: a test is entered
    only from a state that is not yet TESTING and leaves it TESTING; a
    home location is written only while none is set. *)
Lemma settled_facts ev s r :
  coherent (s, r) = true ->
  existsb is_reload (snd (handle ev s (refresh s r))) = false ->
  (count is_invoke_startTest (snd (handle ev s (refresh s r)))
   + tests_left (commit s (snd (handle ev s (refresh s r))),
                 fst (handle ev s (refresh s r)))
   <= tests_left (s, r))%nat /\
  (count is_setHomeLocation (snd (handle ev s (refresh s r)))
   + homes_left (commit s (snd (handle ev s (refresh s r))),
                 fst (handle ev s (refresh s r)))
   <= homes_left (s, r))%nat.
Proof.
  intros H Hre. destruct (is_fix ev) eqn:Hfix.
  - destruct ev; try discriminate Hfix. apply settled_fix. exact H.
  - assert (H' : coherent (s, refresh s r) = true)
      by (destruct r; exact H).
    destruct (handle_other_counts ev s _ Hfix H') as [-> ->].
    destruct (handle_other_cells ev s _ Hfix H' Hre) as (K2 & K3 & _).
    unfold tests_left, homes_left. cbn [fst]. rewrite K2, K3. lia.
Qed.

(** A handler that reloads the page is [endTest]: it enters no test and
    writes no home location. *)
Lemma reload_counts ev s r :
  existsb is_reload (snd (handle ev s r)) = true ->
  count is_invoke_startTest (snd (handle ev s r)) = 0%nat /\
  count is_setHomeLocation (snd (handle ev s r)) = 0%nat.
Proof.
  destruct ev; handlers; cbn [existsb is_reload orb];
    rewrite ?existsb_app; cbn [existsb is_reload orb];
    try discriminate; intros _;
    unfold count; rewrite ?filter_app, ?length_app; split; reflexivity.
Qed.

Lemma settled_coherent ev s r a' :
  coherent (s, r) = true ->
  fst (step ev (s, refresh s r)) = Some a' -> coherent a' = true.
Proof.
  intros H E.
  apply (step_consistent ev (s, refresh s r) a' (refresh_consistent s r H) E).
Qed.

Lemma settled_counts evs : forall a,
  coherent a = true ->
  (count is_invoke_startTest (trace (settled evs) a) <= tests_left a)%nat /\
  (count is_live_connect (trace (settled evs) a)
   <= count is_invoke_startTest (trace (settled evs) a))%nat /\
  (count is_new_AudioContext (trace (settled evs) a)
   <= 2 * count is_invoke_startTest (trace (settled evs) a))%nat /\
  (count is_setHomeLocation (trace (settled evs) a) <= homes_left a)%nat.
Proof.
  induction evs as [|ev evs IH]; intros [s r] Ha.
  - cbn. lia.
  - rewrite settled_cons, !count_app. cbn [fst snd].
    destruct (handle_connects ev s (refresh s r)) as [H1 H2].
    pose proof (settled_facts ev s r Ha) as H5.
    pose proof (reload_counts ev s (refresh s r)) as H6.
    pose proof (settled_coherent ev s r) as Hco.
    rewrite step_eq in *. cbn [fst snd] in *.
    destruct (existsb is_reload (snd (handle ev s (refresh s r)))).
    + destruct (H6 eq_refl) as [K1 K2]. rewrite !count_nil. lia.
    + destruct (H5 eq_refl) as [K1 K2].
      destruct (IH _ (Hco _ Ha eq_refl)) as (J1 & J2 & J3 & J4).
      lia.
Qed.

(** X17. Where React keeps up, a run holds at most one test.  In a run
    from page load to reload in which React has rendered the state and
    re-subscribed the watch before each event, [startTest] is entered at
    most once, whatever the events, so at most one session is opened and
    at most two audio contexts are created; and the home location is
    written at most once. *)
Theorem one_test_per_settled_run (API_KEY : option string)
    (evs : list Event) :
  (count is_invoke_startTest (trace (settled evs) (load API_KEY)) <= 1)%nat /\
  (count is_live_connect (trace (settled evs) (load API_KEY)) <= 1)%nat /\
  (count is_new_AudioContext (trace (settled evs) (load API_KEY)) <= 2)%nat /\
  (count is_setHomeLocation (trace (settled evs) (load API_KEY)) <= 1)%nat.
Proof.
  destruct (settled_counts evs (load API_KEY) (load_coherent API_KEY))
    as (H1 & H2 & H3 & H4).
  assert (tests_left (load API_KEY) = 1%nat) by reflexivity.
  assert (homes_left (load API_KEY) = 1%nat) by reflexivity. lia.
Qed.

(** *** The end of a run *)

Lemma handle_reload ev s r :
  existsb is_reload (snd (handle ev s r)) =
  match ev with
  | click_emergency_termination => shows_termination s
  | _ => false
  end.
Proof.
  unfold shows_termination.
  destruct ev; handlers; cbn [existsb is_reload orb];
    rewrite ?existsb_app; cbn [existsb is_reload orb];
    rewrite ?orb_true_r; congruence.
Qed.

Lemma step_reload ev a :
  fst (step ev a) = None <->
  ev = click_emergency_termination /\ shows_termination (fst a) = true.
Proof.
  rewrite step_eq, handle_reload. cbn [fst].
  destruct ev; try (split; [discriminate|intros [? _]; discriminate]).
  destruct (shows_termination (fst a)); split; auto; try discriminate.
  intros [_ ?]; discriminate.
Qed.

(** X18. Only EMERGENCY TERMINATION ends a run: the page is reloaded
    exactly when that button is clicked in a state that shows it (system
    started, test active), and then always; no other event, and no error,
    reloads the page. *)
Theorem reload_only_by_termination (evs : list Event) (a : State * Refs) :
  exec evs a = None <->
  exists evs1 evs2 a1,
    evs = evs1 ++ click_emergency_termination :: evs2 /\
    exec evs1 a = Some a1 /\
    shows_termination (fst a1) = true.
Proof.
  revert a. induction evs as [|ev evs IH]; intros a.
  - split; [discriminate|].
    intros (evs1 & evs2 & a1 & H & _). destruct evs1; discriminate H.
  - rewrite exec_cons. destruct (fst (step ev a)) as [a'|] eqn:E.
    + rewrite IH. split.
      * intros (evs1 & evs2 & a1 & -> & H1 & H2).
        exists (ev :: evs1), evs2, a1. split; [reflexivity|].
        rewrite exec_cons, E. auto.
      * intros (evs1 & evs2 & a1 & H & H1 & H2).
        destruct evs1 as [|ev1 evs1].
        -- cbn [app] in H. injection H as -> ->. injection H1 as <-.
           assert (fst (step click_emergency_termination a) = None)
             by (apply step_reload; auto).
           congruence.
        -- cbn [app] in H. injection H as -> ->.
           rewrite exec_cons, E in H1.
           exists evs1, evs2, a1. auto.
    + split; [intros _|reflexivity].
      apply step_reload in E. destruct E as [-> E].
      exists [], evs, a. auto.
Qed.

(** *** Without a media stream *)

Lemma handle_without_stream ev s r :
  grants_stream ev = false ->
  streamRef r = None -> sessionRef r = None ->
  streamRef (fst (handle ev s r)) = None /\
  sessionRef (fst (handle ev s r)) = None /\
  count is_live_connect (snd (handle ev s r)) = 0%nat /\
  count is_pipeline (snd (handle ev s r)) = 0%nat.
Proof.
  intros Hev Hs Hr. destruct ev; handlers;
    repeat split; trivial; try discriminate; congruence.
Qed.

(** X19. Without a media stream there is no session: in a run from page
    load in which [getUserMedia] never delivers a stream (denied, or not
    yet settled), no handler opens a session, creates an audio context,
    starts the frame grabber or sends input, whatever the API key and
    however far the device moves. *)
Theorem no_stream_no_session (API_KEY : option string) (evs : list Event) :
  Forall (fun ev => grants_stream ev = false) evs ->
  Forall (fun se =>
            (count is_live_connect (fst se) = 0%nat /\
             count is_pipeline (fst se) = 0%nat) /\
            forall a', snd se = Some a' ->
                       streamRef (snd a') = None /\ sessionRef (snd a') = None)
         (run evs (load API_KEY)).
Proof.
  intros Hev.
  apply (run_invariant
           (fun a => streamRef (snd a) = None /\ sessionRef (snd a) = None)
           (fun ev => grants_stream ev = false)
           (fun effs => count is_live_connect effs = 0%nat /\
                        count is_pipeline effs = 0%nat)).
  - intros ev a [H1 H2] Hok.
    destruct (handle_without_stream ev (fst a) (snd a) Hok H1 H2)
      as (K1 & K2 & K3 & K4).
    auto.
  - destruct API_KEY as [[|c k]|]; split; reflexivity.
  - exact Hev.
Qed.

(** *** A whole test *)

(** X20. The life of a test, end to end.  With an API key and a granted
    stream, for any home fix and any later fix farther than 15 ft, React
    rendering and re-subscribing after the start and after the first
    fix: the run initialise, grant, first fix, far fix, session open, one
    audio frame, emergency termination performs exactly these effects in
    this order.  The far fix alone goes from SECURE through VIOLATION to
    TESTING, creates the 16 kHz and 24 kHz contexts and connects the
    session with the configured model; the audio frame is sent as
    [createBlob] encodes it; termination clears the timer [onopen]
    stored, unless its id is 0, closes the input context and reloads. *)
Theorem test_lifecycle (key : string) (stream : MediaStream)
    (latitude longitude latitude' longitude' : number) (timer : nat)
    (frame : Float32Array) :
  truthy (Some key) = true ->
  gtb (getDistanceFromLatLonInFeet latitude longitude latitude' longitude')
      15 = true ->
  trace [click_initialize; render; effect; media_settled (Granted stream);
         position latitude longitude; render; effect;
         position latitude' longitude';
         session_open timer; audioprocess frame;
         click_emergency_termination]
        (load (Some key))
  = [setStarted true;
     setHomeLocation (mkLocation latitude longitude); setStatus SECURE;
     setCurrentDistance
       (getDistanceFromLatLonInFeet latitude longitude latitude' longitude');
     setStatus VIOLATION;
     invoke_startTest; setTestActive true; setStatus TESTING;
     new_AudioContext 16000; new_AudioContext 24000;
     live_connect MODEL_NAME;
     console_log "GATEKEEPER ONLINE"; setInterval 500;
     sendRealtimeInput (createBlob frame)]
    ++ (if Nat.eqb timer 0 then [] else [clearInterval timer])
    ++ [audioContext_close;
        setTestActive false; setStatus SECURE;
        alert "TEST CONCLUDED. RESETTING PERIMETER."; location_reload].
Proof.
  intros Hkey Hd. unfold load, mount. rewrite Hkey.
  unfold initialState, initialRefs, set_aiClient. projections.
  repeat (rewrite trace_step, step_eq; cbn [handle];
          unfold onPosition, startSystem, startSystem_settled, onopen,
            onaudioprocess, endTest, startTest, commit,
            set_streamRef, set_audioContextRef, set_sessionRef,
            set_frameIntervalRef, set_rendered, set_watch;
          projections; cbn [lat lon]; rewrite ?Hd;
          cbn [fold_left apply existsb is_reload orb app
               Status_eqb andb negb fst snd];
          projections).
  destruct (Nat.eqb timer 0); reflexivity.
Qed.

End WithMath.

Lemma reachable_states_coherent_witness :
  testActive secure_at_home = true <-> status secure_at_home = TESTING.
Proof.
  exact (proj1 (proj2
           (reachable_states_coherent (M := SmallAngle)
              (W := Platform.Nominal) None
              [click_initialize; render; effect;
               position home_lat home_lon]
              secure_at_home (watching awaiting_fix) eq_refl))).
Defined.

Lemma stop_panel_never_shown_witness :
  status departed <> VIOLATION /\
  shows_stop_panel departed = false /\
  handle (M := SmallAngle) (W := Platform.Nominal)
         click_submit_to_test departed (watching secure_at_home)
  = (watching secure_at_home, []).
Proof.
  apply (stop_panel_never_shown (M := SmallAngle) (W := Platform.Nominal)
           None
           [click_initialize; render; effect; position home_lat home_lon;
            render; effect; position north_lat home_lon]).
  vm_compute. reflexivity.
Defined.

Lemma status_only_advances_witness :
  (Status_rank (status secure_at_home) <= Status_rank (status departed))%nat.
Proof.
  refine (proj1 (status_only_advances (M := SmallAngle)
                   (W := Platform.Nominal) None
                   [click_initialize; render; effect;
                    position home_lat home_lon]
                   [render; effect; position north_lat home_lon]
                   (secure_at_home, watching awaiting_fix)
                   (departed, watching secure_at_home)
                   eq_refl _)).
  vm_compute. reflexivity.
Defined.

Lemma no_stream_no_session_witness :
  Forall (fun se =>
            (count is_live_connect (fst se) = 0%nat /\
             count is_pipeline (fst se) = 0%nat) /\
            forall a', snd se = Some a' ->
                       streamRef (snd a') = None /\ sessionRef (snd a') = None)
         (run (M := SmallAngle) (W := Platform.Nominal)
              [click_initialize; render; effect; media_settled Denied;
               position home_lat home_lon; render; effect;
               position north_lat home_lon]
              (load (Some "key"%string))).
Proof.
  apply (no_stream_no_session (M := SmallAngle) (W := Platform.Nominal)).
  repeat constructor.
Defined.

Lemma test_lifecycle_witness :
  count is_live_connect
    (trace (M := SmallAngle) (W := Platform.Nominal)
       [click_initialize; render; effect; media_settled (Granted 7%nat);
        position home_lat home_lon; render; effect;
        position north_lat home_lon;
        session_open 3%nat; audioprocess [0.5; -0.5];
        click_emergency_termination]
       (load (Some "key"%string)))
  = 1%nat.
Proof.
  rewrite (test_lifecycle (M := SmallAngle) (W := Platform.Nominal)
             "key" 7%nat
             home_lat home_lon north_lat home_lon 3%nat [0.5; -0.5]
             eq_refl eq_refl).
  reflexivity.
Defined.

End RunFacts.

(* ================================================================== *)
(** ** The geo distance utility: sign of the distance, degrees to
       radians *)

Module GeoMore.

Import Geo IEEE GeoFacts Scenario.

Local Open Scope float_scope.

(** X21. [deg2rad] is an odd function on binary64 numbers, maps 0 to 0
    and never overflows: the radians of a finite number of degrees are
    finite. *)
Theorem deg2rad_odd_finite (deg : number) :
  deg2rad (- deg) = - deg2rad deg /\
  deg2rad 0 = 0 /\
  (is_finite deg = true -> is_finite (deg2rad deg) = true).
Proof.
  split; [|split].
  - unfold deg2rad. apply mul_opp_l.
  - reflexivity.
  - apply deg2rad_finite.
Qed.

Section WithMath.

Context {M : MathImpl}.

(** X22. The distance is never negative, whatever the coordinates (it
    may be NaN), for every engine whose [atan2] is not negative when the
    sign bit of its first argument is clear.  That argument is a square
    root of a sum whose first term is a square, so it is NaN, +0 or
    positive, never -0. *)
Theorem distance_never_negative
    (atan2_sign : forall y x, get_sign y = false ->
                              (Math_atan2 y x <? 0) = false)
    (lat1 lon1 lat2 lon2 : number) :
  (getDistanceFromLatLonInFeet lat1 lon1 lat2 lon2 <? 0) = false.
Proof.
  unfold getDistanceFromLatLonInFeet, Math_sqrt.
  set (u := Math_sin _ * Math_sin _).
  set (t := _ * _ * _ * _).
  assert (Hs : get_sign (sqrt (u + t)) = false).
  { rewrite get_sign_spec, sqrt_spec, add_spec.
    rewrite SFsqrt_plus; [reflexivity|].
    apply SFadd_not_negzero; try apply Prim2SF_valid.
    unfold u. rewrite mul_spec. apply SFmul_self_plus. }
  pose proof (atan2_sign (sqrt (u + t)) (sqrt (1 - (u + t))) Hs) as Ha.
  rewrite ltb_zero_spec in Ha |- *.
  apply negb_false_iff in Ha. apply negb_false_iff.
  assert (HR : exists m e, Prim2SF 20902231 = S754_finite false m e)
    by (vm_compute; eauto).
  assert (H2 : exists m e, Prim2SF 2 = S754_finite false m e)
    by (vm_compute; eauto).
  destruct HR as (mR & eR & HR). destruct H2 as (m2 & e2 & H2).
  rewrite mul_spec, HR. apply SFmul_pos_not_neg.
  rewrite mul_spec, H2. apply SFmul_pos_not_neg. exact Ha.
Qed.

End WithMath.

Lemma distance_never_negative_witness :
  (getDistanceFromLatLonInFeet (M := FirstQuadrant)
     home_lat home_lon north_lat home_lon <? 0) = false.
Proof.
  apply (distance_never_negative (M := FirstQuadrant)).
  intros y x _. apply abs_not_negative.
Defined.

End GeoMore.

(* ================================================================== *)
(** ** The stability score: the half-integer grid and its two bounds *)

Module StabilityFacts.

Import Geo Audio App IEEE Scenario AudioFacts.

Local Open Scope Z_scope.

(** Rounding a magnitude that the format holds exactly: [m' * 2^e'], the
    same number as [m * 2^e], comes out with the exponent of the format
    and the mantissa aligned to it. *)
Lemma binary_round_scaled s m' e' m e :
  Zpos m' = Zpos m * 2 ^ (e - e') -> e' <= e ->
  Z.max (Zdigits2 (Zpos m) + e - 53) (-1074) <= e ->
  Z.max (Zdigits2 (Zpos m) + e - 53) (-1074) <= 971 ->
  exists mz,
    Zpos mz = Zpos m * 2 ^ (e - Z.max (Zdigits2 (Zpos m) + e - 53) (-1074)) /\
    binary_round prec emax s m' e'
    = S754_finite s mz (Z.max (Zdigits2 (Zpos m) + e - 53) (-1074)).
Proof.
  remember (Z.max (Zdigits2 (Zpos m) + e - 53) (-1074)) as E eqn:EE.
  intros Hm He HE Hmax.
  assert (Hd : Zdigits2 (Zpos m') + e' = Zdigits2 (Zpos m) + e).
  { rewrite Hm, Zdigits2_mul_pow2 by lia. lia. }
  assert (Hpos : 0 < Zpos m * 2 ^ (e - E)).
  { assert (0 < 2 ^ (e - E)) by (apply Z.pow_pos_nonneg; lia). nia. }
  destruct (Zpos m * 2 ^ (e - E)) as [|mz|mz] eqn:Emz; try lia.
  exists mz. split; [reflexivity|].
  assert (Hdz : Zdigits2 (Zpos mz) + E = Zdigits2 (Zpos m) + e).
  { rewrite <- Emz, Zdigits2_mul_pow2 by lia. lia. }
  assert (Hfinal :
            binary_round_aux prec emax s (Zpos mz) E loc_Exact
            = S754_finite s mz E).
  { unfold binary_round_aux, shr_fexp. rewrite fexp_64, Hdz, <- EE.
    rewrite Z.sub_diag. cbn [shr shr_record_of_loc loc_of_shr_record
                              shr_m round_nearest_even].
    rewrite fexp_64, Hdz, <- EE, Z.sub_diag.
    cbn [shr shr_record_of_loc shr_m].
    change (emax - prec) with 971.
    destruct (Z.leb_spec E 971); [reflexivity|lia]. }
  unfold binary_round. rewrite fexp_64.
  change (Z.pos (digits2_pos m')) with (Zdigits2 (Zpos m')).
  rewrite Hd, <- EE.
  destruct (Z_le_gt_dec E e') as [Hle|Hgt].
  - (* align to the left, then nothing to round *)
    pose proof (shl_align_spec m' e' E Hle) as Hs.
    assert (Hsnd : snd (shl_align m' e' E) = E).
    { unfold shl_align. destruct (E - e') eqn:D; cbn [snd]; lia. }
    destruct (shl_align m' e' E) as [mz' ez']. cbn [fst snd] in Hs, Hsnd.
    subst ez'.
    assert (mz' = mz).
    { assert (Zpos mz' = Zpos mz); [|congruence].
      rewrite Hs, Hm, <- Emz, <- Z.mul_assoc, <- Z.pow_add_r by lia.
      f_equal. f_equal. lia. }
    subst mz'. exact Hfinal.
  - (* the low bits are zero and shift out exactly *)
    rewrite shl_align_ge by lia.
    unfold binary_round_aux, shr_fexp. rewrite fexp_64, Hd, <- EE.
    cbn [shr_record_of_loc].
    assert (Hsplit : Zpos m' = 2 ^ (E - e') * Zpos mz).
    { rewrite Hm, <- Emz, (Z.mul_comm (2 ^ (E - e'))), <- Z.mul_assoc,
        <- Z.pow_add_r by lia.
      f_equal. f_equal. lia. }
    rewrite Hsplit, shr_exact_record by lia.
    cbn [loc_of_shr_record shr_m round_nearest_even].
    replace (e' + (E - e')) with E by lia.
    rewrite fexp_64, Hdz, <- EE, Z.sub_diag.
    cbn [shr shr_record_of_loc shr_m].
    change (emax - prec) with 971.
    destruct (Z.leb_spec E 971); [reflexivity|lia].
Qed.

(** The numbers [k / 2] for integers [k], scaled: [n * 2^j] at exponent
    [-1 - j] is the same number as [n] at exponent [-1]. *)
Lemma pos_scaled p j :
  0 <= j -> Zpos p < 2 ^ 53 ->
  exists p', Zpos p' = Zpos p * 2 ^ j /\
             binary_round prec emax false p' (-1 - j)
             = binary_round prec emax false p (-1) /\
             binary_round prec emax true p' (-1 - j)
             = binary_round prec emax true p (-1).
Proof.
  intros Hj Hp.
  assert (Hd : Zdigits2 (Zpos p) <= 53) by (apply Zdigits2_lt_pow2; lia).
  assert (Hd1 : 1 <= Zdigits2 (Zpos p)) by (cbn; lia).
  assert (Hpos : 0 < Zpos p * 2 ^ j).
  { assert (0 < 2 ^ j) by (apply Z.pow_pos_nonneg; lia). nia. }
  destruct (Zpos p * 2 ^ j) as [|p'|p'] eqn:Ep; try lia.
  exists p'. split; [reflexivity|].
  assert (Hm : Zpos p' = Zpos p * 2 ^ (-1 - (-1 - j))).
  { rewrite <- Ep. f_equal. f_equal. lia. }
  assert (Hm0 : Zpos p = Zpos p * 2 ^ (-1 - -1)) by (cbn; lia).
  split.
  - destruct (binary_round_scaled false p' (-1 - j) p (-1) Hm
                ltac:(lia) ltac:(lia) ltac:(lia)) as (mz & H1 & ->).
    destruct (binary_round_scaled false p (-1) p (-1) Hm0
                ltac:(lia) ltac:(lia) ltac:(lia)) as (mz' & H1' & ->).
    f_equal. congruence.
  - destruct (binary_round_scaled true p' (-1 - j) p (-1) Hm
                ltac:(lia) ltac:(lia) ltac:(lia)) as (mz & H1 & ->).
    destruct (binary_round_scaled true p (-1) p (-1) Hm0
                ltac:(lia) ltac:(lia) ltac:(lia)) as (mz' & H1' & ->).
    f_equal. congruence.
Qed.

Lemma normalize_scaled n j :
  0 <= j -> -2 ^ 53 < n < 2 ^ 53 ->
  binary_normalize prec emax (n * 2 ^ j) (-1 - j) false
  = binary_normalize prec emax n (-1) false.
Proof.
  intros Hj Hn. destruct n as [|p|p].
  - reflexivity.
  - destruct (pos_scaled p j Hj ltac:(lia)) as (p' & Hp & H1 & _).
    rewrite <- Hp. exact H1.
  - destruct (pos_scaled p j Hj ltac:(lia)) as (p' & Hp & _ & H2).
    replace (Z.neg p * 2 ^ j) with (Z.neg p') by lia. exact H2.
Qed.

(** The representation of [k / 2]. *)
Lemma half_form k :
  k <> 0 -> -2 ^ 53 < k < 2 ^ 53 ->
  exists mz,
    Zpos mz = Z.abs k * 2 ^ (53 - Zdigits2 k) /\
    binary_normalize prec emax k (-1) false
    = S754_finite (k <? 0) mz (Zdigits2 k - 54).
Proof.
  intros Hk Hr.
  assert (H : forall s p, Zpos p < 2 ^ 53 ->
             exists mz, Zpos mz = Zpos p * 2 ^ (53 - Zdigits2 (Zpos p)) /\
                        binary_round prec emax s p (-1)
                        = S754_finite s mz (Zdigits2 (Zpos p) - 54)).
  { intros s p Hp.
    assert (Hd : Zdigits2 (Zpos p) <= 53) by (apply Zdigits2_lt_pow2; lia).
    assert (Hd1 : 1 <= Zdigits2 (Zpos p)) by (cbn; lia).
    assert (Hm0 : Zpos p = Zpos p * 2 ^ (-1 - -1)) by (cbn; lia).
    destruct (binary_round_scaled s p (-1) p (-1) Hm0
                ltac:(lia) ltac:(lia) ltac:(lia)) as (mz & H1 & H2).
    exists mz.
    replace (Z.max (Zdigits2 (Zpos p) + -1 - 53) (-1074))
      with (Zdigits2 (Zpos p) - 54) in * by lia.
    split; [|exact H2]. rewrite H1. f_equal. f_equal. lia. }
  destruct k as [|p|p]; [congruence| |].
  - destruct (H false p ltac:(lia)) as (mz & H1 & H2). exists mz.
    split; [exact H1|exact H2].
  - destruct (H true p ltac:(lia)) as (mz & H1 & H2). exists mz.
    split; [exact H1|exact H2].
Qed.

Lemma Zdigits2_abs k : Zdigits2 (Z.abs k) = Zdigits2 k.
Proof. destruct k; reflexivity. Qed.

Lemma half_digits k :
  2 <= Z.abs k < 2 ^ 53 -> 2 <= Zdigits2 k <= 53.
Proof.
  intros Hk. rewrite <- Zdigits2_abs.
  destruct (Z.abs k) as [|q|q] eqn:E; try lia. split.
  - apply (Zdigits2_ge_pow2 q 1); lia.
  - apply Zdigits2_lt_pow2; lia.
Qed.

Lemma aligned_half k mz j :
  k <> 0 -> 0 <= j ->
  Zpos mz = Z.abs k * 2 ^ (53 - Zdigits2 k) ->
  54 - Zdigits2 k <= j + 1 -> Zdigits2 k <= 53 ->
  cond_Zopp (k <? 0) (Zpos mz * 2 ^ (Zdigits2 k - 54 - (-1 - j))) = k * 2 ^ j.
Proof.
  intros Hk Hj Hmz Hd Hd53.
  assert (Hd1 : 1 <= Zdigits2 k <-> True).
  { split; trivial. intros _. destruct k; cbn; lia. }
  assert (1 <= Zdigits2 k) by (apply Hd1; exact I).
  rewrite Hmz, <- Z.mul_assoc, <- Z.pow_add_r by lia.
  replace (53 - Zdigits2 k + (Zdigits2 k - 54 - (-1 - j))) with j by lia.
  destruct (Z.ltb_spec k 0); cbn [cond_Zopp];
    [rewrite Z.abs_neq by lia|rewrite Z.abs_eq by lia]; ring.
Qed.

(** Subtracting 1 from [k / 2] gives [(k - 2) / 2], exactly. *)
Lemma SFsub_half_one k :
  -2 ^ 53 + 2 < k < 2 ^ 53 ->
  SF64sub (binary_normalize prec emax k (-1) false)
          (S754_finite false 4503599627370496 (-52))
  = binary_normalize prec emax (k - 2) (-1) false.
Proof.
  intros Hk.
  destruct (Z_lt_le_dec (Z.abs k) 2) as [Hsmall|Hbig].
  - assert (Hc : k = -1 \/ k = 0 \/ k = 1) by lia.
    destruct Hc as [-> | [-> | ->]]; vm_compute; reflexivity.
  - pose proof (half_digits k ltac:(lia)) as Hd.
    destruct (half_form k ltac:(lia) ltac:(lia)) as (mz & Hmz & ->).
    rewrite <- (normalize_scaled (k - 2) 51) by lia.
    unfold SF64sub, SFsub.
    rewrite Z.min_r by lia.
    rewrite !shl_align_spec by lia.
    change (-1 - 51) with (-52). f_equal.
    pose proof (aligned_half k mz 51 ltac:(lia) ltac:(lia) Hmz ltac:(lia)
                  ltac:(lia))
      as Ha.
    change (-1 - 51) with (-52) in Ha. rewrite Ha.
    change (cond_Zopp false ?x) with x.
    change (Z.pos 4503599627370496 * 2 ^ (-52 - -52)) with (2 * 2 ^ 51).
    lia.
Qed.

(** Adding 0.5 to [k / 2] gives [(k + 1) / 2], exactly. *)
Lemma SFadd_half_half k :
  -2 ^ 53 < k < 2 ^ 53 - 1 ->
  SF64add (binary_normalize prec emax k (-1) false)
          (S754_finite false 4503599627370496 (-53))
  = binary_normalize prec emax (k + 1) (-1) false.
Proof.
  intros Hk.
  destruct (Z.eq_dec k 0) as [->|Hnz]; [vm_compute; reflexivity|].
  assert (Hd : 1 <= Zdigits2 k <= 53).
  { rewrite <- Zdigits2_abs.
    destruct (Z.abs k) as [|q|q] eqn:E; try lia. split; [cbn; lia|].
    apply Zdigits2_lt_pow2; lia. }
  destruct (half_form k Hnz ltac:(lia)) as (mz & Hmz & ->).
  rewrite <- (normalize_scaled (k + 1) 52) by lia.
  unfold SF64add, SFadd.
  rewrite Z.min_r by lia.
  rewrite !shl_align_spec by lia.
  change (-1 - 52) with (-53). f_equal.
  pose proof (aligned_half k mz 52 Hnz ltac:(lia) Hmz ltac:(lia)
                ltac:(lia)) as Ha.
  change (-1 - 52) with (-53) in Ha. rewrite Ha.
  change (cond_Zopp false ?x) with x.
  change (Z.pos 4503599627370496 * 2 ^ (-53 - -53)) with (2 ^ 52).
  lia.
Qed.

Lemma normalize_valid k e :
  valid_binary (binary_normalize prec emax k e false) = true.
Proof.
  destruct k as [|p|p]; [reflexivity|apply binary_round_valid..].
Qed.

Lemma Prim2SF_half k :
  Prim2SF (half_integer k) = binary_normalize prec emax k (-1) false.
Proof. unfold half_integer. apply Prim2SF_SF2Prim, normalize_valid. Qed.

Lemma Prim2SF_half_const :
  Prim2SF 0.5 = S754_finite false 4503599627370496 (-53).
Proof. vm_compute. reflexivity. Qed.

Lemma half_sub_one k :
  -2 ^ 53 + 2 < k < 2 ^ 53 ->
  (half_integer k - 1)%float = half_integer (k - 2).
Proof.
  intros Hk. rewrite <- (SF2Prim_Prim2SF (half_integer k - 1)).
  rewrite sub_spec, Prim2SF_half, Prim2SF_1, SFsub_half_one by assumption.
  reflexivity.
Qed.

Lemma half_add_half k :
  -2 ^ 53 < k < 2 ^ 53 - 1 ->
  (half_integer k + 0.5)%float = half_integer (k + 1).
Proof.
  intros Hk. rewrite <- (SF2Prim_Prim2SF (half_integer k + 0.5)).
  rewrite add_spec, Prim2SF_half, Prim2SF_half_const, SFadd_half_half
    by assumption.
  reflexivity.
Qed.

Lemma half_200 : half_integer 200 = 100%float.
Proof. vm_compute. reflexivity. Qed.

Lemma half_le_100_check :
  forall_from 200 1 (fun k => (half_integer k <=? 100)%float) = true.
Proof. vm_compute. reflexivity. Qed.

Lemma half_le_100 k :
  -2 ^ 53 < k <= 200 -> (half_integer k <=? 100)%float = true.
Proof.
  intros Hk. destruct (Z_le_gt_dec k 0) as [Hneg|Hpos].
  - rewrite leb_spec, Prim2SF_half.
    destruct (Z.eq_dec k 0) as [->|Hnz]; [reflexivity|].
    destruct (half_form k Hnz ltac:(lia)) as (mz & _ & ->).
    destruct (Z.ltb_spec k 0); [|lia]. reflexivity.
  - apply (CodecFacts.forall_from_spec _ _ _ half_le_100_check k).
    lia.
Qed.

(** *** Below -2^52: integers only *)

(** The score below the half-integers: [-m] for an integer
    [2^52 <= m < 2^53], held as mantissa [m] at exponent 0. *)
Lemma far_form m :
  2 ^ 52 <= Zpos m < 2 ^ 53 ->
  binary_normalize prec emax (Zneg (2 * m)) (-1) false
  = S754_finite true m 0.
Proof.
  intros Hm.
  assert (Hd : Zdigits2 (Zpos m) = 53).
  { pose proof (Zdigits2_lt_pow2 m 53 ltac:(lia) ltac:(lia)).
    pose proof (Zdigits2_ge_pow2 m 52 ltac:(lia) ltac:(lia)). lia. }
  assert (H1 : Zpos (2 * m) = Zpos m * 2 ^ (0 - -1)) by (cbn; lia).
  destruct (binary_round_scaled true (2 * m) (-1) m 0 H1
              ltac:(lia) ltac:(lia) ltac:(lia)) as (mz & Hz & H).
  cbn [binary_normalize]. rewrite H. clear H.
  rewrite Hd in *.
  replace (Z.max (53 + 0 - 53) (-1074)) with 0 in * by lia.
  f_equal. cbn in Hz. lia.
Qed.

(** Subtracting 1 there is exact up to -2^53. *)
Lemma SFsub_far_one m :
  2 ^ 52 <= Zpos m -> Zpos m + 1 < 2 ^ 53 ->
  SF64sub (S754_finite true m 0) (S754_finite false 4503599627370496 (-52))
  = S754_finite true (m + 1) 0.
Proof.
  intros Hlo Hhi.
  assert (Hd : Zdigits2 (Zpos (m + 1)) = 53).
  { pose proof (Zdigits2_lt_pow2 (m + 1) 53 ltac:(lia) ltac:(lia)).
    pose proof (Zdigits2_ge_pow2 (m + 1) 52 ltac:(lia) ltac:(lia)). lia. }
  unfold SF64sub, SFsub.
  rewrite Z.min_r by lia. rewrite !shl_align_spec by lia.
  cbn [cond_Zopp].
  assert (Hpos : 0 < Zpos (m + 1) * 2 ^ 52) by lia.
  destruct (Zpos (m + 1) * 2 ^ 52) as [|p|p] eqn:Ep; try lia.
  replace (- (Z.pos m * 2 ^ (0 - -52))
           - Z.pos 4503599627370496 * 2 ^ (-52 - -52)) with (Zneg p).
  2:{ change (2 ^ (0 - -52)) with (2 ^ 52).
      change (Z.pos 4503599627370496 * 2 ^ (-52 - -52)) with (2 ^ 52).
      lia. }
  cbn [binary_normalize].
  assert (H1 : Zpos p = Zpos (m + 1) * 2 ^ (0 - -52))
    by (rewrite <- Ep; reflexivity).
  destruct (binary_round_scaled true p (-52) (m + 1) 0 H1
              ltac:(lia) ltac:(lia) ltac:(lia)) as (mz & Hz & H).
  rewrite H. clear H. rewrite Hd in *.
  replace (Z.max (53 + 0 - 53) (-1074)) with 0 in * by lia.
  f_equal. cbn in Hz. lia.
Qed.

(** Adding 0.5 there falls between two integers and is rounded to one
    of them. *)
Lemma SFadd_far_half m :
  2 ^ 52 < Zpos m < 2 ^ 53 ->
  exists m1,
    Zpos m - 1 <= Zpos m1 <= Zpos m /\
    SF64add (S754_finite true m 0) (S754_finite false 4503599627370496 (-53))
    = S754_finite true m1 0.
Proof.
  intros Hm.
  unfold SF64add, SFadd.
  rewrite Z.min_r by lia. rewrite !shl_align_spec by lia.
  cbn [cond_Zopp].
  assert (Hpos : 0 < (2 * Zpos m - 1) * 2 ^ 52) by lia.
  destruct ((2 * Zpos m - 1) * 2 ^ 52) as [|p|p] eqn:Ep; try lia.
  replace (- (Z.pos m * 2 ^ (0 - -53))
           + Z.pos 4503599627370496 * 2 ^ (-53 - -53)) with (Zneg p).
  2:{ change (2 ^ (0 - -53)) with (2 * 2 ^ 52).
      change (Z.pos 4503599627370496 * 2 ^ (-53 - -53)) with (2 ^ 52).
      lia. }
  cbn [binary_normalize]. unfold binary_round. rewrite fexp_64.
  change (Z.pos (digits2_pos p)) with (Zdigits2 (Zpos p)).
  assert (Hdp : Zdigits2 (Zpos p) = 106).
  { rewrite <- Ep.
    destruct (2 * Zpos m - 1) as [|q|q] eqn:Eq; try lia.
    rewrite Zdigits2_mul_pow2 by lia.
    pose proof (Zdigits2_lt_pow2 q 54 ltac:(lia) ltac:(lia)).
    pose proof (Zdigits2_ge_pow2 q 53 ltac:(lia) ltac:(lia)). lia. }
  rewrite Hdp. replace (Z.max (106 + -53 - 53) (-1074)) with 0 by lia.
  rewrite shl_align_ge by lia.
  unfold binary_round_aux, shr_fexp. rewrite fexp_64, Hdp.
  replace (Z.max (106 + -53 - 53) (-1074) - -53) with 53 by lia.
  destruct (shr_exact (shr_record_of_loc (Zpos p) loc_Exact) (-53) 53)
    as (He' & Hm' & _); [cbn; lia|].
  cbn [shr_record_of_loc shr_m] in Hm'.
  destruct (shr _ (-53) 53) as [mrs' e']. cbn [fst snd] in He', Hm'.
  replace (-53 + Z.max 0 53) with 0 in He' by lia. subst e'.
  replace (Z.max 0 53) with 53 in Hm' by lia.
  assert (Hq : shr_m mrs' = Zpos m - 1).
  { rewrite Hm', <- Ep. change (2 ^ 53) with (2 * 2 ^ 52).
    rewrite Z.div_mul_cancel_r by lia.
    Z.div_mod_to_equations; lia. }
  pose proof (round_nearest_even_bounds (shr_m mrs')
                (loc_of_shr_record mrs') ltac:(lia)) as Hr.
  remember (round_nearest_even (shr_m mrs') (loc_of_shr_record mrs'))
    as m1 eqn:Em1.
  rewrite Hq in Hr.
  destruct m1 as [|q|q]; try lia.
  assert (Hdq : Zdigits2 (Zpos q) = 53).
  { pose proof (Zdigits2_lt_pow2 q 53 ltac:(lia) ltac:(lia)).
    pose proof (Zdigits2_ge_pow2 q 52 ltac:(lia) ltac:(lia)). lia. }
  rewrite fexp_64, Hdq.
  replace (Z.max (53 + 0 - 53) (-1074) - 0) with 0 by lia.
  cbn [shr shr_record_of_loc shr_m]. cbv iota.
  exists q. split; [lia|reflexivity].
Qed.

Lemma Prim2SF_far m :
  2 ^ 52 <= Zpos m < 2 ^ 53 ->
  Prim2SF (half_integer (Zneg (2 * m))) = S754_finite true m 0.
Proof. intros Hm. rewrite Prim2SF_half. apply far_form. exact Hm. Qed.

Lemma far_index k :
  -2 ^ 54 < k <= -2 ^ 53 -> Z.even k = true ->
  exists m, k = Zneg (2 * m) /\ 2 ^ 52 <= Zpos m < 2 ^ 53.
Proof.
  intros Hk He. destruct k as [|p|p]; try lia.
  destruct p as [p|p|]; try discriminate; try lia.
  exists p. split; [reflexivity|lia].
Qed.

Lemma far_sub_one m :
  2 ^ 52 <= Zpos m < 2 ^ 53 ->
  (half_integer (Zneg (2 * m)) - 1)%float = half_integer (Zneg (2 * m) - 2).
Proof.
  intros Hm. rewrite <- (SF2Prim_Prim2SF (half_integer _ - 1)).
  rewrite sub_spec, Prim2SF_far, Prim2SF_1 by assumption.
  destruct (Z.eq_dec (Zpos m + 1) (2 ^ 53)) as [Htop|Hlow].
  - assert (m = 9007199254740991%positive) by lia. subst m.
    vm_compute. reflexivity.
  - rewrite SFsub_far_one by lia.
    replace (Zneg (2 * m) - 2) with (Zneg (2 * (m + 1))) by lia.
    rewrite <- (SF2Prim_Prim2SF (half_integer (Zneg (2 * (m + 1))))).
    rewrite Prim2SF_far by lia. reflexivity.
Qed.

Lemma far_add_half m :
  2 ^ 52 <= Zpos m < 2 ^ 53 ->
  exists k', Zneg (2 * m) <= k' <= Zneg (2 * m) + 2 /\
             (k' <= -2 ^ 53 -> Z.even k' = true) /\
             (half_integer (Zneg (2 * m)) + 0.5)%float = half_integer k'.
Proof.
  intros Hm.
  destruct (Z.eq_dec (Zpos m) (2 ^ 52)) as [Hbot|Hin].
  - assert (m = 4503599627370496%positive) by lia. subst m.
    exists (-2 ^ 53 + 1). split; [lia|]. split; [lia|].
    vm_compute. reflexivity.
  - destruct (SFadd_far_half m ltac:(lia)) as (m1 & Hm1 & H).
    exists (Zneg (2 * m1)). split; [lia|]. split; [reflexivity|].
    rewrite <- (SF2Prim_Prim2SF (half_integer _ + 0.5)).
    rewrite add_spec, Prim2SF_far, Prim2SF_half_const, H by assumption.
    rewrite <- (SF2Prim_Prim2SF (half_integer (Zneg (2 * m1)))).
    rewrite Prim2SF_far by lia. reflexivity.
Qed.

(** One update of the score keeps it on the grid: two steps lower (held
    at -2^53), one step higher or rounded to a neighbouring integer, or
    100. *)
Lemma nextStability_index movement k :
  score_index k ->
  exists k', score_index k' /\ k - 2 <= k' /\
             nextStability movement (half_integer k) = half_integer k'.
Proof.
  intros [Hk He]. unfold nextStability.
  destruct (Z_lt_le_dec (-2 ^ 53) k) as [HA|HB].
  - (* half-integers *)
    destruct (gtb _ 5).
    + destruct (Z_lt_le_dec (-2 ^ 53 + 2) k) as [Hin|Hedge].
      * exists (k - 2). split; [split; [lia|intros; lia]|].
        split; [lia|]. apply half_sub_one. lia.
      * assert (Hc : k = -2 ^ 53 + 1 \/ k = -2 ^ 53 + 2) by lia.
        exists (-2 ^ 53). split; [split; [lia|reflexivity]|].
        split; [lia|].
        destruct Hc as [-> | ->]; vm_compute; reflexivity.
    + destruct (half_integer k <? 100)%float eqn:Hlt.
      * assert (k <> 200).
        { intros ->. rewrite half_200 in Hlt. vm_compute in Hlt.
          discriminate. }
        exists (k + 1). split; [split; [lia|intros; lia]|].
        split; [lia|]. apply half_add_half. lia.
      * exists 200. split; [split; [lia|intros; lia]|].
        split; [lia|]. symmetry. exact half_200.
  - (* integers from -2^52 down *)
    specialize (He HB).
    assert (Hlt : forall m, 2 ^ 52 <= Zpos m < 2 ^ 53 ->
              (half_integer (Zneg (2 * m)) <? 100)%float = true).
    { intros m Hm. rewrite ltb_spec, Prim2SF_far by assumption.
      reflexivity. }
    destruct (Z.eq_dec k (-2 ^ 54)) as [->|Hne].
    + exists (-2 ^ 54). split; [split; [lia|reflexivity]|].
      split; [lia|].
      destruct (gtb _ 5); [vm_compute; reflexivity|].
      replace (half_integer (-2 ^ 54) <? 100)%float with true
        by (vm_compute; reflexivity).
      vm_compute. reflexivity.
    + destruct (far_index k ltac:(lia) He) as (m & -> & Hm).
      destruct (gtb _ 5).
      * exists (Zneg (2 * m) - 2).
        split; [split; [lia|intros _; rewrite Z.even_sub; reflexivity]|].
        split; [lia|]. apply far_sub_one. exact Hm.
      * rewrite Hlt by exact Hm.
        destruct (far_add_half m Hm) as (k' & Hk' & He' & H).
        exists k'. split; [split; [lia|exact He']|].
        split; [lia|]. exact H.
Qed.

Lemma index_le_100 k :
  score_index k -> (half_integer k <=? 100)%float = true.
Proof.
  intros [Hk He].
  destruct (Z_lt_le_dec (-2 ^ 53) k) as [HA|HB].
  - apply half_le_100. lia.
  - destruct (Z.eq_dec k (-2 ^ 54)) as [->|Hne]; [vm_compute; reflexivity|].
    destruct (far_index k ltac:(lia) (He HB)) as (m & -> & Hm).
    rewrite leb_spec, Prim2SF_far by assumption. reflexivity.
Qed.

Lemma index_ge_floor k :
  score_index k -> (-9007199254740992 <=? half_integer k)%float = true.
Proof.
  intros [Hk He]. rewrite leb_spec.
  replace (Prim2SF (-9007199254740992))
    with (S754_finite true 4503599627370496 1) by (vm_compute; reflexivity).
  destruct (Z_lt_le_dec (-2 ^ 53) k) as [HA|HB].
  - rewrite Prim2SF_half.
    destruct (Z.eq_dec k 0) as [->|Hnz]; [reflexivity|].
    destruct (half_form k Hnz ltac:(lia)) as (mz & _ & ->).
    destruct (Z.ltb_spec k 0); [|reflexivity].
    assert (Hd : Zdigits2 k <= 53).
    { rewrite <- Zdigits2_abs.
      destruct (Z.abs k) as [|q|q] eqn:E; try lia.
      apply Zdigits2_lt_pow2; lia. }
    unfold SFleb, SFcompare.
    destruct (Z.compare_spec 1 (Zdigits2 k - 54)); try lia; reflexivity.
  - destruct (Z.eq_dec k (-2 ^ 54)) as [->|Hne]; [vm_compute; reflexivity|].
    destruct (far_index k ltac:(lia) (He HB)) as (m & -> & Hm).
    rewrite Prim2SF_far by assumption. reflexivity.
Qed.

(** *** The score against a target on the grid *)

(** The difference of two half-integers is exact. *)
Lemma SFsub_half_half a b :
  a <> 0 -> b <> 0 ->
  -2 ^ 53 < a < 2 ^ 53 -> -2 ^ 53 < b < 2 ^ 53 ->
  -2 ^ 53 < a - b < 2 ^ 53 ->
  SF64sub (binary_normalize prec emax a (-1) false)
          (binary_normalize prec emax b (-1) false)
  = binary_normalize prec emax (a - b) (-1) false.
Proof.
  intros Ha Hb Hra Hrb Hr.
  assert (Hd : forall k, k <> 0 -> -2 ^ 53 < k < 2 ^ 53 ->
                         1 <= Zdigits2 k <= 53).
  { intros k Hk Hrk. rewrite <- Zdigits2_abs.
    destruct (Z.abs k) as [|q|q] eqn:E; try lia. split; [cbn; lia|].
    apply Zdigits2_lt_pow2; lia. }
  pose proof (Hd a Ha Hra) as Hda. pose proof (Hd b Hb Hrb) as Hdb.
  destruct (half_form a Ha Hra) as (ma & Hma & ->).
  destruct (half_form b Hb Hrb) as (mb & Hmb & ->).
  set (j := 53 - Z.min (Zdigits2 a) (Zdigits2 b)).
  rewrite <- (normalize_scaled (a - b) j) by lia.
  unfold SF64sub, SFsub.
  replace (Z.min (Zdigits2 a - 54) (Zdigits2 b - 54)) with (-1 - j) by lia.
  rewrite !shl_align_spec by lia.
  rewrite (aligned_half a ma j Ha ltac:(lia) Hma ltac:(lia) ltac:(lia)).
  rewrite (aligned_half b mb j Hb ltac:(lia) Hmb ltac:(lia) ltac:(lia)).
  f_equal. ring.
Qed.

Lemma SFopp_half k :
  -2 ^ 53 < k < 2 ^ 53 -> k <> 0 ->
  SFopp (binary_normalize prec emax k (-1) false)
  = binary_normalize prec emax (- k) (-1) false.
Proof.
  intros Hk Hnz.
  destruct (half_form k Hnz Hk) as (mz & Hmz & ->).
  destruct (half_form (- k) ltac:(lia) ltac:(lia)) as (mz' & Hmz' & ->).
  cbn [SFopp].
  replace (Zdigits2 (- k)) with (Zdigits2 k) in *
    by (destruct k; reflexivity).
  rewrite Z.abs_opp in Hmz'.
  replace (- k <? 0) with (negb (k <? 0))
    by (destruct (Z.ltb_spec k 0), (Z.ltb_spec (- k) 0); try reflexivity; lia).
  f_equal. lia.
Qed.

Lemma half_sub_half a b :
  -2 ^ 53 < a < 2 ^ 53 -> -2 ^ 53 < b < 2 ^ 53 ->
  -2 ^ 53 < a - b < 2 ^ 53 ->
  (half_integer a - half_integer b)%float = half_integer (a - b).
Proof.
  intros Hra Hrb Hr.
  rewrite <- (SF2Prim_Prim2SF (half_integer a - half_integer b)).
  rewrite sub_spec, !Prim2SF_half. unfold half_integer. f_equal.
  destruct (Z.eq_dec b 0) as [->|Hb].
  - rewrite Z.sub_0_r. cbn [binary_normalize].
    unfold SF64sub, SFsub.
    destruct (binary_normalize prec emax a (-1) false) as [[]|[]| |[] m e];
      reflexivity.
  - destruct (Z.eq_dec a 0) as [->|Ha].
    + rewrite Z.sub_0_l, <- SFopp_half by assumption.
      cbn [binary_normalize]. unfold SF64sub, SFsub.
      destruct (binary_normalize prec emax b (-1) false) as [[]|[]| |[] m e]
        eqn:E; try reflexivity.
      all: destruct (half_form b Hb Hrb) as (mz & _ & H); congruence.
    + apply SFsub_half_half; assumption.
Qed.

Lemma abs_half k :
  -2 ^ 53 < k < 2 ^ 53 ->
  Math_abs (half_integer k) = half_integer (Z.abs k).
Proof.
  intros Hk. unfold Math_abs.
  rewrite <- (SF2Prim_Prim2SF (abs (half_integer k))).
  rewrite abs_spec, Prim2SF_half.
  destruct (Z.eq_dec k 0) as [->|Hnz]; [reflexivity|].
  destruct (half_form k Hnz Hk) as (mz & Hmz & ->).
  destruct (half_form (Z.abs k) ltac:(lia) ltac:(lia)) as (mz' & Hmz' & H').
  unfold half_integer. rewrite H'. cbn [SFabs].
  rewrite Zdigits2_abs, Z.abs_idemp in *.
  destruct (Z.ltb_spec (Z.abs k) 0); [lia|].
  f_equal. f_equal. lia.
Qed.

(** More than 5 means an index above 10. *)
Lemma half_gt_5 j :
  10 < j < 2 ^ 53 -> gtb (half_integer j) 5 = true.
Proof.
  intros Hj. unfold gtb.
  destruct (Z_lt_le_dec j 16) as [Hsmall|Hbig].
  - assert (Hc : j = 11 \/ j = 12 \/ j = 13 \/ j = 14 \/ j = 15) by lia.
    destruct Hc as [-> | [-> | [-> | [-> | ->]]]]; vm_compute; reflexivity.
  - rewrite ltb_spec, Prim2SF_half.
    destruct (half_form j ltac:(lia) ltac:(lia)) as (mz & _ & ->).
    destruct (Z.ltb_spec j 0); [lia|].
    assert (Hd : 5 <= Zdigits2 j).
    { destruct j as [|q|q]; try lia. apply (Zdigits2_ge_pow2 q 4); lia. }
    replace (Prim2SF 5) with (S754_finite false 5629499534213120 (-50))
      by (vm_compute; reflexivity).
    unfold SFltb, SFcompare.
    destruct (Z.compare_spec (-50) (Zdigits2 j - 54)); try lia; reflexivity.
Qed.

Lemma half_le_5_check :
  forall_from 11 0 (fun j => negb (gtb (half_integer j) 5)) = true.
Proof. vm_compute. reflexivity. Qed.

Lemma half_gtb_5 j :
  0 <= j < 2 ^ 53 -> gtb (half_integer j) 5 = (10 <? j).
Proof.
  intros Hj. destruct (Z.ltb_spec 10 j) as [Hgt|Hle].
  - apply half_gt_5. lia.
  - apply negb_true_iff.
    apply (CodecFacts.forall_from_spec _ _ _ half_le_5_check j). lia.
Qed.

Lemma half_lt_100_check :
  forall_from 200 0 (fun k => (half_integer k <? 100)%float) = true.
Proof. vm_compute. reflexivity. Qed.

Lemma half_ltb_100 k :
  -2 ^ 53 < k <= 200 -> (half_integer k <? 100)%float = (k <? 200).
Proof.
  intros Hk. destruct (Z.ltb_spec k 200) as [Hlt|Hge].
  - destruct (Z_lt_le_dec k 0) as [Hneg|Hpos].
    + rewrite ltb_spec, Prim2SF_half.
      destruct (half_form k ltac:(lia) ltac:(lia)) as (mz & _ & ->).
      destruct (Z.ltb_spec k 0); [|lia]. reflexivity.
    + apply (CodecFacts.forall_from_spec _ _ _ half_lt_100_check k). lia.
  - assert (k = 200) by lia. subst k. vm_compute. reflexivity.
Qed.

(** The update rule against a target on the grid, in integers: the score
    [k / 2] loses 1 when it is more than 5 away from the target [j / 2],
    on either side; otherwise it gains 0.5, up to 100. *)
Lemma nextStability_target movement j k :
  (100 - movement / 5)%float = half_integer j ->
  -2 ^ 52 < j < 2 ^ 52 -> -2 ^ 52 < k <= 200 ->
  nextStability movement (half_integer k)
  = half_integer (if 10 <? Z.abs (k - j) then k - 2 else Z.min 200 (k + 1)).
Proof.
  intros Ht Hj Hk. unfold nextStability. rewrite Ht.
  rewrite half_sub_half, abs_half, half_gtb_5 by lia.
  destruct (10 <? Z.abs (k - j)).
  - apply half_sub_one. lia.
  - rewrite half_ltb_100 by lia.
    destruct (Z.ltb_spec k 200).
    + rewrite Z.min_r by lia. apply half_add_half. lia.
    + rewrite Z.min_l by lia. symmetry. exact half_200.
Qed.

(** X24. The score update in integers.  For a sample whose target
    100 - (|beta| + |gamma|) / 5 is a half-integer j / 2 and a score
    k / 2, the new score is (k - 2) / 2 when the score is more than 5
    away from the target, above or below it, and otherwise
    (k + 1) / 2, capped at 100: every operation of the updater is exact
    there.  The sample also replaces the gyro reading and touches no
    other cell. *)
Theorem orientation_update_on_grid (alpha beta gamma : number) (s : State)
    (j k : Z) :
  stabilityScore s = half_integer k ->
  (100 - (Math_abs beta + Math_abs gamma) / 5)%float = half_integer j ->
  -2 ^ 52 < j < 2 ^ 52 -> -2 ^ 52 < k <= 200 ->
  commit s (handleOrientation (Some alpha) (Some beta) (Some gamma))
  = mkState (started s) (testActive s) (status s) (homeLocation s)
            (currentDistance s) (mkGyro alpha beta gamma)
            (half_integer (if 10 <? Z.abs (k - j) then k - 2
                           else Z.min 200 (k + 1))).
Proof.
  intros Hs Ht Hj Hk.
  unfold handleOrientation, commit.
  cbn [fold_left apply started testActive status homeLocation
       currentDistance gyroData stabilityScore].
  rewrite Hs. f_equal.
  apply nextStability_target; assumption.
Qed.

Lemma orientation_update_on_grid_witness :
  commit (fst (load None))
         (handleOrientation (Some 0%float) (Some 90%float) (Some 0%float))
  = mkState false false STANDBY None 0%float (mkGyro 0 90 0) 99%float.
Proof.
  refine (orientation_update_on_grid 0 90 0 (fst (load None)) 164 200
            _ _ _ _).
  - vm_compute. reflexivity.
  - vm_compute. reflexivity.
  - lia.
  - lia.
Defined.

Section WithMath.

Context {M : MathImpl} {W : WebAudio}.

Ltac split_match :=
  match goal with
  | |- context [match ?x with _ => _ end] =>
      first [is_var x; destruct x | destruct x eqn:?]
  | |- context [if ?x then _ else _] => destruct x eqn:?
  end.

(** A handler leaves the score alone or applies the updater once. *)
Lemma handle_score ev s r :
  stabilityScore (commit s (snd (handle ev s r))) = stabilityScore s \/
  exists movement,
    stabilityScore (commit s (snd (handle ev s r)))
    = nextStability movement (stabilityScore s).
Proof.
  destruct ev; cbn [handle];
    unfold onPosition, startSystem, startSystem_settled, onopen, onmessage,
      onaudioprocess, endTest, handleOrientation, startTest, schedule,
      hardware_failure;
    cbv beta iota zeta; repeat split_match; cbn [fst snd app];
    unfold commit; cbn [fold_left apply stabilityScore];
    try (left; reflexivity).
  right. eexists. reflexivity.
Qed.

Lemma exec_score evs : forall a a' k,
  stabilityScore (fst a) = half_integer k -> score_index k ->
  exec evs a = Some a' ->
  exists k', score_index k' /\
             k - 2 * Z.of_nat (List.length evs) <= k' /\
             stabilityScore (fst a') = half_integer k'.
Proof.
  induction evs as [|ev evs IH]; intros a a' k Hs Hk.
  - intros [= <-]. exists k. cbn [List.length].
    split; [exact Hk|]. split; [lia|exact Hs].
  - cbn [exec]. rewrite RunFacts.step_eq. cbn [fst].
    destruct (existsb is_reload _); [discriminate|].
    cbn [List.length]. rewrite Nat2Z.inj_succ.
    assert (H1 : exists k1, score_index k1 /\ k - 2 <= k1 /\
                   stabilityScore
                     (commit (fst a) (snd (handle ev (fst a) (snd a))))
                   = half_integer k1).
    { destruct (handle_score ev (fst a) (snd a)) as [-> | [m ->]].
      - exists k. split; [exact Hk|]. split; [lia|exact Hs].
      - rewrite Hs. apply nextStability_index. exact Hk. }
    destruct H1 as (k1 & Hk1 & Hlo & Hs1). intros He.
    destruct (IH (commit (fst a) (snd (handle ev (fst a) (snd a))),
                  fst (handle ev (fst a) (snd a)))
                a' k1 Hs1 Hk1 He) as (k' & Hk' & Hlo' & Hs').
    exists k'. split; [exact Hk'|]. split; [lia|exact Hs'].
Qed.

(** X23. The upper clamp holds, and the fall has a floor: after any run
    from page load the score lies between -2^53 and 100.  After n events
    it is the binary64 number k / 2 for an integer k with
    200 - 2n <= k <= 200 and -2^54 <= k, even once k <= -2^53: a multiple
    of 0.5 (an integer from -2^52 down, where binary64 holds no other
    numbers), never NaN or infinite, and never more than 1 below the
    score before the event. *)
Theorem stability_never_above_100 (API_KEY : option string)
    (evs : list Event) (a : State * Refs) :
  exec evs (load API_KEY) = Some a ->
  (-9007199254740992 <=? stabilityScore (fst a))%float = true /\
  (stabilityScore (fst a) <=? 100)%float = true /\
  exists k, 200 - 2 * Z.of_nat (List.length evs) <= k /\
            score_index k /\
            stabilityScore (fst a) = half_integer k.
Proof.
  intros He.
  assert (H0 : stabilityScore (fst (load API_KEY)) = half_integer 200)
    by (symmetry; exact half_200).
  assert (Hi : score_index 200) by (split; [lia|intros; lia]).
  destruct (exec_score evs (load API_KEY) a 200 H0 Hi He)
    as (k & Hk & Hlo & Hs).
  rewrite Hs.
  split; [apply index_ge_floor; exact Hk|].
  split; [apply index_le_100; exact Hk|].
  exists k. split; [exact Hlo|]. split; [exact Hk|reflexivity].
Qed.

(** X25. For a device lying flat, 95 is a point of no return.  Over any
    run of flat samples (beta and gamma zero), from any state: a score
    k / 2 of at least 95 climbs by 0.5 per sample to 100 and stays
    there; a score below 95 loses 1 with every sample and never
    recovers, although the device is still. *)
Theorem flat_device_point_of_no_return (evs : list Event) :
  forall (a : State * Refs) (k : Z),
  Forall is_flat evs ->
  stabilityScore (fst a) = half_integer k ->
  -2 ^ 52 < k - 2 * Z.of_nat (List.length evs) -> k <= 200 ->
  exists a',
    exec evs a = Some a' /\
    stabilityScore (fst a')
    = half_integer (if k <? 190 then k - 2 * Z.of_nat (List.length evs)
                    else Z.min 200 (k + Z.of_nat (List.length evs))).
Proof.
  induction evs as [|ev evs IH]; intros a k Hflat Hs Hlo Hhi.
  - exists a. split; [reflexivity|]. cbn [List.length Z.of_nat].
    rewrite Hs. f_equal. destruct (k <? 190); lia.
  - inversion Hflat as [|ev' evs' Hev Hrest]; subst.
    destruct ev as [[al|] [b|] [g|]| | | | | | | | | | | | |];
      cbn [is_flat] in Hev; try contradiction.
    destruct Hev as [Hb Hg].
    cbn [List.length] in *. rewrite Nat2Z.inj_succ in *.
    cbn [exec]. rewrite RunFacts.step_eq. cbn [handle fst snd].
    unfold handleOrientation at 1. cbn [existsb is_reload orb].
    assert (Ht : (100 - (Math_abs b + Math_abs g) / 5)%float
                 = half_integer 200).
    { rewrite Hb, Hg. vm_compute. reflexivity. }
    pose proof (nextStability_target _ 200 k Ht ltac:(lia) ltac:(lia))
      as Hn.
    set (a1 := (commit (fst a)
                  (handleOrientation (Some al) (Some b) (Some g)), snd a)).
    assert (Hs1 : stabilityScore (fst a1)
                  = half_integer (if k <? 190 then k - 2
                                  else Z.min 200 (k + 1))).
    { subst a1. cbn [fst]. unfold handleOrientation, commit.
      cbn [fold_left apply stabilityScore]. rewrite Hs, Hn.
      f_equal.
      destruct (Z.ltb_spec 10 (Z.abs (k - 200))), (Z.ltb_spec k 190);
        lia. }
    destruct (Z.ltb_spec k 190) as [Hlow|Hhigh].
    + destruct (IH a1 (k - 2) Hrest Hs1 ltac:(lia) ltac:(lia))
        as (a' & He & Hs').
      exists a'. split; [exact He|]. rewrite Hs'.
      destruct (Z.ltb_spec (k - 2) 190); [|lia]. f_equal. lia.
    + destruct (IH a1 (Z.min 200 (k + 1)) Hrest Hs1 ltac:(lia) ltac:(lia))
        as (a' & He & Hs').
      exists a'. split; [exact He|]. rewrite Hs'.
      destruct (Z.ltb_spec (Z.min 200 (k + 1)) 190); [lia|]. f_equal. lia.
Qed.

End WithMath.

Lemma stability_never_above_100_witness :
  (stabilityScore flat_after_upright <=? 100)%float = true.
Proof.
  refine (proj1 (proj2 (stability_never_above_100 (M := SmallAngle) (W := Platform.Nominal) None
                          upright_then_flat
                          (flat_after_upright, initialRefs) _))).
  vm_compute. reflexivity.
Defined.

Lemma flat_device_point_of_no_return_witness :
  exists a',
    exec (M := SmallAngle) (W := Platform.Nominal)
         [deviceorientation (Some 0%float) (Some 0%float) (Some 0%float)]
         (flat_after_upright, initialRefs) = Some a' /\
    stabilityScore (fst a') = half_integer (-4).
Proof.
  refine (flat_device_point_of_no_return (M := SmallAngle) (W := Platform.Nominal)
            [deviceorientation (Some 0%float) (Some 0%float) (Some 0%float)]
            (flat_after_upright, initialRefs) (-2) _ _ _ _).
  - repeat constructor.
  - vm_compute. reflexivity.
  - cbn. lia.
  - lia.
Defined.

End StabilityFacts.
